(** * quic-go: a shallow embedding of the frame codec, the stream, the ACK
    handlers, the packet packer and the handshake state, with the properties
    the specification states about them.

    Conventions.
    - Go's fixed-width integers are [Z] with the wrap-around written out
      ([wrap8], [wrap16], [wrap32], [wrap64]); a [byte] is a [Z] in [0, 256).
    - A [*bytes.Buffer] is the list of bytes written so far, a
      [*bytes.Reader] the list of bytes still to be read.
    - A Go [(T, error)] result is a [result T]; a run-time panic is the
      third constructor.
    - Go maps are stdpp [gmap]s. *)

From Stdlib Require Import ZArith Lia String Sorted.
From Stdlib Require SpecFloat.
From stdpp Require Import base numbers option list sorting gmap.

Local Open Scope Z_scope.

(** ** Errors and results *)

Inductive error : Type :=
| EOF                      (* io.EOF *)
| ErrUnexpectedEOF         (* io.ErrUnexpectedEOF *)
| errorsNew (msg : string) (* errors.New(msg) *)
| FlowControlReceivedTooMuchData (* qerr.FlowControlReceivedTooMuchData *)
| ErrMapAccess.            (* ackhandler.ErrMapAccess *)

Inductive result (A : Type) : Type :=
| Ok (a : A)
| Err (e : error)
| Panic (msg : string).
Arguments Ok {A} a.
Arguments Err {A} e.
Arguments Panic {A} msg.

(** [result] is a monad; the source's [if err != nil { return nil, err }]
    is its bind, written with stdpp's [x ← e; k]. *)
#[export] Instance result_ret : MRet result := fun A a => Ok a.
#[export] Instance result_bind : MBind result := fun A B k r =>
  match r with
  | Ok a => k a
  | Err e => Err e
  | Panic m => Panic m
  end.

(** ** Fixed-width integers *)

Definition wrap8  (x : Z) : Z := x mod 2^8.
Definition wrap16 (x : Z) : Z := x mod 2^16.
Definition wrap32 (x : Z) : Z := x mod 2^32.
Definition wrap64 (x : Z) : Z := x mod 2^64.

Definition is_byte   (x : Z) : Prop := 0 <= x < 2^8.
Definition is_uint16 (x : Z) : Prop := 0 <= x < 2^16.
Definition is_uint32 (x : Z) : Prop := 0 <= x < 2^32.
Definition is_uint64 (x : Z) : Prop := 0 <= x < 2^64.

Definition MaxUint16 : Z := 65535.

(** ** package utils: little-endian readers and writers (utils.go) *)

Module Utils.

(** [bytes.Reader.ReadByte] *)
Definition ReadByte (r : list Z) : result (Z * list Z) :=
  match r with
  | [] => Err EOF
  | b :: r' => Ok (b, r')
  end.

(** [bytes.Buffer.WriteByte] *)
Definition WriteByte (b : list Z) (c : Z) : list Z := b ++ [c].

(** [ReadUintN]: [res ^= uint64(bt) << (i * 8)], the counter [i] and the
    shift amount are [uint8]; a shift by 64 or more gives 0 in Go, which
    [wrap64] of the unbounded shift gives too. *)
Fixpoint ReadUintN_loop (n : nat) (i : Z) (res : Z) (r : list Z)
  : result (Z * list Z) :=
  match n with
  | O => Ok (res, r)
  | S n' =>
      ('(bt, r1) ← ReadByte r;
       ReadUintN_loop n' (wrap8 (i + 1))
         (Z.lxor res (wrap64 (Z.shiftl bt (wrap8 (i * 8))))) r1)
  end.

Definition ReadUintN (r : list Z) (length : Z) : result (Z * list Z) :=
  ReadUintN_loop (Z.to_nat length) 0 0 r.

Definition ReadUint32 (r : list Z) : result (Z * list Z) :=
  ('(b1, r1) ← ReadByte r;
   '(b2, r2) ← ReadByte r1;
   '(b3, r3) ← ReadByte r2;
   '(b4, r4) ← ReadByte r3;
   Ok (wrap32 (b1 + wrap32 (Z.shiftl b2 8) + wrap32 (Z.shiftl b3 16)
               + wrap32 (Z.shiftl b4 24)), r4)).

Definition ReadUint16 (r : list Z) : result (Z * list Z) :=
  ('(b1, r1) ← ReadByte r;
   '(b2, r2) ← ReadByte r1;
   Ok (wrap16 (b1 + wrap16 (Z.shiftl b2 8)), r2)).

Definition WriteUint32 (b : list Z) (i : Z) : list Z :=
  let b := WriteByte b (wrap8 (Z.land i 255)) in
  let b := WriteByte b (wrap8 (Z.land (Z.shiftr i 8) 255)) in
  let b := WriteByte b (wrap8 (Z.land (Z.shiftr i 16) 255)) in
  WriteByte b (wrap8 (Z.land (Z.shiftr i 24) 255)).

Definition WriteUint16 (b : list Z) (i : Z) : list Z :=
  let b := WriteByte b (wrap8 (Z.land i 255)) in
  WriteByte b (wrap8 (Z.land (Z.shiftr i 8) 255)).

(** [Min] on [int] *)
Definition Min (a b : Z) : Z := if a <? b then a else b.

(** [MinDuration] *)
Definition MinDuration (a b : Z) : Z := if b <? a then b else a.

(** [io.ReadFull(r, buf)] for a buffer of [n] bytes: nothing is read for an
    empty buffer; [EOF] when no byte could be read, [ErrUnexpectedEOF] when
    the reader ends early. *)
Definition ReadFull (r : list Z) (n : nat) : result (list Z * list Z) :=
  match n with
  | O => Ok ([], r)
  | S _ =>
      match r with
      | [] => Err EOF
      | _ => if (n <=? length r)%nat then Ok (take n r, drop n r)
             else Err ErrUnexpectedEOF
      end
  end.

(** [bytes.Reader.Read(p)] for a slice of [n] bytes: [EOF] at the end of
    the input, else up to [n] bytes are consumed. *)
Definition Read (r : list Z) (n : nat) : result (nat * list Z) :=
  match r with
  | [] => Err EOF
  | _ => Ok (Nat.min n (length r), drop n r)
  end.

(** [ReadUint64] *)
Definition ReadUint64 (r : list Z) : result (Z * list Z) :=
  ('(b1, r1) ← ReadByte r;
   '(b2, r2) ← ReadByte r1;
   '(b3, r3) ← ReadByte r2;
   '(b4, r4) ← ReadByte r3;
   '(b5, r5) ← ReadByte r4;
   '(b6, r6) ← ReadByte r5;
   '(b7, r7) ← ReadByte r6;
   '(b8, r8) ← ReadByte r7;
   Ok (wrap64 (b1 + wrap64 (Z.shiftl b2 8) + wrap64 (Z.shiftl b3 16)
               + wrap64 (Z.shiftl b4 24) + wrap64 (Z.shiftl b5 32)
               + wrap64 (Z.shiftl b6 40) + wrap64 (Z.shiftl b7 48)
               + wrap64 (Z.shiftl b8 56)), r8)).

(** [WriteUint64] *)
Definition WriteUint64 (b : list Z) (i : Z) : list Z :=
  let b := WriteByte b (wrap8 (Z.land i 255)) in
  let b := WriteByte b (wrap8 (Z.land (Z.shiftr i 8) 255)) in
  let b := WriteByte b (wrap8 (Z.land (Z.shiftr i 16) 255)) in
  let b := WriteByte b (wrap8 (Z.land (Z.shiftr i 24) 255)) in
  let b := WriteByte b (wrap8 (Z.land (Z.shiftr i 32) 255)) in
  let b := WriteByte b (wrap8 (Z.land (Z.shiftr i 40) 255)) in
  let b := WriteByte b (wrap8 (Z.land (Z.shiftr i 48) 255)) in
  WriteByte b (wrap8 (Z.shiftr i 56)).

(** [WriteUint48] *)
Definition WriteUint48 (b : list Z) (i : Z) : list Z :=
  let b := WriteByte b (wrap8 (Z.land i 255)) in
  let b := WriteByte b (wrap8 (Z.land (Z.shiftr i 8) 255)) in
  let b := WriteByte b (wrap8 (Z.land (Z.shiftr i 16) 255)) in
  let b := WriteByte b (wrap8 (Z.land (Z.shiftr i 24) 255)) in
  let b := WriteByte b (wrap8 (Z.land (Z.shiftr i 32) 255)) in
  WriteByte b (wrap8 (Z.shiftr i 40)).

(** [WriteUint24] *)
Definition WriteUint24 (b : list Z) (i : Z) : list Z :=
  let b := WriteByte b (wrap8 (Z.land i 255)) in
  let b := WriteByte b (wrap8 (Z.land (Z.shiftr i 8) 255)) in
  WriteByte b (wrap8 (Z.land (Z.shiftr i 16) 255)).

(** [Max] on [int] *)
Definition Max (a b : Z) : Z := if a <? b then b else a.

(** [MaxPacketNumber] and [MinPacketNumber] *)
Definition MaxPacketNumber (a b : Z) : Z := if b <? a then a else b.
Definition MinPacketNumber (a b : Z) : Z := if a <? b then a else b.

End Utils.

(** ** package frames: ACK and CONNECTION_CLOSE frames
    (frames/ack_frame.go, frames/connection_close_frame.go) *)

Module Frames.
Import Utils.

(** [AckFrame]: [Entropy byte], [LargestObserved protocol.PacketNumber]
    (a [uint64]), [DelayTime uint16]. *)
Record AckFrame : Type := mkAckFrame {
  Entropy : Z;
  LargestObserved : Z;
  DelayTime : Z
}.

Definition AckFrame_wf (f : AckFrame) : Prop :=
  is_byte (Entropy f) /\ is_uint64 (LargestObserved f) /\
  is_uint16 (DelayTime f).

(** [AckFrame.Write]: the type byte is the constant 0x48, the largest
    observed packet number is cut to 32 bits, and the delay time written
    is the constant 1. *)
Definition AckFrame_Write (f : AckFrame) (b : list Z) : list Z * option error :=
  let typeByte := 72 in
  let b := WriteByte b typeByte in
  let b := WriteByte b (Entropy f) in
  let b := WriteUint32 b (wrap32 (LargestObserved f)) in
  let b := WriteUint16 b 1 in
  let b := WriteByte b 1 in
  let b := WriteByte b 0 in
  let b := WriteUint32 b 0 in
  (b, None).

(** The loop over the timestamps after the first one:
    [for i := 0; i < int(numTimestamp)-1; i++]. *)
Fixpoint skipTimestamps (n : nat) (r : list Z) : result (unit * list Z) :=
  match n with
  | O => Ok (tt, r)
  | S n' =>
      '(_, r1) ← ReadByte r;
      '(_, r2) ← ReadUint16 r1;
      skipTimestamps n' r2
  end.

(** The loop over the NACK ranges: [numRanges] calls of [r.Read(p)]. *)
Fixpoint skipNackRanges (n : nat) (plen : nat) (r : list Z)
  : result (unit * list Z) :=
  match n with
  | O => Ok (tt, r)
  | S n' =>
      '(_, r1) ← Read r plen;
      skipNackRanges n' plen r1
  end.

(** [ParseAckFrame] *)
Definition ParseAckFrame (r : list Z) : result (AckFrame * list Z) :=
  '(typeByte, r) ← ReadByte r;
  let hasNACK := bool_decide (Z.land typeByte 32 = 32) in
  if bool_decide (Z.land typeByte 16 = 16)
  then Panic "truncated ACKs not yet implemented."
  else
    let largestObservedLen :=
      wrap8 (2 * Z.shiftr (Z.land typeByte 12) 2) in
    let largestObservedLen :=
      if bool_decide (largestObservedLen = 0) then 1 else largestObservedLen in
    let missingSequenceNumberDeltaLen := wrap8 (2 * Z.land typeByte 3) in
    let missingSequenceNumberDeltaLen :=
      if bool_decide (missingSequenceNumberDeltaLen = 0)
      then 1 else missingSequenceNumberDeltaLen in
    '(entropy, r) ← ReadByte r;
    '(largestObserved, r) ← ReadUintN r largestObservedLen;
    '(delayTime, r) ← ReadUint16 r;
    '(numTimestampByte, r) ← ReadByte r;
    let numTimestamp := numTimestampByte in
    '(_, r) ← ReadByte r;
    '(_, r) ← ReadUint32 r;
    '(_, r) ← skipTimestamps (Z.to_nat (numTimestamp - 1)) r;
    '(_, r) ←
      (if hasNACK then
         '(numRanges, r) ← ReadByte r;
         skipNackRanges (Z.to_nat numRanges)
           (Z.to_nat (wrap8 (largestObservedLen + 1))) r
       else Ok (tt, r));
    Ok (mkAckFrame entropy largestObserved delayTime, r).

(** [ConnectionCloseFrame]: [ErrorCode protocol.ErrorCode] (a [uint32]) and
    [ReasonPhrase string]; a Go string is its sequence of bytes. *)
Record ConnectionCloseFrame : Type := mkConnectionCloseFrame {
  ErrorCode : Z;
  ReasonPhrase : list Z
}.

Definition ConnectionCloseFrame_wf (f : ConnectionCloseFrame) : Prop :=
  is_uint32 (ErrorCode f) /\ Forall is_byte (ReasonPhrase f) /\
  Z.of_nat (length (ReasonPhrase f)) <= MaxUint16.

(** [ParseConnectionCloseFrame] *)
Definition ParseConnectionCloseFrame (r : list Z)
  : result (ConnectionCloseFrame * list Z) :=
  '(_, r) ← ReadByte r;
  '(errorCode, r) ← ReadUint32 r;
  '(reasonPhraseLen, r) ← ReadUint16 r;
  '(reasonPhrase, r) ← ReadFull r (Z.to_nat reasonPhraseLen);
  Ok (mkConnectionCloseFrame errorCode reasonPhrase, r).

(** [ConnectionCloseFrame.MinLength] *)
Definition ConnectionCloseFrame_MinLength (f : ConnectionCloseFrame) : Z :=
  wrap64 (1 + 4 + 2 + Z.of_nat (length (ReasonPhrase f))).

(** The loop [for i := 0; i < int(reasonPhraseLen); i++] writing
    [uint8(f.ReasonPhrase[i])]; indexing past the end panics in Go, which
    cannot happen since [reasonPhraseLen] is the length. *)
Fixpoint writeReasonPhrase (n : nat) (i : nat) (s : list Z) (b : list Z)
  : list Z :=
  match n with
  | O => b
  | S n' =>
      writeReasonPhrase n' (S i) s
        (WriteByte b (wrap8 (default 0 (s !! i))))
  end.

(** [ConnectionCloseFrame.Write]: the type byte and the error code are in
    the buffer already when the reason phrase is found too long. *)
Definition ConnectionCloseFrame_Write (f : ConnectionCloseFrame) (b : list Z)
  : list Z * option error :=
  let b := WriteByte b 2 in
  let b := WriteUint32 b (wrap32 (ErrorCode f)) in
  if MaxUint16 <? Z.of_nat (length (ReasonPhrase f))
  then (b, Some (errorsNew "ConnectionFrame: ReasonPhrase too long"))
  else
    let reasonPhraseLen := wrap16 (Z.of_nat (length (ReasonPhrase f))) in
    let b := WriteUint16 b reasonPhraseLen in
    let b := writeReasonPhrase (Z.to_nat reasonPhraseLen) 0 (ReasonPhrase f) b in
    (b, None).

End Frames.

(** ** package quic: the stream (stream.go) *)

Module Stream.
Import Utils.

(** [frames.StreamFrame], the fields the stream reads and writes. *)
Record StreamFrame : Type := mkStreamFrame {
  StreamID : Z;
  Offset : Z;
  FinBit : bool;
  Data : list Z
}.

(** Modelled from the spec: the [flowController] of a stream, whose source
    file is not part of the sources.  The spec gives the send window as the
    upper bound on the offsets the sender may transmit and the receive
    window as the bound no received offset may exceed
    ([highest_received_offset > max_data_advertised] is the violation). *)
Record flowController : Type := mkFlowController {
  bytesSent : Z;
  sendFlowControlWindow : Z;
  bytesRead : Z;
  highestReceived : Z;
  receiveFlowControlWindow : Z
}.

(** Modelled from the spec: [flowController.SendWindowSize], what is left of
    the send window, 0 when the bytes sent have used it up. *)
Definition SendWindowSize (c : flowController) : Z :=
  if sendFlowControlWindow c <? bytesSent c then 0
  else wrap64 (sendFlowControlWindow c - bytesSent c).

(** Modelled from the spec: [flowController.AddBytesSent]. *)
Definition AddBytesSent (c : flowController) (n : Z) : flowController :=
  mkFlowController (wrap64 (bytesSent c + n)) (sendFlowControlWindow c)
    (bytesRead c) (highestReceived c) (receiveFlowControlWindow c).

(** Modelled from the spec: [flowController.UpdateSendWindow], a window
    update raises the send window and never lowers it; the result tells
    whether it was raised. *)
Definition UpdateSendWindow (c : flowController) (newOffset : Z)
  : flowController * bool :=
  if sendFlowControlWindow c <? newOffset
  then (mkFlowController (bytesSent c) newOffset (bytesRead c)
          (highestReceived c) (receiveFlowControlWindow c), true)
  else (c, false).

(** Modelled from the spec: [flowController.UpdateHighestReceived], the
    highest offset received so far. *)
Definition UpdateHighestReceived (c : flowController) (byteOffset : Z)
  : flowController :=
  if highestReceived c <? byteOffset
  then mkFlowController (bytesSent c) (sendFlowControlWindow c) (bytesRead c)
         byteOffset (receiveFlowControlWindow c)
  else c.

(** Modelled from the spec: [flowController.CheckFlowControlViolation],
    the spec's violation [highest_received_offset > max_data_advertised]. *)
Definition CheckFlowControlViolation (c : flowController) : bool :=
  receiveFlowControlWindow c <? highestReceived c.

(** The [streamHandler] interface of the session, and the interface of the
    [streamFrameSorter] (its source file is not part of the sources; the
    stream only pushes into it here). *)
Class streamHandler (S : Type) : Type := {
  queueStreamFrame : S -> StreamFrame -> S * option error
}.

Class streamFrameSorter (Q : Type) : Type := {
  Push : Q -> StreamFrame -> Q
}.

(** A session that records the frames queued, in order. *)
#[global] Instance recordingSession : streamHandler (list StreamFrame) := {
  queueStreamFrame q f := (q ++ [f], None)
}.

#[global] Instance listSorter : streamFrameSorter (list StreamFrame) := {
  Push q f := q ++ [f]
}.

(** [stream]; the mutex and the condition variables are not state. *)
Record stream (Q : Type) : Type := mkStream {
  streamID : Z;
  readPosInFrame : Z;
  writeOffset : Z;
  readOffset : Z;
  err : option error;
  eof : bool;
  closed : bool;
  frameQueue : Q;
  flowCtrl : flowController
}.
Arguments mkStream {Q}.
Arguments streamID {Q}.
Arguments readPosInFrame {Q}.
Arguments writeOffset {Q}.
Arguments readOffset {Q}.
Arguments err {Q}.
Arguments eof {Q}.
Arguments closed {Q}.
Arguments frameQueue {Q}.
Arguments flowCtrl {Q}.

(** What another goroutine does while [Write] waits on
    [windowUpdateOrErrCond]. *)
Inductive event : Type :=
| WindowUpdate (n : Z)        (* UpdateSendFlowControlWindow(n) *)
| ErrorRegistered (e : error) (* RegisterError(e) *).

(** How a call ends: it returns, waits for ever, or panics; [OutOfFuel]
    is the end of a loop cut short by its fuel, which [Write] never
    reaches ([Write_fuel] below). *)
Inductive outcome (A : Type) : Type :=
| Returned (a : A)
| Blocked
| Panicked
| OutOfFuel.
Arguments Returned {A} a.
Arguments Blocked {A}.
Arguments Panicked {A}.
Arguments OutOfFuel {A}.

(** [int(x)] of a [uint64] on a 64-bit platform. *)
Definition toInt (x : Z) : Z := (x + 2^63) mod 2^64 - 2^63.

Section WithQueue.
Context {Q : Type} `{!streamFrameSorter Q}.

Definition setFlowCtrl (s : stream Q) (c : flowController) : stream Q :=
  mkStream (streamID s) (readPosInFrame s) (writeOffset s) (readOffset s)
    (err s) (eof s) (closed s) (frameQueue s) c.

(** [UpdateSendFlowControlWindow] *)
Definition UpdateSendFlowControlWindow (s : stream Q) (n : Z) : stream Q :=
  setFlowCtrl s (UpdateSendWindow (flowCtrl s) n).1.

(** [RegisterError]: [s.err] is set once and never changed. *)
Definition RegisterError (s : stream Q) (e : error) : stream Q :=
  match err s with
  | Some _ =>
      mkStream (streamID s) (readPosInFrame s) (writeOffset s)
        (readOffset s) (err s) (eof s) true (frameQueue s) (flowCtrl s)
  | None =>
      mkStream (streamID s) (readPosInFrame s) (writeOffset s)
        (readOffset s) (Some e) (eof s) true (frameQueue s) (flowCtrl s)
  end.

Definition applyEvent (s : stream Q) (ev : event) : stream Q :=
  match ev with
  | WindowUpdate n => UpdateSendFlowControlWindow s n
  | ErrorRegistered e => RegisterError s e
  end.

(** The inner loop of [Write]:
    [for remainingBytesInWindow == 0 && s.err == nil { Wait() ... }]. *)
Fixpoint waitForWindow (s : stream Q) (evs : list event) {struct evs}
  : option (Z * stream Q * list event) :=
  let remainingBytesInWindow := SendWindowSize (flowCtrl s) in
  if bool_decide (remainingBytesInWindow = 0) && bool_decide (err s = None)
  then match evs with
       | [] => None
       | ev :: evs' => waitForWindow (applyEvent s ev) evs'
       end
  else Some (remainingBytesInWindow, s, evs).

(** [AddStreamFrame] *)
Definition AddStreamFrame (s : stream Q) (frame : StreamFrame)
  : stream Q * option error :=
  let maxOffset := wrap64 (Offset frame + Z.of_nat (length (Data frame))) in
  let c := UpdateHighestReceived (flowCtrl s) maxOffset in
  let s := setFlowCtrl s c in
  if CheckFlowControlViolation c
  then (s, Some FlowControlReceivedTooMuchData)
  else
    (mkStream (streamID s) (readPosInFrame s) (writeOffset s)
       (readOffset s) (err s) (eof s) (closed s)
       (Push (frameQueue s) frame) (flowCtrl s), None).

Section WithSession.
Context {S : Type} `{!streamHandler S}.

(** The outer loop of [Write], [for dataWritten < len(p)]; every round
    adds at least one byte to [dataWritten], so [length p] rounds of
    fuel are never used up. *)
Fixpoint Write_loop (fuel : nat) (p : list Z) (dataWritten : Z)
    (s : stream Q) (ss : S) (evs : list event)
  : outcome (Z * option error) * stream Q * S :=
  if dataWritten <? Z.of_nat (length p) then
    match fuel with
    | O => (OutOfFuel, s, ss)
    | Datatypes.S fuel' =>
        match waitForWindow s evs with
        | None => (Blocked, s, ss)
        | Some (remainingBytesInWindow, s, evs) =>
            if bool_decide (remainingBytesInWindow = 0)
            then (Returned (0, err s), s, ss)
            else
              let dataLen :=
                Min (Z.of_nat (length p)) (toInt remainingBytesInWindow) in
              if dataLen <? 0 then (Panicked, s, ss)
              else
                let data := take (Z.to_nat dataLen) p in
                let '(ss, e) :=
                  queueStreamFrame ss
                    (mkStreamFrame (streamID s) (writeOffset s) false data) in
                match e with
                | Some e => (Returned (0, Some e), s, ss)
                | None =>
                    let dataWritten := dataWritten + dataLen in
                    let s :=
                      mkStream (streamID s) (readPosInFrame s)
                        (wrap64 (writeOffset s + dataLen)) (readOffset s)
                        (err s) (eof s) (closed s) (frameQueue s)
                        (AddBytesSent (flowCtrl s) dataLen) in
                    Write_loop fuel' p dataWritten s ss evs
                end
        end
    end
  else (Returned (Z.of_nat (length p), None), s, ss).

(** [Write] *)
Definition Write (s : stream Q) (ss : S) (p : list Z) (evs : list event)
  : outcome (Z * option error) * stream Q * S :=
  match err s with
  | Some e => (Returned (0, Some e), s, ss)
  | None => Write_loop (length p) p 0 s ss evs
  end.

(** [Close] *)
Definition Close (s : stream Q) (ss : S) : stream Q * S * option error :=
  let s :=
    mkStream (streamID s) (readPosInFrame s) (writeOffset s)
      (readOffset s) (err s) (eof s) true (frameQueue s) (flowCtrl s) in
  let '(ss, e) :=
    queueStreamFrame ss (mkStreamFrame (streamID s) (writeOffset s) true []) in
  (s, ss, e).

End WithSession.
End WithQueue.

(** [newStream], with the windows the connection parameters give. *)
Definition newStream {Q : Type} (q0 : Q) (StreamID : Z)
    (sendWindow receiveWindow : Z) : stream Q :=
  mkStream StreamID 0 0 0 None false false q0
    (mkFlowController 0 sendWindow 0 0 receiveWindow).

End Stream.

(** ** package quic: the stream before flow control (stream.go, the version
    that assembles the frames itself) *)

Module EarlyStream.
Import Utils.

(** The [streamHandler] interface of the session. *)
Class streamHandler (S : Type) : Type := {
  QueueFrame : S -> Stream.StreamFrame -> S * option error
}.

(** A session that records the frames queued, in order. *)
#[global] Instance recordingSession : streamHandler (list Stream.StreamFrame) := {
  QueueFrame q f := (q ++ [f], None)
}.

(** [stream]; [streamFrames] is the content of the channel of capacity 8,
    the next element to receive first, [None] for the nil that announces a
    remote error. *)
Record stream : Type := mkStream {
  streamID : Z;
  streamFrames : list (option Stream.StreamFrame);
  currentFrame : option Stream.StreamFrame;
  readPosInFrame : Z;
  writeOffset : Z;
  readOffset : Z;
  frameQueue : list Stream.StreamFrame;
  remoteErr : option error;
  currentErr : option error
}.

(** [newStream] *)
Definition newStream (StreamID : Z) : stream :=
  mkStream StreamID [] None 0 0 0 [] None None.

Definition setStreamFrames (s : stream)
    (c : list (option Stream.StreamFrame)) : stream :=
  mkStream (streamID s) c (currentFrame s) (readPosInFrame s)
    (writeOffset s) (readOffset s) (frameQueue s) (remoteErr s)
    (currentErr s).

Definition setFrameQueue (s : stream) (q : list Stream.StreamFrame)
  : stream :=
  mkStream (streamID s) (streamFrames s) (currentFrame s)
    (readPosInFrame s) (writeOffset s) (readOffset s) q (remoteErr s)
    (currentErr s).

Definition setCurrentFrame (s : stream) (f : option Stream.StreamFrame)
  : stream :=
  mkStream (streamID s) (streamFrames s) f (readPosInFrame s)
    (writeOffset s) (readOffset s) (frameQueue s) (remoteErr s)
    (currentErr s).

Definition setReadPos (s : stream) (readPos readOff : Z) : stream :=
  mkStream (streamID s) (streamFrames s) (currentFrame s) readPos
    (writeOffset s) readOff (frameQueue s) (remoteErr s) (currentErr s).

Definition setCurrentErr (s : stream) (e : option error) : stream :=
  mkStream (streamID s) (streamFrames s) (currentFrame s)
    (readPosInFrame s) (writeOffset s) (readOffset s) (frameQueue s)
    (remoteErr s) e.

(** [nextFrameInChan]: a receive on the empty channel waits for ever when
    no other goroutine sends; the select with a default returns at once.
    The channel is never closed, so the panic on [!ok] is never reached. *)
Definition nextFrameInChan (s : stream) (blocking : bool)
  : Stream.outcome (option Stream.StreamFrame * option error) * stream :=
  match streamFrames s with
  | [] =>
      if blocking then (Stream.Blocked, s)
      else (Stream.Returned (None, None), s)
  | f :: rest =>
      let s := setStreamFrames s rest in
      match f with
      | None => (Stream.Returned (None, remoteErr s), s)
      | Some f => (Stream.Returned (Some f, None), s)
      end
  end.

(** [s.frameQueue[i] = s.frameQueue[len(s.frameQueue)-1]] and
    [s.frameQueue = s.frameQueue[:len(s.frameQueue)-1]] *)
Definition removeFromQueue (q : list Stream.StreamFrame) (i : nat)
  : list Stream.StreamFrame :=
  match last q with
  | Some l => take (length q - 1) (<[i := l]> q)
  | None => q
  end.

(** The loop [for { ... }] of [getNextFrameInOrder]; every round takes an
    element from the channel. *)
Fixpoint getNextFrameInOrder_loop (fuel : nat) (s : stream) (wait : bool)
  : Stream.outcome (option Stream.StreamFrame * option error) * stream :=
  match fuel with
  | O => (Stream.OutOfFuel, s)
  | S fuel' =>
      match nextFrameInChan s wait with
      | (Stream.Returned (nextFrameFromChannel, err), s) =>
          match err with
          | Some e => (Stream.Returned (None, Some e), s)
          | None =>
              match nextFrameFromChannel with
              | None => (Stream.Returned (None, None), s)
              | Some f =>
                  if bool_decide (Stream.Offset f = readOffset s)
                  then (Stream.Returned (Some f, None), s)
                  else if Stream.Offset f <? readOffset s
                  then getNextFrameInOrder_loop fuel' s wait
                  else getNextFrameInOrder_loop fuel'
                         (setFrameQueue s (frameQueue s ++ [f])) wait
              end
          end
      | (o, s) => (o, s)
      end
  end.

(** [getNextFrameInOrder]: first the queue, then the channel. *)
Definition getNextFrameInOrder (s : stream) (wait : bool)
  : Stream.outcome (option Stream.StreamFrame * option error) * stream :=
  match list_find (fun f => Stream.Offset f = readOffset s) (frameQueue s) with
  | Some (i, f) =>
      (Stream.Returned (Some f, None),
       setFrameQueue s (removeFromQueue (frameQueue s) i))
  | None => getNextFrameInOrder_loop (S (length (streamFrames s))) s wait
  end.

(** The part of a round of [Read] behind the choice of the frame: [m]
    bytes of the current frame [f] go to [p]; [continue] is the next
    round.  The slice [Data[readPosInFrame:]] panics out of range. *)
Definition readFromFrame
    (continue : stream -> list Z -> Z
                -> Stream.outcome (Z * option error) * stream * list Z)
    (s : stream) (f : Stream.StreamFrame) (p : list Z) (bytesRead : Z)
  : Stream.outcome (Z * option error) * stream * list Z :=
  let dataLen := Z.of_nat (length (Stream.Data f)) in
  if (readPosInFrame s <? 0) || (dataLen <? readPosInFrame s)
  then (Stream.Panicked, s, p)
  else
    let m := Min (Z.of_nat (length p) - bytesRead)
               (dataLen - readPosInFrame s) in
    let p :=
      take (Z.to_nat bytesRead) p
      ++ take (Z.to_nat m) (drop (Z.to_nat (readPosInFrame s)) (Stream.Data f))
      ++ drop (Z.to_nat (bytesRead + m)) p in
    let s := setReadPos s (readPosInFrame s + m) (wrap64 (readOffset s + m)) in
    let bytesRead := bytesRead + m in
    if dataLen <=? readPosInFrame s then
      let fin := Stream.FinBit f in
      let s := setCurrentFrame s None in
      if fin
      then (Stream.Returned (bytesRead, Some EOF),
            setCurrentErr s (Some EOF), p)
      else continue s p bytesRead
    else continue s p bytesRead.

(** The loop [for bytesRead < len(p)] of [Read]. *)
Fixpoint Read_loop (fuel : nat) (s : stream) (p : list Z) (bytesRead : Z)
  : Stream.outcome (Z * option error) * stream * list Z :=
  if bytesRead <? Z.of_nat (length p) then
    match fuel with
    | O => (Stream.OutOfFuel, s, p)
    | S fuel' =>
        match currentFrame s with
        | Some f => readFromFrame (Read_loop fuel') s f p bytesRead
        | None =>
            match getNextFrameInOrder s (bool_decide (bytesRead = 0)) with
            | (Stream.Returned (_, Some e), s) =>
                (Stream.Returned (bytesRead, Some e),
                 setCurrentErr s (Some e), p)
            | (Stream.Returned (None, None), s) =>
                (Stream.Returned (bytesRead, None), s, p)
            | (Stream.Returned (Some f, None), s) =>
                let s := setReadPos (setCurrentFrame s (Some f)) 0
                           (readOffset s) in
                readFromFrame (Read_loop fuel') s f p bytesRead
            | (Stream.Blocked, s) => (Stream.Blocked, s, p)
            | (Stream.Panicked, s) => (Stream.Panicked, s, p)
            | (Stream.OutOfFuel, s) => (Stream.OutOfFuel, s, p)
            end
        end
    end
  else (Stream.Returned (bytesRead, None), s, p).

(** [Read]; a round of the loop either returns or ends a frame or fills
    [p], so the loop makes two rounds more than there are frames waiting
    at most.  The result holds [p] as the call leaves it. *)
Definition Read (s : stream) (p : list Z)
  : Stream.outcome (Z * option error) * stream * list Z :=
  match currentErr s with
  | Some e => (Stream.Returned (0, Some e), s, p)
  | None =>
      Read_loop (length (frameQueue s) + length (streamFrames s) + 2) s p 0
  end.

(** [AddStreamFrame]: the send waits while the channel holds 8 frames. *)
Definition AddStreamFrame (s : stream) (frame : Stream.StreamFrame)
  : Stream.outcome (option error) * stream :=
  if (length (streamFrames s) <? 8)%nat
  then (Stream.Returned None,
        setStreamFrames s (streamFrames s ++ [Some frame]))
  else (Stream.Blocked, s).

(** [RegisterError] *)
Definition RegisterError (s : stream) (e : option error)
  : Stream.outcome unit * stream :=
  let s :=
    mkStream (streamID s) (streamFrames s) (currentFrame s)
      (readPosInFrame s) (writeOffset s) (readOffset s) (frameQueue s)
      e (currentErr s) in
  if (length (streamFrames s) <? 8)%nat
  then (Stream.Returned tt, setStreamFrames s (streamFrames s ++ [None]))
  else (Stream.Blocked, s).

(** [finishedReading] *)
Definition finishedReading (s : stream) : bool :=
  bool_decide (currentErr s <> None).

Section WithSession.
Context {S : Type} `{!streamHandler S}.

(** [Write] *)
Definition Write (s : stream) (ss : S) (p : list Z)
  : stream * S * (Z * option error) :=
  let '(ss, e) :=
    QueueFrame ss
      (Stream.mkStreamFrame (streamID s) (writeOffset s) false p) in
  match e with
  | Some e => (s, ss, (0, Some e))
  | None =>
      (mkStream (streamID s) (streamFrames s) (currentFrame s)
         (readPosInFrame s) (wrap64 (writeOffset s + Z.of_nat (length p)))
         (readOffset s) (frameQueue s) (remoteErr s) (currentErr s),
       ss, (Z.of_nat (length p), None))
  end.

(** [Close] *)
Definition Close (s : stream) (ss : S) : S * option error :=
  QueueFrame ss (Stream.mkStreamFrame (streamID s) (writeOffset s) true []).

End WithSession.

End EarlyStream.

(** ** package ackhandler (ackhandler/received_packet_handler.go,
    ackhandler/outgoing_packet_ack_handler.go) *)

Module AckHandler.

Definition ErrDuplicatePacket : error :=
  errorsNew "ReceivedPacketHandler: Duplicate Packet".
Definition errInvalidPacketNumber : error :=
  errorsNew "ReceivedPacketHandler: Invalid packet number".

(** [EntropyAccumulator] is a byte; its method [Add] lives in a file that
    is not part of the sources and is taken as a parameter. *)
Class EntropyAccumulatorOps : Type := {
  EntropyAdd : Z -> Z -> bool -> Z
}.

Record packetHistoryEntry : Type := mkPacketHistoryEntry {
  EntropyBit : bool;
  TimeReceived : Z
}.

(** [frames.NackRange], [frames.StopWaitingFrame] and [frames.AckFrame] with
    the fields this package uses. *)
Record NackRange : Type := mkNackRange {
  FirstPacketNumber : Z;
  LastPacketNumber : Z
}.

Record StopWaitingFrame : Type := mkStopWaitingFrame {
  LeastUnacked : Z;
  swEntropy : Z
}.

Record AckFrame : Type := mkAckFrame {
  LargestObserved : Z;
  Entropy : Z;
  NackRanges : list NackRange;
  PacketReceivedTime : Z
}.

Record receivedPacketHandler : Type := mkReceivedPacketHandler {
  highestInOrderObserved : Z;
  highestInOrderObservedEntropy : Z;
  largestObserved : Z;
  packetHistory : gmap Z packetHistoryEntry;
  currentAckFrame : option AckFrame;
  stateChanged : bool
}.

(** [NewReceivedPacketHandler] *)
Definition NewReceivedPacketHandler : receivedPacketHandler :=
  mkReceivedPacketHandler 0 0 0 ∅ None false.

(** [ranges[len(ranges)-1].FirstPacketNumber--]; the index is in range
    whenever [inRange] is set, as a range was appended before. *)
Definition decrementLastFirst (ranges : list NackRange) : list NackRange :=
  alter (fun r => mkNackRange (wrap64 (FirstPacketNumber r - 1))
                    (LastPacketNumber r))
    (length ranges - 1)%nat ranges.

Section WithEntropy.
Context `{!EntropyAccumulatorOps}.

(** [ReceivedPacket]; [now] is the value of [time.Now()]. *)
Definition ReceivedPacket (h : receivedPacketHandler) (packetNumber : Z)
    (entropyBit : bool) (now : Z) : receivedPacketHandler * option error :=
  if bool_decide (packetNumber = 0) then (h, Some errInvalidPacketNumber)
  else
    let ok := bool_decide (is_Some (packetHistory h !! packetNumber)) in
    if (packetNumber <=? highestInOrderObserved h) || ok
    then (h, Some ErrDuplicatePacket)
    else
      let largest :=
        if largestObserved h <? packetNumber then packetNumber
        else largestObserved h in
      let '(hio, hioEntropy) :=
        if bool_decide (packetNumber = wrap64 (highestInOrderObserved h + 1))
        then (packetNumber,
              EntropyAdd (highestInOrderObservedEntropy h) packetNumber entropyBit)
        else (highestInOrderObserved h, highestInOrderObservedEntropy h) in
      (mkReceivedPacketHandler hio hioEntropy largest
         (<[packetNumber := mkPacketHistoryEntry entropyBit now]> (packetHistory h))
         None true, None).

(** [ReceivedStopWaiting] *)
Definition ReceivedStopWaiting (h : receivedPacketHandler)
    (f : StopWaitingFrame) : receivedPacketHandler * option error :=
  if LeastUnacked f <=? highestInOrderObserved h then (h, None)
  else
    (mkReceivedPacketHandler (wrap64 (LeastUnacked f - 1)) (swEntropy f)
       (largestObserved h) (packetHistory h) (currentAckFrame h)
       (stateChanged h), None).

(** The loop of [getNackRanges],
    [for i := h.largestObserved; i > h.highestInOrderObserved; i--]. *)
Fixpoint getNackRanges_loop (h : receivedPacketHandler) (fuel : nat)
    (i : Z) (ranges : list NackRange) (inRange : bool) (entropy : Z)
  : list NackRange * Z :=
  if highestInOrderObserved h <? i then
    match fuel with
    | O => (ranges, entropy)
    | S fuel' =>
        match packetHistory h !! i with
        | None =>
            if negb inRange
            then getNackRanges_loop h fuel' (wrap64 (i - 1))
                   (ranges ++ [mkNackRange i i]) true entropy
            else getNackRanges_loop h fuel' (wrap64 (i - 1))
                   (decrementLastFirst ranges) inRange entropy
        | Some p =>
            getNackRanges_loop h fuel' (wrap64 (i - 1)) ranges false
              (EntropyAdd entropy i (EntropyBit p))
        end
    end
  else (ranges, entropy).

(** [getNackRanges]; the loop runs [largestObserved -
    highestInOrderObserved] times at most. *)
Definition getNackRanges (h : receivedPacketHandler) : list NackRange * Z :=
  getNackRanges_loop h
    (Z.to_nat (largestObserved h - highestInOrderObserved h))
    (largestObserved h) [] false (highestInOrderObservedEntropy h).

(** [GetAckFrame] *)
Definition GetAckFrame (h : receivedPacketHandler) (dequeue : bool)
  : receivedPacketHandler * result (option AckFrame) :=
  if negb (stateChanged h) then (h, Ok None)
  else
    let h :=
      if dequeue
      then mkReceivedPacketHandler (highestInOrderObserved h)
             (highestInOrderObservedEntropy h) (largestObserved h)
             (packetHistory h) (currentAckFrame h) false
      else h in
    match currentAckFrame h with
    | Some f => (h, Ok (Some f))
    | None =>
        match packetHistory h !! largestObserved h with
        | None => (h, Err ErrMapAccess)
        | Some p =>
            let packetReceivedTime := TimeReceived p in
            let '(nackRanges, entropy) := getNackRanges h in
            let f := mkAckFrame (largestObserved h) (wrap8 entropy)
                       nackRanges packetReceivedTime in
            (mkReceivedPacketHandler (highestInOrderObserved h)
               (highestInOrderObservedEntropy h) (largestObserved h)
               (packetHistory h) (Some f) (stateChanged h),
             Ok (Some f))
        end
    end.

(** The calls a session makes on the handler, and the states they reach
    from a new handler. *)
Inductive call : Type :=
| CallReceivedPacket (packetNumber : Z) (entropyBit : bool) (now : Z)
| CallReceivedStopWaiting (f : StopWaitingFrame)
| CallGetAckFrame (dequeue : bool).

Definition call_wf (c : call) : Prop :=
  match c with
  | CallReceivedPacket n _ _ => is_uint64 n
  | CallReceivedStopWaiting f => is_uint64 (LeastUnacked f)
  | CallGetAckFrame _ => True
  end.

Definition step (h : receivedPacketHandler) (c : call)
  : receivedPacketHandler :=
  match c with
  | CallReceivedPacket n e now => (ReceivedPacket h n e now).1
  | CallReceivedStopWaiting f => (ReceivedStopWaiting h f).1
  | CallGetAckFrame dequeue => (GetAckFrame h dequeue).1
  end.

Definition run (cs : list call) : receivedPacketHandler :=
  foldl step NewReceivedPacketHandler cs.

Definition reachable (h : receivedPacketHandler) : Prop :=
  exists cs, Forall call_wf cs /\ h = run cs.

End WithEntropy.

(** [Packet] of package ackhandler, the fields [SentPacket] uses. *)
Record Packet : Type := mkPacket {
  PacketNumber : Z;
  pEntropyBit : bool;
  pEntropy : Z
}.

Record outgoingPacketAckHandler : Type := mkOutgoingPacketAckHandler {
  lastSentPacketNumber : Z;
  highestInOrderAckedPacketNumber : Z;
  highestInOrderAckedEntropy : Z;
  sentPacketHistory : gmap Z Packet
}.

(** [NewOutgoingPacketAckHandler] *)
Definition NewOutgoingPacketAckHandler : outgoingPacketAckHandler :=
  mkOutgoingPacketAckHandler 0 0 0 ∅.

Section WithEntropy.
Context `{!EntropyAccumulatorOps}.

(** [SentPacket]; reading [.Entropy] of a packet that is not in the
    history dereferences a nil pointer. *)
Definition SentPacket (h : outgoingPacketAckHandler) (packet : Packet)
  : outgoingPacketAckHandler * result unit :=
  if bool_decide (is_Some (sentPacketHistory h !! PacketNumber packet))
  then (h, Err (errorsNew "Packet number already exists in Packet History"))
  else if negb (bool_decide (wrap64 (lastSentPacketNumber h + 1)
                             = PacketNumber packet))
  then (h, Err (errorsNew "Packet number must be increased by exactly 1"))
  else
    let lastPacketEntropy : result Z :=
      if bool_decide (PacketNumber packet = 0) then Ok 0
      else if bool_decide (highestInOrderAckedPacketNumber h
                           = wrap64 (PacketNumber packet - 1))
      then Ok (highestInOrderAckedEntropy h)
      else match sentPacketHistory h !! wrap64 (PacketNumber packet - 1) with
           | Some prev => Ok (pEntropy prev)
           | None => Panic "nil pointer dereference"
           end in
    match lastPacketEntropy with
    | Ok lastPacketEntropy =>
        let lastPacketEntropy :=
          EntropyAdd lastPacketEntropy (PacketNumber packet)
            (pEntropyBit packet) in
        let packet :=
          mkPacket (PacketNumber packet) (pEntropyBit packet)
            lastPacketEntropy in
        (mkOutgoingPacketAckHandler (PacketNumber packet)
           (highestInOrderAckedPacketNumber h)
           (highestInOrderAckedEntropy h)
           (<[PacketNumber packet := packet]> (sentPacketHistory h)),
         Ok tt)
    | Err e => (h, Err e)
    | Panic m => (h, Panic m)
    end.

(** A sequence of [SentPacket] calls that all return [nil]. *)
Fixpoint SentPackets (h : outgoingPacketAckHandler) (ps : list Packet)
  : option outgoingPacketAckHandler :=
  match ps with
  | [] => Some h
  | p :: ps' =>
      match SentPacket h p with
      | (h', Ok _) => SentPackets h' ps'
      | _ => None
      end
  end.

End WithEntropy.

End AckHandler.

(** ** package handshake: the connection parameters and the crypto setup
    (handshake/connection_parameters_manager.go, handshake/crypto_setup.go) *)

Module Handshake.
Import Utils.

(** [time.Second] in nanoseconds, and the conversion to [int64] that
    [time.Duration(x)] and the product are computed in. *)
Definition Second : Z := 1000000000.
Definition toInt64 (x : Z) : Z := (x + 2^63) mod 2^64 - 2^63.

(** The tags of the handshake messages and the protocol constants are
    declared in files that are not part of the sources; they are taken as
    parameters. *)
Class protocolConstants : Type := {
  TagMSPC : Z;
  TagTCID : Z;
  TagICSL : Z;
  TagSFCW : Z;
  TagCFCW : Z;
  MaxIdleConnectionStateLifetime : Z;
  InitialIdleConnectionStateLifetime : Z;
  InitialStreamFlowControlWindow : Z;
  InitialConnectionFlowControlWindow : Z;
  ReceiveStreamFlowControlWindow : Z;
  ReceiveConnectionFlowControlWindow : Z
}.

Record ConnectionParametersManager : Type := mkConnectionParametersManager {
  params : gmap Z (list Z);
  idleConnectionStateLifetime : Z;
  sendStreamFlowControlWindow : Z;
  sendConnectionFlowControlWindow : Z;
  receiveStreamFlowControlWindow : Z;
  receiveConnectionFlowControlWindow : Z
}.

Section WithConstants.
Context `{!protocolConstants}.

(** [NewConnectionParamatersManager] *)
Definition NewConnectionParamatersManager : ConnectionParametersManager :=
  mkConnectionParametersManager {[ TagMSPC := [100; 0; 0; 0] ]}
    InitialIdleConnectionStateLifetime
    InitialStreamFlowControlWindow
    InitialConnectionFlowControlWindow
    ReceiveStreamFlowControlWindow
    ReceiveConnectionFlowControlWindow.

(** [negotiateIdleConnectionStateLifetime] *)
Definition negotiateIdleConnectionStateLifetime (clientValue : Z) : Z :=
  MinDuration clientValue MaxIdleConnectionStateLifetime.

(** One round of the loop of [SetFromMap]: the [switch key]. *)
Definition SetFromMap_case (h : ConnectionParametersManager)
    (key : Z) (value : list Z) : result ConnectionParametersManager :=
  if bool_decide (key = TagMSPC) || bool_decide (key = TagTCID) then
    Ok (mkConnectionParametersManager (<[key := value]> (params h))
          (idleConnectionStateLifetime h) (sendStreamFlowControlWindow h)
          (sendConnectionFlowControlWindow h)
          (receiveStreamFlowControlWindow h)
          (receiveConnectionFlowControlWindow h))
  else if bool_decide (key = TagICSL) then
    '(clientValue, _) ← ReadUint32 value;
    Ok (mkConnectionParametersManager (params h)
          (negotiateIdleConnectionStateLifetime
             (toInt64 (toInt64 clientValue * Second)))
          (sendStreamFlowControlWindow h)
          (sendConnectionFlowControlWindow h)
          (receiveStreamFlowControlWindow h)
          (receiveConnectionFlowControlWindow h))
  else if bool_decide (key = TagSFCW) then
    '(sendStreamFlowControlWindow, _) ← ReadUint32 value;
    Ok (mkConnectionParametersManager (params h)
          (idleConnectionStateLifetime h) sendStreamFlowControlWindow
          (sendConnectionFlowControlWindow h)
          (receiveStreamFlowControlWindow h)
          (receiveConnectionFlowControlWindow h))
  else if bool_decide (key = TagCFCW) then
    '(sendConnectionFlowControlWindow, _) ← ReadUint32 value;
    Ok (mkConnectionParametersManager (params h)
          (idleConnectionStateLifetime h) (sendStreamFlowControlWindow h)
          sendConnectionFlowControlWindow
          (receiveStreamFlowControlWindow h)
          (receiveConnectionFlowControlWindow h))
  else Ok h.

(** [SetFromMap]: [for key, value := range params]; the list gives the
    entries of the Go map in the order the iteration visits them, which
    Go leaves unspecified.  On an error the entries visited before stay
    applied. *)
Fixpoint SetFromMap (h : ConnectionParametersManager)
    (entries : list (Z * list Z))
  : ConnectionParametersManager * result unit :=
  match entries with
  | [] => (h, Ok tt)
  | (key, value) :: rest =>
      match SetFromMap_case h key value with
      | Ok h' => SetFromMap h' rest
      | Err e => (h, Err e)
      | Panic m => (h, Panic m)
      end
  end.

(** [GetIdleConnectionStateLifetime] *)
Definition GetIdleConnectionStateLifetime (h : ConnectionParametersManager)
  : Z := idleConnectionStateLifetime h.

End WithConstants.

(** [crypto.AEAD]: an interface with the methods [Open] and [Seal]. *)
Record AEAD : Type := mkAEAD {
  aeadOpen : Z -> list Z -> list Z -> result (list Z);
  aeadSeal : Z -> list Z -> list Z -> list Z
}.

(** [CryptoSetup], the fields [Open] and [Seal] read and write. *)
Record CryptoSetup : Type := mkCryptoSetup {
  secureAEAD : option AEAD;
  forwardSecureAEAD : option AEAD;
  receivedForwardSecurePacket : bool;
  receivedSecurePacket : bool
}.

Section WithNullAEAD.
(** [crypto.NullAEAD] is declared in a file that is not part of the
    sources. *)
Variable NullAEAD : AEAD.

(** [CryptoSetup.Open] *)
Definition Open (h : CryptoSetup) (packetNumber : Z)
    (associatedData ciphertext : list Z) : CryptoSetup * result (list Z) :=
  let trySecure (h : CryptoSetup) :=
    let tryNull (h : CryptoSetup) :=
      (h, aeadOpen NullAEAD packetNumber associatedData ciphertext) in
    match secureAEAD h with
    | Some a =>
        match aeadOpen a packetNumber associatedData ciphertext with
        | Ok res =>
            (mkCryptoSetup (secureAEAD h) (forwardSecureAEAD h)
               (receivedForwardSecurePacket h) true, Ok res)
        | e => if receivedSecurePacket h then (h, e) else tryNull h
        end
    | None => tryNull h
    end in
  match forwardSecureAEAD h with
  | Some a =>
      match aeadOpen a packetNumber associatedData ciphertext with
      | Ok res =>
          (mkCryptoSetup (secureAEAD h) (forwardSecureAEAD h) true
             (receivedSecurePacket h), Ok res)
      | e => if receivedForwardSecurePacket h then (h, e) else trySecure h
      end
  | None => trySecure h
  end.

(** [CryptoSetup.Seal]; calling [Seal] on a nil [forwardSecureAEAD]
    panics. *)
Definition Seal (h : CryptoSetup) (packetNumber : Z)
    (associatedData plaintext : list Z) : result (list Z) :=
  if receivedForwardSecurePacket h then
    match forwardSecureAEAD h with
    | Some a => Ok (aeadSeal a packetNumber associatedData plaintext)
    | None => Panic "nil pointer dereference"
    end
  else
    match secureAEAD h with
    | Some a => Ok (aeadSeal a packetNumber associatedData plaintext)
    | None => Ok (aeadSeal NullAEAD packetNumber associatedData plaintext)
    end.

(** The later calls on the crypto setup and what they return. *)
Inductive call : Type :=
| CallOpen (packetNumber : Z) (associatedData ciphertext : list Z)
| CallSeal (packetNumber : Z) (associatedData plaintext : list Z).

Fixpoint runCalls (h : CryptoSetup) (cs : list call)
  : list (result (list Z)) :=
  match cs with
  | [] => []
  | CallOpen pn ad ct :: cs' =>
      let '(h', r) := Open h pn ad ct in r :: runCalls h' cs'
  | CallSeal pn ad pt :: cs' => Seal h pn ad pt :: runCalls h cs'
  end.

(** What the calls return when the forward-secure AEAD [a] alone
    answers them. *)
Definition forwardSecureReply (a : AEAD) (c : call) : result (list Z) :=
  match c with
  | CallOpen pn ad ct => aeadOpen a pn ad ct
  | CallSeal pn ad pt => Ok (aeadSeal a pn ad pt)
  end.

End WithNullAEAD.

(** *** Handshake messages (handshake/handshake_message.go) *)

(** A slice expression [s[lo:hi]] on a slice whose capacity is its length:
    out of range it panics. *)
Definition sliceOf (s : list Z) (lo hi : Z) : option (list Z) :=
  if (0 <=? lo) && (lo <=? hi) && (hi <=? Z.of_nat (length s))
  then Some (take (Z.to_nat (hi - lo)) (drop (Z.to_nat lo) s))
  else None.

(** [binary.LittleEndian.Uint32] on a slice; fewer than 4 bytes panic. *)
Definition leUint32 (b : list Z) : option Z :=
  match b with
  | b0 :: b1 :: b2 :: b3 :: _ =>
      Some (Z.lor (Z.lor (Z.lor b0 (wrap32 (Z.shiftl b1 8)))
                     (wrap32 (Z.shiftl b2 16)))
              (wrap32 (Z.shiftl b3 24)))
  | _ => None
  end.

(** The loop of [ParseHandshakeMessage],
    [for indexPos := 0; indexPos < int(nPairs)*8; indexPos += 8]. *)
Fixpoint parsePairs (fuel : nat) (nPairs : Z) (index : list Z)
    (indexPos dataStart : Z) (resultMap : gmap Z (list Z)) (r : list Z)
  : result (gmap Z (list Z) * list Z) :=
  if indexPos <? nPairs * 8 then
    match fuel with
    | O => Ok (resultMap, r)
    | S fuel' =>
        match sliceOf index indexPos (indexPos + 4) ≫= leUint32,
              sliceOf index (indexPos + 4) (indexPos + 8) ≫= leUint32 with
        | Some tag, Some dataEnd =>
            if dataEnd - dataStart <? 0
            then Panic "makeslice: len out of range"
            else
              '(data, r) ← Utils.ReadFull r (Z.to_nat (dataEnd - dataStart));
              parsePairs fuel' nPairs index (indexPos + 8) dataEnd
                (<[tag := data]> resultMap) r
        | _, _ => Panic "slice bounds out of range"
        end
    end
  else Ok (resultMap, r).

(** [ParseHandshakeMessage]; the index holds [nPairs*8] bytes, a product of
    [uint32]s, while the loop runs up to [int(nPairs)*8]. *)
Definition ParseHandshakeMessage (r : list Z)
  : result (Z * gmap Z (list Z) * list Z) :=
  '(messageTag, r) ← Utils.ReadUint32 r;
  '(nPairs, r) ← Utils.ReadUint32 r;
  '(index, r) ← Utils.ReadFull r (Z.to_nat (wrap32 (nPairs * 8)));
  '(resultMap, r) ← parsePairs (Z.to_nat nPairs) nPairs index 0 0 ∅ r;
  Ok (messageTag, resultMap, r).

(** [binary.LittleEndian.PutUint32(b[pos:], v)] *)
Definition putUint32 (b : list Z) (pos : nat) (v : Z) : list Z :=
  let b := <[pos := wrap8 v]> b in
  let b := <[(pos + 1)%nat := wrap8 (Z.shiftr v 8)]> b in
  let b := <[(pos + 2)%nat := wrap8 (Z.shiftr v 16)]> b in
  <[(pos + 3)%nat := wrap8 (Z.shiftr v 24)]> b.

(** The loop [for i, t := range tags] of [WriteHandshakeMessage]: the value
    goes to the buffer, the tag and the end offset to the index. *)
Fixpoint writePairs (data : gmap Z (list Z)) (tags : list Z) (i : nat)
    (offset : Z) (b indexData : list Z) : list Z * list Z :=
  match tags with
  | [] => (b, indexData)
  | t :: tags' =>
      let v := default [] (data !! t) in
      let b := b ++ v in
      let offset := wrap32 (offset + wrap32 (Z.of_nat (length v))) in
      let indexData := putUint32 indexData (i * 8) t in
      let indexData := putUint32 indexData (i * 8 + 4) offset in
      writePairs data tags' (S i) offset b indexData
  end.

(** [WriteHandshakeMessage]; [sort.Sort(utils.Uint32Slice(tags))] puts the
    tags of the map, which Go hands out in any order, in increasing order;
    the index is written as zeros first and copied over them at the end. *)
Definition WriteHandshakeMessage (b : list Z) (messageTag : Z)
    (data : gmap Z (list Z)) : list Z :=
  let b := Utils.WriteUint32 b (wrap32 messageTag) in
  let b := Utils.WriteUint16 b (wrap16 (Z.of_nat (size data))) in
  let b := Utils.WriteUint16 b 0 in
  let indexStart := length b in
  let indexData := replicate (8 * size data) 0 in
  let b := b ++ indexData in
  let tags := merge_sort Z.le (wrap32 <$> (map_to_list data).*1) in
  let '(b, indexData) := writePairs data tags 0 0 b indexData in
  take indexStart b ++ take (length b - indexStart) indexData
    ++ drop (indexStart + length indexData) b.

(** [tagToString] *)
Definition tagToString (tag : Z) : list Z :=
  putUint32 (replicate 4 0) 0 (wrap32 tag).

(** *** The connection parameters, continued
    (handshake/connection_parameters_manager.go) *)

(** [ErrTagNotInConnectionParameterMap] *)
Definition ErrTagNotInConnectionParameterMap : error :=
  errorsNew "Tag not found in ConnectionsParameter map".

(** [binary.Read(buf, binary.LittleEndian, &value)] for a [uint32]: the
    four bytes are read with [io.ReadFull]. *)
Definition binaryReadUint32 (r : list Z) : result (Z * list Z) :=
  '(bs, r) ← ReadFull r 4;
  match leUint32 bs with
  | Some v => Ok (v, r)
  | None => Panic "index out of range"
  end.

Section WithConstants.
Context `{!protocolConstants}.

(** [getRawValue] *)
Definition getRawValue (h : ConnectionParametersManager) (tag : Z)
  : result (list Z) :=
  match params h !! tag with
  | Some rawValue => Ok rawValue
  | None => Err ErrTagNotInConnectionParameterMap
  end.

(** [GetSendStreamFlowControlWindow] and the other getters *)
Definition GetSendStreamFlowControlWindow (h : ConnectionParametersManager)
  : Z := sendStreamFlowControlWindow h.

Definition GetSendConnectionFlowControlWindow
    (h : ConnectionParametersManager) : Z :=
  sendConnectionFlowControlWindow h.

Definition GetReceiveStreamFlowControlWindow
    (h : ConnectionParametersManager) : Z :=
  receiveStreamFlowControlWindow h.

Definition GetReceiveConnectionFlowControlWindow
    (h : ConnectionParametersManager) : Z :=
  receiveConnectionFlowControlWindow h.

(** [GetSHLOMap]; the division of durations is Go's integer division, which
    truncates towards zero, and the conversions to [uint32] cut to 32
    bits.  The keys of a map literal are distinct constants. *)
Definition GetSHLOMap (h : ConnectionParametersManager) : gmap Z (list Z) :=
  let sfcw := WriteUint32 [] (wrap32 (GetReceiveStreamFlowControlWindow h)) in
  let cfcw :=
    WriteUint32 [] (wrap32 (GetReceiveConnectionFlowControlWindow h)) in
  let icsl :=
    WriteUint32 [] (wrap32 (Z.quot (GetIdleConnectionStateLifetime h) Second))
  in
  <[TagICSL := icsl]>
    (<[TagMSPC := [100; 0; 0; 0]]>
       (<[TagCFCW := cfcw]> {[ TagSFCW := sfcw ]})).

(** [TruncateConnectionID] *)
Definition TruncateConnectionID (h : ConnectionParametersManager)
  : result bool :=
  match getRawValue h TagTCID with
  | Ok rawValue =>
      match binaryReadUint32 rawValue with
      | Ok (value, _) => Ok (bool_decide (value = 0))
      | Err _ => Ok false
      | Panic m => Panic m
      end
  | Err _ => Ok false
  | Panic m => Panic m
  end.

End WithConstants.

End Handshake.

(** ** package quic: the packet packer (packet_packer.go) *)

Module Packer.

(** [protocol.EncryptionLevel] and [protocol.Perspective] *)
Inductive EncryptionLevel : Type :=
| EncryptionUnspecified
| EncryptionUnencrypted
| EncryptionSecure
| EncryptionForwardSecure.

Definition levelRank (l : EncryptionLevel) : Z :=
  match l with
  | EncryptionUnspecified => 0
  | EncryptionUnencrypted => 1
  | EncryptionSecure => 2
  | EncryptionForwardSecure => 3
  end.

Inductive Perspective : Type := PerspectiveServer | PerspectiveClient.

#[global] Instance EncryptionLevel_eq_dec : EqDecision EncryptionLevel.
Proof. solve_decision. Defined.

(** [frames.StopWaitingFrame] and [frames.StreamFrame], the fields the
    packer writes, and [frames.Frame], the interface over the frame types:
    a STOP_WAITING frame, a STREAM frame, a BLOCKED frame or one of the
    other control frames, of which only the identity matters here. *)
Record StopWaitingFrame : Type := mkStopWaitingFrame {
  LeastUnacked : Z;
  swPacketNumber : Z;
  swPacketNumberLen : Z
}.

Record StreamFrame : Type := mkStreamFrame {
  StreamID : Z;
  Offset : Z;
  FinBit : bool;
  DataLenPresent : bool;
  Data : list Z
}.

Inductive Frame : Type :=
| FStopWaiting (f : StopWaitingFrame)
| FStream (f : StreamFrame)
| FBlocked (streamID : Z)
| FControl (id : Z).

Definition isStopWaiting (f : Frame) : bool :=
  match f with FStopWaiting _ => true | _ => false end.

(** [ackhandler.Packet], the fields the packer reads. *)
Record RetransmitPacket : Type := mkRetransmitPacket {
  rpEncryptionLevel : EncryptionLevel;
  rpFrames : list Frame
}.

Record PublicHeader : Type := mkPublicHeader {
  phPacketNumber : Z;
  phPacketNumberLen : Z
}.

Record packedPacket : Type := mkPackedPacket {
  number : Z;
  raw : list Z;
  frames : list Frame;
  encryptionLevel : EncryptionLevel
}.

(** What the packer calls and whose source is not part of the sources: the
    stream framer (a state [SF] with its methods; [PopBlockedFrames] stands
    for calling [PopBlockedFrame] until it returns nil), the crypto setup,
    the public header, [Frame.MinLength], the part of [writeAndSealPacket]
    that writes and seals, and the constants of package protocol. *)
Class packerEnv (SF Sealer : Type) : Type := {
  HasCryptoStreamFrame : SF -> bool;
  PopCryptoStreamFrame : SF -> Z -> StreamFrame * SF;
  PopStreamFrames : SF -> Z -> list StreamFrame * SF;
  PopBlockedFrames : SF -> list Z * SF;
  GetSealerWithEncryptionLevel : EncryptionLevel -> result Sealer;
  GetSealerForCryptoStream : EncryptionLevel * Sealer;
  GetSealer : EncryptionLevel * Sealer;
  Peek : Z -> Z;
  Pop : Z -> Z * Z;
  GetPacketNumberLengthForPublicHeader : Z -> Z -> Z;
  GetLength : PublicHeader -> Perspective -> result Z;
  MinLength : Frame -> result Z;
  writeAndSeal : PublicHeader -> list Frame -> Sealer -> result (list Z);
  MaxFrameAndPublicHeaderSize : Z;
  NonForwardSecurePacketSizeReduction : Z
}.

Record packetPacker (SF : Type) : Type := mkPacketPacker {
  perspective : Perspective;
  packetNumberGenerator : Z;
  streamFramer : SF;
  controlFrames : list Frame;
  stopWaiting : option StopWaitingFrame
}.
Arguments mkPacketPacker {SF}.
Arguments perspective {SF}.
Arguments packetNumberGenerator {SF}.
Arguments streamFramer {SF}.
Arguments controlFrames {SF}.
Arguments stopWaiting {SF}.

Section WithEnv.
Context {SF Sealer : Type} `{!packerEnv SF Sealer}.

(** [QueueControlFrameForNextPacket] *)
Definition QueueControlFrameForNextPacket (p : packetPacker SF) (f : Frame)
  : packetPacker SF :=
  match f with
  | FStopWaiting swf =>
      mkPacketPacker (perspective p) (packetNumberGenerator p)
        (streamFramer p) (controlFrames p) (Some swf)
  | _ =>
      mkPacketPacker (perspective p) (packetNumberGenerator p)
        (streamFramer p) (controlFrames p ++ [f]) (stopWaiting p)
  end.

(** [getPublicHeader], the packet number and its length. *)
Definition getPublicHeader (p : packetPacker SF) (leastUnacked : Z)
  : PublicHeader :=
  let pnum := Peek (packetNumberGenerator p) in
  mkPublicHeader pnum (GetPacketNumberLengthForPublicHeader pnum leastUnacked).

(** [canSendData] *)
Definition canSendData (p : packetPacker SF) (encLevel : EncryptionLevel)
  : bool :=
  match perspective p with
  | PerspectiveClient => levelRank EncryptionSecure <=? levelRank encLevel
  | PerspectiveServer => bool_decide (encLevel = EncryptionForwardSecure)
  end.

(** The loop [for len(p.controlFrames) > 0] of [composeNextPacket]; it
    returns the control frames left, the payload and its length, or the
    error of [MinLength] with the control frames as they stand. *)
Fixpoint controlFramesLoop (fuel : nat) (maxFrameSize : Z)
    (controlFrames payloadFrames : list Frame) (payloadLength : Z)
  : list Frame * result (list Frame * Z) :=
  match fuel with
  | O => (controlFrames, Ok (payloadFrames, payloadLength))
  | S fuel' =>
      match last controlFrames with
      | None => (controlFrames, Ok (payloadFrames, payloadLength))
      | Some frame =>
          match MinLength frame with
          | Ok minLength =>
              if maxFrameSize <? wrap64 (payloadLength + minLength)
              then (controlFrames, Ok (payloadFrames, payloadLength))
              else controlFramesLoop fuel' maxFrameSize
                     (removelast controlFrames) (payloadFrames ++ [frame])
                     (wrap64 (payloadLength + minLength))
          | Err e => (controlFrames, Err e)
          | Panic m => (controlFrames, Panic m)
          end
      end
  end.

(** [fs[len(fs)-1].DataLenPresent = false] *)
Definition clearLastDataLen (fs : list StreamFrame) : list StreamFrame :=
  alter (fun f => mkStreamFrame (StreamID f) (Offset f) (FinBit f) false
                    (Data f))
    (length fs - 1)%nat fs.

(** [composeNextPacket] *)
Definition composeNextPacket (p : packetPacker SF) (maxFrameSize : Z)
    (canSendStreamFrames : bool)
  : packetPacker SF * result (list Frame) :=
  let cf :=
    match stopWaiting p with
    | Some swf => controlFrames p ++ [FStopWaiting swf]
    | None => controlFrames p
    end in
  let '(cf, r) := controlFramesLoop (length cf) maxFrameSize cf [] 0 in
  let p := mkPacketPacker (perspective p) (packetNumberGenerator p)
             (streamFramer p) cf (stopWaiting p) in
  match r with
  | Err e => (p, Err e)
  | Panic m => (p, Panic m)
  | Ok (payloadFrames, payloadLength) =>
      if maxFrameSize <? payloadLength
      then (p, Err (errorsNew "Packet Packer BUG: packet payload too large"))
      else if negb canSendStreamFrames then (p, Ok payloadFrames)
      else
        let maxFrameSize := wrap64 (maxFrameSize + 2) in
        let '(fs, sf) :=
          PopStreamFrames (streamFramer p)
            (wrap64 (maxFrameSize - payloadLength)) in
        let fs := clearLastDataLen fs in
        let payloadFrames := payloadFrames ++ (FStream <$> fs) in
        let '(bs, sf) := PopBlockedFrames sf in
        (mkPacketPacker (perspective p) (packetNumberGenerator p) sf
           (cf ++ (FBlocked <$> bs)) (stopWaiting p),
         Ok payloadFrames)
  end.

(** [writeAndSealPacket]: the header and the frames are written and
    sealed, then the packet number is popped and compared with the one
    peeked. *)
Definition writeAndSealPacket (p : packetPacker SF)
    (publicHeader : PublicHeader) (payloadFrames : list Frame)
    (sealer : Sealer) : packetPacker SF * result (list Z) :=
  match writeAndSeal publicHeader payloadFrames sealer with
  | Ok raw =>
      let '(num, png) := Pop (packetNumberGenerator p) in
      let p := mkPacketPacker (perspective p) png (streamFramer p)
                 (controlFrames p) (stopWaiting p) in
      if bool_decide (num = phPacketNumber publicHeader) then (p, Ok raw)
      else (p, Err (errorsNew
             "packetPacker BUG: Peeked and Popped packet numbers do not match"))
  | Err e => (p, Err e)
  | Panic m => (p, Panic m)
  end.

(** [PackConnectionClose]: a packet with the CONNECTION_CLOSE frame alone;
    the packet is returned with the error when writing fails, without the
    raw bytes then. *)
Definition PackConnectionClose (p : packetPacker SF) (ccf : Z)
    (leastUnacked : Z) : packetPacker SF * packedPacket * result (list Z) :=
  let frames := [FControl ccf] in
  let '(encLevel, sealer) := GetSealer in
  let ph := getPublicHeader p leastUnacked in
  let '(p, r) := writeAndSealPacket p ph frames sealer in
  (p,
   mkPackedPacket (phPacketNumber ph)
     (match r with Ok raw => raw | _ => [] end) frames encLevel,
   r).

(** The end of [packPacket], from the comment "Check if we have enough
    frames to send" on; [None] for the packet is the nil packet. *)
Definition sendPayload (p : packetPacker SF) (publicHeader : PublicHeader)
    (encLevel : EncryptionLevel) (sealer : Sealer)
    (payloadFrames : list Frame)
  : packetPacker SF * result (option packedPacket) :=
  if bool_decide (length payloadFrames = 0%nat) then (p, Ok None)
  else if bool_decide (length payloadFrames = 1%nat)
          && bool_decide (is_Some (stopWaiting p))
  then (p, Ok None)
  else
    let p := mkPacketPacker (perspective p) (packetNumberGenerator p)
               (streamFramer p) (controlFrames p) None in
    let '(p, r) := writeAndSealPacket p publicHeader payloadFrames sealer in
    match r with
    | Err e => (p, Err e)
    | Panic m => (p, Panic m)
    | Ok raw =>
        (p, Ok (Some (mkPackedPacket (phPacketNumber publicHeader) raw
                        payloadFrames encLevel)))
    end.

(** [packPacket], up to that comment. *)
Definition packPacket (p : packetPacker SF) (leastUnacked : Z)
    (handshakePacketToRetransmit : option RetransmitPacket)
  : packetPacker SF * result (option packedPacket) :=
  let isCryptoStreamFrame := HasCryptoStreamFrame (streamFramer p) in
  let sealerChoice : result (EncryptionLevel * Sealer) :=
    match handshakePacketToRetransmit with
    | Some hp =>
        sealer ← GetSealerWithEncryptionLevel (rpEncryptionLevel hp);
        Ok (rpEncryptionLevel hp, sealer)
    | None =>
        if isCryptoStreamFrame then Ok GetSealerForCryptoStream
        else Ok GetSealer
    end in
  match sealerChoice with
  | Err e => (p, Err e)
  | Panic m => (p, Panic m)
  | Ok (encLevel, sealer) =>
    let publicHeader := getPublicHeader p leastUnacked in
    match GetLength publicHeader (perspective p) with
    | Err e => (p, Err e)
    | Panic m => (p, Panic m)
    | Ok publicHeaderLength =>
      let p :=
        mkPacketPacker (perspective p) (packetNumberGenerator p)
          (streamFramer p) (controlFrames p)
          ((fun swf => mkStopWaitingFrame (LeastUnacked swf)
                         (phPacketNumber publicHeader)
                         (phPacketNumberLen publicHeader))
             <$> stopWaiting p) in
      let composed : packetPacker SF * result (list Frame) :=
        match handshakePacketToRetransmit with
        | Some hp =>
            match stopWaiting p with
            | None =>
                (p, Err (errorsNew
                  "PacketPacker BUG: Handshake retransmissions must contain a StopWaitingFrame"))
            | Some swf => (p, Ok (FStopWaiting swf :: rpFrames hp))
            end
        | None =>
            if isCryptoStreamFrame then
              let maxLen :=
                wrap64 (MaxFrameAndPublicHeaderSize
                        - NonForwardSecurePacketSizeReduction
                        - publicHeaderLength) in
              let '(f, sf) := PopCryptoStreamFrame (streamFramer p) maxLen in
              (mkPacketPacker (perspective p) (packetNumberGenerator p) sf
                 (controlFrames p) (stopWaiting p), Ok [FStream f])
            else
              let maxSize :=
                wrap64 (MaxFrameAndPublicHeaderSize - publicHeaderLength) in
              composeNextPacket p maxSize (canSendData p encLevel)
        end in
      let '(p, r) := composed in
      match r with
      | Err e => (p, Err e)
      | Panic m => (p, Panic m)
      | Ok payloadFrames =>
          sendPayload p publicHeader encLevel sealer payloadFrames
      end
    end
  end.

(** [PackPacket] *)
Definition PackPacket (p : packetPacker SF) (leastUnacked : Z)
  : packetPacker SF * result (option packedPacket) :=
  packPacket p leastUnacked None.

(** [RetransmitNonForwardSecurePacket] *)
Definition RetransmitNonForwardSecurePacket (p : packetPacker SF)
    (packet : RetransmitPacket)
  : packetPacker SF * result (option packedPacket) :=
  if bool_decide (rpEncryptionLevel packet = EncryptionForwardSecure)
  then (p, Err (errorsNew
         "PacketPacker BUG: forward-secure encrypted handshake packets don't need special treatment"))
  else packPacket p 0 (Some packet).

End WithEnv.

End Packer.

(** ** package congestion: the cubic sender (congestion/cubic_sender.go) *)

Module Congestion.
Import Utils.

(** What the sender calls and whose source is not part of the sources: the
    hybrid slow start, the PRR sender, the cubic window and the RTT
    statistics, each a state with its methods, the constants of the
    packages, and the window [protocol.PacketNumber(float32(congestionWindow)
    * c.RenoBeta())], which is computed in floating point, as a function of
    the number of connections and the congestion window; [renoWindow] below
    is this computation, and [renoWindowAfterLoss_float32] says that the
    environment follows it. *)
Class senderEnv (HSS PRR Cubic RTT : Type) : Type := {
  DefaultTCPMSS : Z;
  defaultNumConnections : Z;
  NewCubic : Cubic;
  hssOnPacketSent : HSS -> Z -> HSS;
  hssOnPacketAcked : HSS -> Z -> HSS;
  hssShouldExitSlowStart : HSS -> Z -> Z -> Z -> bool * HSS;
  hssRestart : HSS -> HSS;
  prrOnPacketSent : PRR -> Z -> PRR;
  prrOnPacketAcked : PRR -> Z -> PRR;
  prrOnPacketLost : PRR -> Z -> PRR;
  prrTimeUntilSend : PRR -> Z -> Z -> Z -> Z;
  CongestionWindowAfterPacketLoss : Cubic -> Z -> Z * Cubic;
  CongestionWindowAfterAck : Cubic -> Z -> Z -> Z * Cubic;
  OnApplicationLimited : Cubic -> Cubic;
  cubicReset : Cubic -> Cubic;
  SetNumConnections : Cubic -> Z -> Cubic;
  LatestRTT : RTT -> Z;
  MinRTT : RTT -> Z;
  renoWindowAfterLoss : Z -> Z -> Z
}.

(** [connectionStats], the fields the sender counts in. *)
Record connectionStats : Type := mkConnectionStats {
  slowstartPacketsLost : Z;
  slowstartBytesLost : Z
}.

Record cubicSender (HSS PRR Cubic RTT : Type) : Type := mkCubicSender {
  hybridSlowStart : HSS;
  prr : PRR;
  rttStats : RTT;
  stats : connectionStats;
  cubic : Cubic;
  largestSentPacketNumber : Z;
  largestAckedPacketNumber : Z;
  largestSentAtLastCutback : Z;
  congestionWindow : Z;
  slowstartThreshold : Z;
  lastCutbackExitedSlowstart : bool;
  slowStartLargeReduction : bool;
  minCongestionWindow : Z;
  maxTCPCongestionWindow : Z;
  numConnections : Z;
  congestionWindowCount : Z;
  reno : bool
}.
Arguments mkCubicSender {HSS PRR Cubic RTT}.
Arguments hybridSlowStart {HSS PRR Cubic RTT}.
Arguments prr {HSS PRR Cubic RTT}.
Arguments rttStats {HSS PRR Cubic RTT}.
Arguments stats {HSS PRR Cubic RTT}.
Arguments cubic {HSS PRR Cubic RTT}.
Arguments largestSentPacketNumber {HSS PRR Cubic RTT}.
Arguments largestAckedPacketNumber {HSS PRR Cubic RTT}.
Arguments largestSentAtLastCutback {HSS PRR Cubic RTT}.
Arguments congestionWindow {HSS PRR Cubic RTT}.
Arguments slowstartThreshold {HSS PRR Cubic RTT}.
Arguments lastCutbackExitedSlowstart {HSS PRR Cubic RTT}.
Arguments slowStartLargeReduction {HSS PRR Cubic RTT}.
Arguments minCongestionWindow {HSS PRR Cubic RTT}.
Arguments maxTCPCongestionWindow {HSS PRR Cubic RTT}.
Arguments numConnections {HSS PRR Cubic RTT}.
Arguments congestionWindowCount {HSS PRR Cubic RTT}.
Arguments reno {HSS PRR Cubic RTT}.

Definition defaultMinimumCongestionWindow : Z := 2.

(** [math.MaxInt64] *)
Definition MaxInt64 : Z := 2 ^ 63 - 1.

Section WithEnv.
Context {HSS PRR Cubic RTT : Type} `{!senderEnv HSS PRR Cubic RTT}.
(** The sender over these parts. *)
Definition sender : Type := cubicSender HSS PRR Cubic RTT.

Definition maxBurstBytes : Z := 3 * DefaultTCPMSS.

Definition setWindow (c : sender) (cwnd ssthresh count : Z) : sender :=
  mkCubicSender (hybridSlowStart c) (prr c) (rttStats c) (stats c) (cubic c)
    (largestSentPacketNumber c) (largestAckedPacketNumber c)
    (largestSentAtLastCutback c) cwnd ssthresh
    (lastCutbackExitedSlowstart c) (slowStartLargeReduction c)
    (minCongestionWindow c) (maxTCPCongestionWindow c) (numConnections c)
    count (reno c).

Definition setParts (c : sender) (h : HSS) (p : PRR) (cu : Cubic) : sender :=
  mkCubicSender h p (rttStats c) (stats c) cu
    (largestSentPacketNumber c) (largestAckedPacketNumber c)
    (largestSentAtLastCutback c) (congestionWindow c) (slowstartThreshold c)
    (lastCutbackExitedSlowstart c) (slowStartLargeReduction c)
    (minCongestionWindow c) (maxTCPCongestionWindow c) (numConnections c)
    (congestionWindowCount c) (reno c).

(** [NewCubicSender]; the parts other than the cubic window start with
    their zero values, which are taken as arguments. *)
Definition NewCubicSender (h0 : HSS) (p0 : PRR) (rttStats : RTT)
    (reno : bool) (initialCongestionWindow maxCongestionWindow : Z)
  : sender :=
  mkCubicSender h0 p0 rttStats (mkConnectionStats 0 0) NewCubic 0 0 0
    initialCongestionWindow maxCongestionWindow false false
    defaultMinimumCongestionWindow maxCongestionWindow
    defaultNumConnections 0 reno.

(** [InRecovery] *)
Definition InRecovery (c : sender) : bool :=
  (largestAckedPacketNumber c <=? largestSentAtLastCutback c)
  && negb (bool_decide (largestAckedPacketNumber c = 0)).

(** [GetCongestionWindow] and [GetSlowStartThreshold], in bytes *)
Definition GetCongestionWindow (c : sender) : Z :=
  wrap64 (congestionWindow c * DefaultTCPMSS).

Definition GetSlowStartThreshold (c : sender) : Z :=
  wrap64 (slowstartThreshold c * DefaultTCPMSS).

(** [InSlowStart] *)
Definition InSlowStart (c : sender) : bool :=
  GetCongestionWindow c <? GetSlowStartThreshold c.

(** [ExitSlowstart] *)
Definition ExitSlowstart (c : sender) : sender :=
  setWindow c (congestionWindow c) (congestionWindow c)
    (congestionWindowCount c).

(** [SlowstartThreshold] *)
Definition SlowstartThreshold (c : sender) : Z := slowstartThreshold c.

(** [TimeUntilSend] *)
Definition TimeUntilSend (c : sender) (bytesInFlight : Z) : Z :=
  if InRecovery c
  then prrTimeUntilSend (prr c) (GetCongestionWindow c) bytesInFlight
         (GetSlowStartThreshold c)
  else if bytesInFlight <? GetCongestionWindow c then 0
  else MaxInt64.

(** [OnPacketSent] *)
Definition OnPacketSent (c : sender) (bytesInFlight packetNumber bytes : Z)
    (isRetransmittable : bool) : sender * bool :=
  if negb isRetransmittable then (c, false)
  else
    let p := if InRecovery c then prrOnPacketSent (prr c) bytes else prr c in
    (mkCubicSender (hssOnPacketSent (hybridSlowStart c) packetNumber) p
       (rttStats c) (stats c) (cubic c) packetNumber
       (largestAckedPacketNumber c) (largestSentAtLastCutback c)
       (congestionWindow c) (slowstartThreshold c)
       (lastCutbackExitedSlowstart c) (slowStartLargeReduction c)
       (minCongestionWindow c) (maxTCPCongestionWindow c)
       (numConnections c) (congestionWindowCount c) (reno c),
     true).

(** [isCwndLimited] *)
Definition isCwndLimited (c : sender) (bytesInFlight : Z) : bool :=
  let congestionWindow := GetCongestionWindow c in
  if congestionWindow <=? bytesInFlight then true
  else
    let availableBytes := wrap64 (congestionWindow - bytesInFlight) in
    let slowStartLimited :=
      InSlowStart c && (congestionWindow / 2 <? bytesInFlight) in
    slowStartLimited || (availableBytes <=? maxBurstBytes).

(** [maybeIncreaseCwnd] *)
Definition maybeIncreaseCwnd (c : sender)
    (ackedPacketNumber ackedBytes bytesInFlight : Z) : sender :=
  if negb (isCwndLimited c bytesInFlight)
  then setParts c (hybridSlowStart c) (prr c) (OnApplicationLimited (cubic c))
  else if maxTCPCongestionWindow c <=? congestionWindow c then c
  else if InSlowStart c
  then setWindow c (wrap64 (congestionWindow c + 1)) (slowstartThreshold c)
         (congestionWindowCount c)
  else if reno c then
    let count := wrap64 (congestionWindowCount c + 1) in
    if congestionWindow c <=? wrap64 (count * wrap64 (numConnections c))
    then setWindow c (wrap64 (congestionWindow c + 1)) (slowstartThreshold c)
           0
    else setWindow c (congestionWindow c) (slowstartThreshold c) count
  else
    let '(w, cu) :=
      CongestionWindowAfterAck (cubic c) (congestionWindow c)
        (MinRTT (rttStats c)) in
    setWindow (setParts c (hybridSlowStart c) (prr c) cu)
      (MinPacketNumber (maxTCPCongestionWindow c) w) (slowstartThreshold c)
      (congestionWindowCount c).

(** [onPacketAcked] *)
Definition onPacketAcked (c : sender)
    (ackedPacketNumber ackedBytes bytesInFlight : Z) : sender :=
  let c :=
    mkCubicSender (hybridSlowStart c) (prr c) (rttStats c) (stats c)
      (cubic c) (largestSentPacketNumber c)
      (MaxPacketNumber ackedPacketNumber (largestAckedPacketNumber c))
      (largestSentAtLastCutback c) (congestionWindow c)
      (slowstartThreshold c) (lastCutbackExitedSlowstart c)
      (slowStartLargeReduction c) (minCongestionWindow c)
      (maxTCPCongestionWindow c) (numConnections c)
      (congestionWindowCount c) (reno c) in
  if InRecovery c
  then setParts c (hybridSlowStart c) (prrOnPacketAcked (prr c) ackedBytes)
         (cubic c)
  else
    let c := maybeIncreaseCwnd c ackedPacketNumber ackedBytes bytesInFlight in
    if InSlowStart c
    then setParts c (hssOnPacketAcked (hybridSlowStart c) ackedPacketNumber)
           (prr c) (cubic c)
    else c.

(** [onPacketLost]; the divisions are divisions of [uint64]s by the
    segment size, a constant that is not 0. *)
Definition onPacketLost (c : sender)
    (packetNumber lostBytes bytesInFlight : Z) : sender :=
  if packetNumber <=? largestSentAtLastCutback c then
    if lastCutbackExitedSlowstart c then
      let st :=
        mkConnectionStats (wrap64 (slowstartPacketsLost (stats c) + 1))
          (wrap64 (slowstartBytesLost (stats c) + lostBytes)) in
      let '(cwnd, ssthresh) :=
        if slowStartLargeReduction c then
          let cwnd :=
            if bool_decide (slowstartPacketsLost st = 1)
               || (wrap64 (slowstartBytesLost st - lostBytes) / DefaultTCPMSS
                   <? slowstartBytesLost st / DefaultTCPMSS)
            then MaxPacketNumber (wrap64 (congestionWindow c - 1))
                   (minCongestionWindow c)
            else congestionWindow c in
          (cwnd, cwnd)
        else (congestionWindow c, slowstartThreshold c) in
      mkCubicSender (hybridSlowStart c) (prr c) (rttStats c) st (cubic c)
        (largestSentPacketNumber c) (largestAckedPacketNumber c)
        (largestSentAtLastCutback c) cwnd ssthresh
        (lastCutbackExitedSlowstart c) (slowStartLargeReduction c)
        (minCongestionWindow c) (maxTCPCongestionWindow c)
        (numConnections c) (congestionWindowCount c) (reno c)
    else c
  else
    let exited := InSlowStart c in
    let p := prrOnPacketLost (prr c) bytesInFlight in
    let '(cwnd, cu) :=
      if slowStartLargeReduction c && InSlowStart c
      then (wrap64 (congestionWindow c - 1), cubic c)
      else if reno c
      then (renoWindowAfterLoss (numConnections c) (congestionWindow c),
            cubic c)
      else CongestionWindowAfterPacketLoss (cubic c) (congestionWindow c) in
    let cwnd :=
      if cwnd <? minCongestionWindow c then minCongestionWindow c
      else cwnd in
    mkCubicSender (hybridSlowStart c) p (rttStats c) (stats c) cu
      (largestSentPacketNumber c) (largestAckedPacketNumber c)
      (largestSentPacketNumber c) cwnd cwnd exited
      (slowStartLargeReduction c) (minCongestionWindow c)
      (maxTCPCongestionWindow c) (numConnections c) 0 (reno c).

(** [OnCongestionEvent]; a packet of a [PacketVector] is its number and
    its length. *)
Definition OnCongestionEvent (c : sender) (rttUpdated : bool)
    (bytesInFlight : Z) (ackedPackets lostPackets : list (Z * Z)) : sender :=
  let c :=
    if rttUpdated && InSlowStart c then
      let '(exit, h) :=
        hssShouldExitSlowStart (hybridSlowStart c) (LatestRTT (rttStats c))
          (MinRTT (rttStats c)) (GetCongestionWindow c / DefaultTCPMSS) in
      let c := setParts c h (prr c) (cubic c) in
      if exit then ExitSlowstart c else c
    else c in
  let c :=
    foldl (fun c i => onPacketLost c i.1 i.2 bytesInFlight) c lostPackets in
  foldl (fun c i => onPacketAcked c i.1 i.2 bytesInFlight) c ackedPackets.

(** [SetNumEmulatedConnections] *)
Definition SetNumEmulatedConnections (c : sender) (n : Z) : sender :=
  let n := Max n 1 in
  mkCubicSender (hybridSlowStart c) (prr c) (rttStats c) (stats c)
    (SetNumConnections (cubic c) n)
    (largestSentPacketNumber c) (largestAckedPacketNumber c)
    (largestSentAtLastCutback c) (congestionWindow c) (slowstartThreshold c)
    (lastCutbackExitedSlowstart c) (slowStartLargeReduction c)
    (minCongestionWindow c) (maxTCPCongestionWindow c) n
    (congestionWindowCount c) (reno c).

(** [OnRetransmissionTimeout] *)
Definition OnRetransmissionTimeout (c : sender) (packetsRetransmitted : bool)
  : sender :=
  let c :=
    mkCubicSender (hybridSlowStart c) (prr c) (rttStats c) (stats c)
      (cubic c) (largestSentPacketNumber c) (largestAckedPacketNumber c)
      0 (congestionWindow c) (slowstartThreshold c)
      (lastCutbackExitedSlowstart c) (slowStartLargeReduction c)
      (minCongestionWindow c) (maxTCPCongestionWindow c) (numConnections c)
      (congestionWindowCount c) (reno c) in
  if negb packetsRetransmitted then c
  else
    setWindow
      (setParts c (hssRestart (hybridSlowStart c)) (prr c)
         (cubicReset (cubic c)))
      (minCongestionWindow c) (congestionWindow c / 2)
      (congestionWindowCount c).

End WithEnv.

(** *** The Reno window after a loss, in floating point *)

(** A [float32] is an IEEE 754 binary32 number: 24 bits of precision and
    exponents below 128; the operations round to nearest, ties to even. *)
Definition float32 : Type := SpecFloat.spec_float.

(** [float32(x)] of an integer [x]. *)
Definition float32OfZ (x : Z) : float32 :=
  SpecFloat.binary_normalize 24 128 x 0 false.

(** [renoBeta float32 = 0.7], the [float32] nearest to 0.7:
    11744051 * 2^-24. *)
Definition renoBeta : float32 := SpecFloat.S754_finite false 11744051 (-24).

(** [RenoBeta],
    [(float32(c.numConnections) - 1. + renoBeta) / float32(c.numConnections)]. *)
Definition RenoBeta (numConnections : Z) : float32 :=
  SpecFloat.SFdiv 24 128
    (SpecFloat.SFadd 24 128
       (SpecFloat.SFsub 24 128 (float32OfZ numConnections) (float32OfZ 1))
       renoBeta)
    (float32OfZ numConnections).

(** [protocol.PacketNumber(f)] of a [float32]: the fraction is discarded;
    Go leaves the result to the implementation when the value does not fit
    a [uint64] (or is not a number), which is [None] here. *)
Definition uint64OfFloat32 (f : float32) : option Z :=
  match f with
  | SpecFloat.S754_zero _ => Some 0
  | SpecFloat.S754_finite s m e =>
      let a := if 0 <=? e then Z.pos m * 2 ^ e else Z.pos m / 2 ^ (- e) in
      let z := if s then - a else a in
      if (0 <=? z) && (z <? 2 ^ 64) then Some z else None
  | _ => None
  end.

(** [protocol.PacketNumber(float32(c.congestionWindow) * c.RenoBeta())] of
    [onPacketLost]. *)
Definition renoWindow (numConnections congestionWindow : Z) : option Z :=
  uint64OfFloat32
    (SpecFloat.SFmul 24 128 (float32OfZ congestionWindow)
       (RenoBeta numConnections)).

(** The window [renoWindowAfterLoss] of the environment is this expression
    of the code, wherever Go defines its value. *)
Definition renoWindowAfterLoss_float32 {HSS PRR Cubic RTT : Type}
    `{!senderEnv HSS PRR Cubic RTT} : Prop :=
  forall n w z, renoWindow n w = Some z -> renoWindowAfterLoss n w = z.

End Congestion.

(** * Predicates of the properties, and inputs to run the code on *)

(** The bytes [WriteUint16] and [WriteUint32] append. *)
Definition le16 (x : Z) : list Z :=
  [wrap8 (Z.land x 255); wrap8 (Z.land (Z.shiftr x 8) 255)].

Definition le32 (x : Z) : list Z :=
  [wrap8 (Z.land x 255); wrap8 (Z.land (Z.shiftr x 8) 255);
   wrap8 (Z.land (Z.shiftr x 16) 255); wrap8 (Z.land (Z.shiftr x 24) 255)].

Section StreamPredicates.
Import Stream.

(** No frame is received beyond the receive window. *)
Definition flowControlRespected {Q} (s : stream Q) : Prop :=
  highestReceived (flowCtrl s) <= receiveFlowControlWindow (flowCtrl s).

End StreamPredicates.

(** An entropy accumulator to run the handlers on: the entropy bit of a
    packet flips bit [packetNumber mod 8] of the accumulator. *)
Definition xorEntropy : AckHandler.EntropyAccumulatorOps :=
  {| AckHandler.EntropyAdd e n b :=
       if b then Z.lxor e (Z.shiftl 1 (n mod 8)) else e |}.

Section AckHandlerPredicates.
Import AckHandler.

(** Every later range lies strictly below every earlier one: the ranges
    are in strictly descending order and pairwise disjoint. *)
Fixpoint descending (ranges : list NackRange) : Prop :=
  match ranges with
  | [] => True
  | r :: rest =>
      Forall (fun r' => LastPacketNumber r' < FirstPacketNumber r) rest
      /\ descending rest
  end.

(** A range is not empty and lies strictly above [lo] and at or below
    [hi]. *)
Definition rangeWithin (lo hi : Z) (r : NackRange) : Prop :=
  lo < FirstPacketNumber r /\
  FirstPacketNumber r <= LastPacketNumber r /\
  LastPacketNumber r <= hi.

Definition nackRangesOk (lo hi : Z) (ranges : list NackRange) : Prop :=
  descending ranges /\ Forall (rangeWithin lo hi) ranges.

(** The invariant of the loop of [getNackRanges] at packet number [i]: the
    ranges collected are descending, lie above [i] and above
    [highestInOrderObserved], and the last one starts right above [i] while
    [inRange] is set. *)
Definition loopInv (h : receivedPacketHandler) (i : Z)
    (ranges : list NackRange) (inRange : bool) : Prop :=
  descending ranges /\
  Forall (fun r => i < FirstPacketNumber r /\
                   rangeWithin (highestInOrderObserved h)
                     (largestObserved h) r) ranges /\
  (inRange = true ->
   exists l r, ranges = l ++ [r] /\ FirstPacketNumber r = i + 1).

(** What holds in every state the calls reach: the counters are 64-bit
    numbers, and the cached frame, if there is one, has NACK ranges that
    were right for a value of [highestInOrderObserved] that the current one
    has not fallen below. *)
Definition handlerInv (h : receivedPacketHandler) : Prop :=
  0 <= highestInOrderObserved h /\
  0 <= largestObserved h < 2 ^ 64 /\
  match currentAckFrame h with
  | None => True
  | Some f =>
      exists lo, lo <= highestInOrderObserved h /\
                 nackRangesOk lo (largestObserved h) (NackRanges f)
  end.

End AckHandlerPredicates.

Section AckCachePredicates.
Import AckHandler.
Context `{!EntropyAccumulatorOps}.

(** [GetAckFrame] builds the frame [f] in the state [h1]: no frame is
    cached there, and a call returns [f]. *)
Definition builtAt (h1 : receivedPacketHandler) (f : AckFrame) : Prop :=
  currentAckFrame h1 = None /\
  exists dequeue h1', GetAckFrame h1 dequeue = (h1', Ok (Some f)).

(** The calls lead from the state [h1] to the state [h]. *)
Definition reachedFrom (h1 h : receivedPacketHandler) : Prop :=
  exists cs, Forall call_wf cs /\ h = foldl step h1 cs.

(** Where the cached frame comes from: an earlier state of the same run
    built it, and since then [largestObserved] has not changed and
    [highestInOrderObserved] has not fallen. *)
Definition cacheInv (h : receivedPacketHandler) : Prop :=
  reachable h /\
  match currentAckFrame h with
  | None => True
  | Some f =>
      exists h1, reachable h1 /\ reachedFrom h1 h /\ builtAt h1 f /\
                 highestInOrderObserved h1 <= highestInOrderObserved h /\
                 largestObserved h1 = largestObserved h
  end.

End AckCachePredicates.

(** The calls of the example: packets 1 and 3 arrive, an ACK frame is built
    and kept, and a STOP_WAITING frame with least unacked 3 arrives. *)
Definition staleCacheCalls : list AckHandler.call :=
  [AckHandler.CallReceivedPacket 1 false 10;
   AckHandler.CallReceivedPacket 3 false 11;
   AckHandler.CallGetAckFrame false;
   AckHandler.CallReceivedStopWaiting (AckHandler.mkStopWaitingFrame 3 0)].

(** Constants to run the manager on: a tag is the four ASCII letters of its
    name, little-endian; the lifetimes are in nanoseconds. *)
Definition exampleConstants : Handshake.protocolConstants :=
  {| Handshake.TagMSPC := 0x4350534D;
     Handshake.TagTCID := 0x44494354;
     Handshake.TagICSL := 0x4C534349;
     Handshake.TagSFCW := 0x57434653;
     Handshake.TagCFCW := 0x57434643;
     Handshake.MaxIdleConnectionStateLifetime := 60 * Handshake.Second;
     Handshake.InitialIdleConnectionStateLifetime := 30 * Handshake.Second;
     Handshake.InitialStreamFlowControlWindow := 16384;
     Handshake.InitialConnectionFlowControlWindow := 16384;
     Handshake.ReceiveStreamFlowControlWindow := 32768;
     Handshake.ReceiveConnectionFlowControlWindow := 49152 |}.

(** AEADs to run the crypto setup on: [toyAEAD k] adds [k] to every byte and
    opens only what starts with [k]. *)
Definition toyAEAD (k : Z) : Handshake.AEAD :=
  {| Handshake.aeadOpen _ _ ct :=
       match ct with
       | c :: ct' => if bool_decide (c = k) then Ok ((fun x => x - k) <$> ct')
                     else Err (errorsNew "message authentication failed")
       | [] => Err (errorsNew "message authentication failed")
       end;
     Handshake.aeadSeal _ _ pt := k :: ((fun x => x + k) <$> pt) |}.

Section PackerPredicates.
Import Packer.
Context {SF Sealer : Type} `{!packerEnv SF Sealer}.

(** The control frames queued hold no STOP_WAITING frame: a STOP_WAITING
    frame is kept in [stopWaiting], not in [controlFrames]. *)
Definition noStopWaiting (fs : list Frame) : Prop :=
  Forall (fun f => isStopWaiting f = false) fs.

(** A STOP_WAITING frame fits into a packet that is empty otherwise. *)
Definition stopWaitingFits : Prop :=
  forall swf publicHeader persp publicHeaderLength,
    GetLength publicHeader persp = Ok publicHeaderLength ->
    exists minLength,
      MinLength (FStopWaiting swf) = Ok minLength /\
      wrap64 (0 + minLength)
      <= wrap64 (MaxFrameAndPublicHeaderSize - publicHeaderLength).

End PackerPredicates.

(** A packer environment to run the packer on: no stream data is waiting,
    every frame has a fixed minimal length, and sealing always succeeds. *)
Definition exampleEnv : Packer.packerEnv unit unit :=
  {| Packer.HasCryptoStreamFrame _ := false;
     Packer.PopCryptoStreamFrame sf _ :=
       (Packer.mkStreamFrame 1 0 false true [], sf);
     Packer.PopStreamFrames sf _ := ([], sf);
     Packer.PopBlockedFrames sf := ([], sf);
     Packer.GetSealerWithEncryptionLevel _ := Ok tt;
     Packer.GetSealerForCryptoStream := (Packer.EncryptionUnencrypted, tt);
     Packer.GetSealer := (Packer.EncryptionForwardSecure, tt);
     Packer.Peek n := n;
     Packer.Pop n := (n, n + 1);
     Packer.GetPacketNumberLengthForPublicHeader _ _ := 2;
     Packer.GetLength _ _ := Ok 11;
     Packer.MinLength f :=
       Ok (match f with Packer.FStopWaiting _ => 4 | _ => 10 end);
     Packer.writeAndSeal _ _ _ := Ok [];
     Packer.MaxFrameAndPublicHeaderSize := 1338;
     Packer.NonForwardSecurePacketSizeReduction := 50 |}.

(** The number a list of bytes stands for, least significant byte first. *)
Fixpoint leValue (bs : list Z) : Z :=
  match bs with
  | [] => 0
  | b :: bs' => b + 256 * leValue bs'
  end.

(** The four bytes [binary.LittleEndian.PutUint32] stores. *)
Definition put32 (v : Z) : list Z :=
  [wrap8 v; wrap8 (Z.shiftr v 8); wrap8 (Z.shiftr v 16); wrap8 (Z.shiftr v 24)].

(** The tags of a handshake message in the order [WriteHandshakeMessage]
    writes them, the index it writes for them from the offset [offset] on,
    and the values in that order. *)
Definition sortedTags (data : gmap Z (list Z)) : list Z :=
  merge_sort Z.le (wrap32 <$> (map_to_list data).*1).

Fixpoint indexOf (data : gmap Z (list Z)) (tags : list Z) (offset : Z)
  : list Z :=
  match tags with
  | [] => []
  | t :: tags' =>
      let offset' :=
        wrap32 (offset + wrap32 (Z.of_nat (length (default [] (data !! t))))) in
      put32 t ++ put32 offset' ++ indexOf data tags' offset'
  end.

Definition valuesOf (data : gmap Z (list Z)) (tags : list Z) : list Z :=
  concat ((fun t => default [] (data !! t)) <$> tags).

(** A handshake message that fits its encoding: the tags are 32-bit numbers,
    there are fewer than 2^16 of them, and the values have fewer than 2^32
    bytes together. *)
Definition handshakeMessage_wf (messageTag : Z) (data : gmap Z (list Z))
  : Prop :=
  is_uint32 messageTag /\
  (forall t v, data !! t = Some v -> is_uint32 t) /\
  Z.of_nat (size data) < 2 ^ 16 /\
  Z.of_nat (length (valuesOf data (sortedTags data))) < 2 ^ 32.

(** The map the loop of the parser builds from the tags. *)
Definition insertTags (data : gmap Z (list Z)) (tags : list Z)
    (m : gmap Z (list Z)) : gmap Z (list Z) :=
  foldl (fun m t => <[t := default [] (data !! t)]> m) m tags.

(** The number of bytes of the largest observed packet number that the
    bits 2 and 3 of the type byte of an ACK frame announce. *)
Definition largestObservedBytes (typeByte : Z) : nat :=
  match Z.land typeByte 12 with
  | 0 => 1%nat
  | 4 => 2%nat
  | 8 => 4%nat
  | _ => 6%nat
  end.

(** The bytes of an ACK frame: the type byte, the entropy, the largest
    observed packet number, the delay time, the number of timestamps and
    the timestamps, and, when bit 5 of the type byte is set, the number of
    NACK ranges and the ranges. *)
Definition ackFrameBytes (typeByte entropy : Z) (largestObserved : list Z)
    (delayTime numTimestamp : Z) (timestamps : list Z)
    (numRanges : Z) (ranges : list Z) : list Z :=
  typeByte :: entropy :: largestObserved ++ le16 delayTime
    ++ numTimestamp :: timestamps
    ++ (if bool_decide (Z.land typeByte 32 = 32) then numRanges :: ranges
        else []).

Section ReceivedPacketPredicates.
Import AckHandler.

(** A packet number lies in one of the NACK ranges. *)
Definition nacked (ranges : list NackRange) (n : Z) : Prop :=
  Exists (fun r => FirstPacketNumber r <= n <= LastPacketNumber r) ranges.

(** What holds of the largest observed packet in every state the calls
    reach: it is in the history, unless no packet has been received and no
    ACK is pending, and the cached frame acknowledges it. *)
Definition largestInv (h : receivedPacketHandler) : Prop :=
  ((largestObserved h = 0 /\ stateChanged h = false) \/
   is_Some (packetHistory h !! largestObserved h)) /\
  (forall f, currentAckFrame h = Some f ->
             LargestObserved f = largestObserved h).

End ReceivedPacketPredicates.

Section EarlyStreamPredicates.
Import EarlyStream.

(** The frames that carry the chunks of a stream from the offset [o] on,
    and the frame with the FIN bit behind them. *)
Fixpoint framesFrom (sid o : Z) (chunks : list (list Z))
  : list Stream.StreamFrame :=
  match chunks with
  | [] => [Stream.mkStreamFrame sid o true []]
  | c :: cs =>
      Stream.mkStreamFrame sid o false c
      :: framesFrom sid (o + Z.of_nat (length c)) cs
  end.

(** The stream holds exactly the chunks [cs] still to be read: no error has
    been met, the frame being read, if there is one, has the first chunk
    left, and the queue and the channel hold, in any order, the frames of
    the chunks behind it and the FIN frame. *)
Definition holds (s : stream) (sid : Z) (cs : list (list Z)) : Prop :=
  currentErr s = None /\
  0 <= readOffset s /\
  readOffset s + Z.of_nat (length (concat cs)) < 2 ^ 64 /\
  Forall (fun c => c <> []) cs /\
  exists ch,
    streamFrames s = Some <$> ch /\
    match currentFrame s with
    | None => frameQueue s ++ ch ≡ₚ framesFrom sid (readOffset s) cs
    | Some f =>
        0 <= readPosInFrame s < Z.of_nat (length (Stream.Data f)) /\
        Stream.FinBit f = false /\
        exists cs',
          cs = drop (Z.to_nat (readPosInFrame s)) (Stream.Data f) :: cs' /\
          frameQueue s ++ ch ≡ₚ
            framesFrom sid
              (readOffset s + Z.of_nat (length (Stream.Data f))
               - readPosInFrame s) cs'
    end.

(** The sender writes the chunks with one [Write] each and closes the
    stream, on a session that records the frames. *)
Fixpoint writeAll (s : stream) (ss : list Stream.StreamFrame)
    (chunks : list (list Z)) : list Stream.StreamFrame :=
  match chunks with
  | [] => (Close s ss).1
  | c :: cs => let '(s, ss, _) := Write s ss c in writeAll s ss cs
  end.

(** The session hands the frames to the stream, one [AddStreamFrame]
    each; [None] when a call waits. *)
Fixpoint deliver (s : stream) (fs : list Stream.StreamFrame)
  : option stream :=
  match fs with
  | [] => Some s
  | f :: fs' =>
      match AddStreamFrame s f with
      | (Stream.Returned _, s') => deliver s' fs'
      | _ => None
      end
  end.

End EarlyStreamPredicates.

Section EarlyStreamReadPredicates.
Import EarlyStream.

(** What a call of [Read], or the rest of its loop from [b] bytes read on,
    returns on a stream that holds the chunks [cs]: when the buffer [p] has
    room for no more than the bytes left, it is filled with the next bytes
    and the stream holds the rest; else the bytes left are read and the
    call returns [io.EOF]. *)
Definition readPost (sid : Z) (cs : list (list Z)) (p : list Z) (b : nat)
    (res : Stream.outcome (Z * option error) * stream * list Z) : Prop :=
  let D := concat cs in
  let n := (length p - b)%nat in
  if decide (n <= length D)%nat
  then exists s' cs',
         res = (Stream.Returned (Z.of_nat (length p), None), s',
                take b p ++ take n D) /\
         holds s' sid cs' /\ concat cs' = drop n D
  else exists s',
         res = (Stream.Returned (Z.of_nat (b + length D), Some EOF), s',
                take b p ++ D ++ drop (b + length D) p) /\
         currentErr s' = Some EOF.

End EarlyStreamReadPredicates.

Section PackerMorePredicates.
Import Packer.

Definition isStream (f : Frame) : bool :=
  match f with FStream _ => true | _ => false end.

(** The lowest encryption level at which [canSendData] lets stream data
    be sent: forward-secure for a server, secure for a client. *)
Definition dataLevel (persp : Perspective) : Z :=
  match persp with
  | PerspectiveServer => levelRank EncryptionForwardSecure
  | PerspectiveClient => levelRank EncryptionSecure
  end.

(** The control frames a call of [composeNextPacket] starts with: the
    frames queued and, behind them, the STOP_WAITING frame held. *)
Definition queuedFrames {SF} (p : packetPacker SF) : list Frame :=
  match stopWaiting p with
  | Some swf => controlFrames p ++ [FStopWaiting swf]
  | None => controlFrames p
  end.

End PackerMorePredicates.

(** A packer environment before the handshake is over: the sealer is at
    the secure level, and a stream frame is waiting. *)
Definition handshakeEnv : Packer.packerEnv unit unit :=
  {| Packer.HasCryptoStreamFrame _ := false;
     Packer.PopCryptoStreamFrame sf _ :=
       (Packer.mkStreamFrame 1 0 false true [], sf);
     Packer.PopStreamFrames sf _ :=
       ([Packer.mkStreamFrame 5 0 false true [1; 2; 3]], sf);
     Packer.PopBlockedFrames sf := ([], sf);
     Packer.GetSealerWithEncryptionLevel _ := Ok tt;
     Packer.GetSealerForCryptoStream := (Packer.EncryptionUnencrypted, tt);
     Packer.GetSealer := (Packer.EncryptionSecure, tt);
     Packer.Peek n := n;
     Packer.Pop n := (n, n + 1);
     Packer.GetPacketNumberLengthForPublicHeader _ _ := 2;
     Packer.GetLength _ _ := Ok 11;
     Packer.MinLength f :=
       Ok (match f with Packer.FStopWaiting _ => 4 | _ => 10 end);
     Packer.writeAndSeal _ _ _ := Ok [];
     Packer.MaxFrameAndPublicHeaderSize := 1338;
     Packer.NonForwardSecurePacketSizeReduction := 50 |}.

Section CryptoSetupPredicates.
Import Handshake.

(** The forward-secure AEAD is there once a forward-secure packet has been
    received: [Open] sets the flag only after that AEAD has opened a
    packet. *)
Definition cryptoInv (h : CryptoSetup) : Prop :=
  receivedForwardSecurePacket h = true -> is_Some (forwardSecureAEAD h).

(** The result of a call is the one the secure AEAD [a] gives, or the one
    the forward-secure AEAD gives if there is one. *)
Definition secureReply (a : AEAD) (fs : option AEAD) (c : call)
    (r : result (list Z)) : Prop :=
  match c with
  | CallOpen pn ad ct =>
      r = aeadOpen a pn ad ct \/
      exists f, fs = Some f /\ r = aeadOpen f pn ad ct
  | CallSeal pn ad pt =>
      r = Ok (aeadSeal a pn ad pt) \/
      exists f, fs = Some f /\ r = Ok (aeadSeal f pn ad pt)
  end.

End CryptoSetupPredicates.

Section OutgoingPredicates.
Import AckHandler.
Context `{!EntropyAccumulatorOps}.

(** The entropy accumulated over the packets [ps], from the entropy [e]
    on. *)
Definition entropyAfter (e : Z) (ps : list Packet) : Z :=
  foldl (fun e p => EntropyAdd e (PacketNumber p) (pEntropyBit p)) e ps.

End OutgoingPredicates.

(** A sender environment to run the cubic sender on: the parts have no
    state, the segment size is 1460 bytes, the hybrid slow start never asks
    to leave slow start, the cubic window is cut to 7/10 on a loss and
    grows by one on an ACK, and the Reno window after a loss is the window
    times [(n - 1 + 0.7) / n] for [n] connections, rounded down. *)
Definition exampleSenderEnv : Congestion.senderEnv unit unit unit unit :=
  {| Congestion.DefaultTCPMSS := 1460;
     Congestion.defaultNumConnections := 2;
     Congestion.NewCubic := tt;
     Congestion.hssOnPacketSent h _ := h;
     Congestion.hssOnPacketAcked h _ := h;
     Congestion.hssShouldExitSlowStart h _ _ _ := (false, h);
     Congestion.hssRestart h := h;
     Congestion.prrOnPacketSent p _ := p;
     Congestion.prrOnPacketAcked p _ := p;
     Congestion.prrOnPacketLost p _ := p;
     Congestion.prrTimeUntilSend _ _ _ _ := 0;
     Congestion.CongestionWindowAfterPacketLoss cu w := (w * 7 / 10, cu);
     Congestion.CongestionWindowAfterAck cu w _ := (w + 1, cu);
     Congestion.OnApplicationLimited cu := cu;
     Congestion.cubicReset cu := cu;
     Congestion.SetNumConnections cu _ := cu;
     Congestion.LatestRTT _ := 0;
     Congestion.MinRTT _ := 0;
     Congestion.renoWindowAfterLoss n w := w * (10 * n - 3) / (10 * n) |}.

(** The sender environment of the examples with the Reno window after a
    loss computed as the code computes it, in [float32]. *)
Definition float32SenderEnv : Congestion.senderEnv unit unit unit unit :=
  {| Congestion.DefaultTCPMSS := 1460;
     Congestion.defaultNumConnections := 2;
     Congestion.NewCubic := tt;
     Congestion.hssOnPacketSent h _ := h;
     Congestion.hssOnPacketAcked h _ := h;
     Congestion.hssShouldExitSlowStart h _ _ _ := (false, h);
     Congestion.hssRestart h := h;
     Congestion.prrOnPacketSent p _ := p;
     Congestion.prrOnPacketAcked p _ := p;
     Congestion.prrOnPacketLost p _ := p;
     Congestion.prrTimeUntilSend _ _ _ _ := 0;
     Congestion.CongestionWindowAfterPacketLoss cu w := (w * 7 / 10, cu);
     Congestion.CongestionWindowAfterAck cu w _ := (w + 1, cu);
     Congestion.OnApplicationLimited cu := cu;
     Congestion.cubicReset cu := cu;
     Congestion.SetNumConnections cu _ := cu;
     Congestion.LatestRTT _ := 0;
     Congestion.MinRTT _ := 0;
     Congestion.renoWindowAfterLoss n w :=
       default 0 (Congestion.renoWindow n w) |}.

(** The window the claim gives for [n] connections: the congestion window
    times [(n - 1 + 0.7) / n], rounded down. *)
Definition exactRenoWindow (n w : Z) : Z := w * (10 * n - 3) / (10 * n).

(** [renoWindow n] is [exactRenoWindow n] on the [fuel] windows from [w]
    on. *)
Fixpoint renoWindowExact (n : Z) (fuel : nat) (w : Z) : bool :=
  match fuel with
  | O => true
  | S fuel' =>
      if bool_decide (Congestion.renoWindow n w = Some (exactRenoWindow n w))
      then renoWindowExact n fuel' (w + 1)
      else false
  end.

(** A read that ran into the end of the input: the result is [io.EOF] or
    [io.ErrUnexpectedEOF]. *)
Definition endOfInput {A : Type} (r : result A) : Prop :=
  r = Err EOF \/ r = Err ErrUnexpectedEOF.

(** * Properties *)

(** ** The little-endian readers invert the writers *)

Section UtilsFacts.
Import Utils.

Lemma WriteUint16_le16 b x : WriteUint16 b x = b ++ le16 x.
Proof. unfold WriteUint16, WriteByte, le16. by rewrite <- app_assoc. Qed.

Lemma WriteUint32_le32 b x : WriteUint32 b x = b ++ le32 x.
Proof. unfold WriteUint32, WriteByte, le32. by rewrite <- !app_assoc. Qed.

Lemma land_255 x : Z.land x 255 = x mod 256.
Proof. change 255 with (Z.ones 8). by rewrite Z.land_ones by lia. Qed.

Lemma wrap8_byte x : is_byte x -> wrap8 x = x.
Proof. unfold is_byte, wrap8. intros. by apply Z.mod_small. Qed.

Lemma wrap64_small x : 0 <= x < 2 ^ 64 -> wrap64 x = x.
Proof. unfold wrap64. intros. by apply Z.mod_small. Qed.

Lemma le16_value x :
  is_uint16 x ->
  wrap16 (wrap8 (Z.land x 255)
          + wrap16 (Z.shiftl (wrap8 (Z.land (Z.shiftr x 8) 255)) 8)) = x.
Proof.
  unfold is_uint16, wrap16, wrap8. intros H.
  rewrite !land_255, !Z.shiftr_div_pow2, !Z.shiftl_mul_pow2 by lia.
  change (2 ^ 8) with 256. change (2 ^ 16) with 65536 in *.
  Z.div_mod_to_equations. lia.
Qed.

Lemma le32_sum x :
  is_uint32 x ->
  x mod 256 + (x / 256) mod 256 * 256 + (x / 65536) mod 256 * 65536
  + (x / 16777216) mod 256 * 16777216 = x.
Proof.
  unfold is_uint32. change (2 ^ 32) with 4294967296. intros H.
  Z.div_mod_to_equations. lia.
Qed.

Lemma le32_value x :
  is_uint32 x ->
  wrap32 (wrap8 (Z.land x 255)
          + wrap32 (Z.shiftl (wrap8 (Z.land (Z.shiftr x 8) 255)) 8)
          + wrap32 (Z.shiftl (wrap8 (Z.land (Z.shiftr x 16) 255)) 16)
          + wrap32 (Z.shiftl (wrap8 (Z.land (Z.shiftr x 24) 255)) 24)) = x.
Proof.
  unfold is_uint32, wrap32, wrap8. intros H.
  rewrite !land_255, !Z.shiftr_div_pow2, !Z.shiftl_mul_pow2 by lia.
  change (2 ^ 8) with 256. change (2 ^ 16) with 65536.
  change (2 ^ 24) with 16777216. change (2 ^ 32) with 4294967296 in *.
  Z.div_mod_to_equations. lia.
Qed.

Lemma ReadUint16_le16 x rest :
  is_uint16 x -> ReadUint16 (le16 x ++ rest) = Ok (x, rest).
Proof.
  intros H. unfold ReadUint16, le16. cbn [app ReadByte mbind result_bind].
  by rewrite le16_value.
Qed.

Lemma ReadUint32_le32 x rest :
  is_uint32 x -> ReadUint32 (le32 x ++ rest) = Ok (x, rest).
Proof.
  intros H. unfold ReadUint32, le32. cbn [app ReadByte mbind result_bind].
  by rewrite le32_value.
Qed.

(** On bits that do not overlap, exclusive or is addition. *)
Lemma lxor_shiftl_add a b n :
  0 <= n -> 0 <= a < 2 ^ n -> 0 <= b -> Z.lxor a (Z.shiftl b n) = a + b * 2 ^ n.
Proof.
  intros Hn Ha Hb. rewrite Z.shiftl_mul_pow2 by done.
  symmetry. apply Z.add_nocarry_lxor.
  rewrite <- Z.shiftl_mul_pow2 by done.
  apply Z.bits_inj'. intros k Hk. rewrite Z.land_spec, Z.bits_0.
  destruct (decide (k < n)) as [Hlt|Hge].
  - rewrite (Z.shiftl_spec_low b n k) by done. apply andb_false_r.
  - destruct (decide (a = 0)) as [->|Hne]; [by rewrite Z.bits_0|].
    rewrite (Z.bits_above_log2 a k); [done|lia|].
    assert (Z.log2 a < n) by (apply Z.log2_lt_pow2; lia). lia.
Qed.

Lemma ReadUintN_le32 x rest :
  is_uint32 x -> ReadUintN (le32 x ++ rest) 4 = Ok (x, rest).
Proof.
  intros H. unfold ReadUintN, le32.
  change (Z.to_nat 4) with 4%nat.
  cbn [ReadUintN_loop app ReadByte mbind result_bind].
  do 2 f_equal.
  change (wrap8 (0 * 8)) with 0. change (wrap8 (0 + 1)) with 1.
  change (wrap8 (1 * 8)) with 8. change (wrap8 (1 + 1)) with 2.
  change (wrap8 (2 * 8)) with 16. change (wrap8 (2 + 1)) with 3.
  change (wrap8 (3 * 8)) with 24.
  unfold wrap8. rewrite !land_255, !Z.shiftr_div_pow2 by lia.
  change (2 ^ 8) with 256. change (2 ^ 16) with 65536.
  change (2 ^ 24) with 16777216.
  rewrite !(Z.mod_small (_ mod 256) 256) by (apply Z.mod_pos_bound; lia).
  pose proof (Z.mod_pos_bound x 256 ltac:(lia)) as H0.
  pose proof (Z.mod_pos_bound (x / 256) 256 ltac:(lia)) as H1.
  pose proof (Z.mod_pos_bound (x / 65536) 256 ltac:(lia)) as H2.
  pose proof (Z.mod_pos_bound (x / 16777216) 256 ltac:(lia)) as H3.
  set (b0 := x mod 256) in *. set (b1 := (x / 256) mod 256) in *.
  set (b2 := (x / 65536) mod 256) in *.
  set (b3 := (x / 16777216) mod 256) in *.
  assert (Hsum : b0 + b1 * 256 + b2 * 65536 + b3 * 16777216 = x)
    by (subst b0 b1 b2 b3; by apply le32_sum).
  unfold wrap64.
  rewrite Z.shiftl_0_r, Z.lxor_0_l, (Z.mod_small b0) by lia.
  rewrite (Z.shiftl_mul_pow2 b1 8), (Z.mod_small (b1 * 2 ^ 8)) by lia.
  rewrite <- (Z.shiftl_mul_pow2 b1 8), lxor_shiftl_add by lia.
  rewrite (Z.shiftl_mul_pow2 b2 16), (Z.mod_small (b2 * 2 ^ 16)) by lia.
  rewrite <- (Z.shiftl_mul_pow2 b2 16), lxor_shiftl_add by lia.
  rewrite (Z.shiftl_mul_pow2 b3 24), (Z.mod_small (b3 * 2 ^ 24)) by lia.
  rewrite <- (Z.shiftl_mul_pow2 b3 24), lxor_shiftl_add by lia.
  lia.
Qed.

End UtilsFacts.

(** ** The frame codec *)

Section FramesFacts.
Import Utils Frames.

Lemma wrap32_uint32 x : is_uint32 (wrap32 x).
Proof. unfold is_uint32, wrap32. apply Z.mod_pos_bound. lia. Qed.

(** What [ParseAckFrame] reads back from the bytes [AckFrame.Write] has
    produced: the entropy, the low 32 bits of the largest observed packet
    number, and the delay time 1, whatever the delay time of the frame. *)
Lemma ParseAckFrame_Write f rest :
  ParseAckFrame ((AckFrame_Write f []).1 ++ rest)
  = Ok (mkAckFrame (Entropy f) (wrap32 (LargestObserved f)) 1, rest).
Proof.
  unfold AckFrame_Write. cbn [fst].
  rewrite !WriteUint32_le32, !WriteUint16_le16. unfold WriteByte.
  rewrite <- !app_assoc. cbn [app].
  unfold ParseAckFrame. cbn [ReadByte mbind result_bind].
  change (bool_decide (Z.land 72 32 = 32)) with false.
  change (bool_decide (Z.land 72 16 = 16)) with false.
  change (wrap8 (2 * Z.shiftr (Z.land 72 12) 2)) with 4.
  change (bool_decide (4 = 0)) with false. cbv iota.
  rewrite ReadUintN_le32 by apply wrap32_uint32.
  cbn [mbind result_bind].
  rewrite ReadUint16_le16 by (unfold is_uint16; lia).
  cbn [mbind result_bind ReadByte].
  rewrite ReadUint32_le32 by (unfold is_uint32; lia).
  cbn [mbind result_bind].
  change (Z.to_nat (1 - 1)) with 0%nat.
  cbn [skipTimestamps mbind result_bind]. reflexivity.
Qed.

Lemma writeReasonPhrase_take n : forall i s b,
  (i + n <= length s)%nat ->
  writeReasonPhrase n i s b = b ++ (wrap8 <$> take n (drop i s)).
Proof.
  induction n as [|n IH]; intros i s b Hlen; cbn [writeReasonPhrase].
  - by rewrite take_0, app_nil_r.
  - rewrite IH by lia. unfold WriteByte.
    destruct (lookup_lt_is_Some_2 s i ltac:(lia)) as [x Hx].
    rewrite Hx. cbn [default from_option id].
    rewrite <- app_assoc. f_equal.
    rewrite (drop_S s x i Hx). by cbn.
Qed.

Lemma ReadFull_app s rest :
  ReadFull (s ++ rest) (length s) = Ok (s, rest).
Proof.
  unfold ReadFull. destruct s as [|x s]; [done|].
  cbn [length app].
  rewrite (proj2 (Nat.leb_le _ _)) by (cbn; rewrite length_app; lia).
  change (x :: s ++ rest) with ((x :: s) ++ rest).
  change (S (length s)) with (length (x :: s)).
  by rewrite take_app_length, drop_app_length.
Qed.

(** Parsing what [ConnectionCloseFrame.Write] wrote gives the frame back,
    for every frame whose fields fit their types. *)
Lemma ParseConnectionCloseFrame_Write f rest :
  ConnectionCloseFrame_wf f ->
  (ConnectionCloseFrame_Write f []).2 = None /\
  ParseConnectionCloseFrame ((ConnectionCloseFrame_Write f []).1 ++ rest)
  = Ok (f, rest).
Proof.
  intros (Hcode & Hbytes & Hlen). unfold ConnectionCloseFrame_Write.
  destruct (Z.ltb_spec MaxUint16 (Z.of_nat (length (ReasonPhrase f))));
    [lia|]. split; [done|]. cbn [fst].
  assert (Hw16 : wrap16 (Z.of_nat (length (ReasonPhrase f)))
                 = Z.of_nat (length (ReasonPhrase f))).
  { unfold wrap16. apply Z.mod_small. unfold MaxUint16 in *. lia. }
  assert (Hw32 : wrap32 (ErrorCode f) = ErrorCode f).
  { unfold wrap32. apply Z.mod_small. apply Hcode. }
  rewrite Hw16, Hw32, Nat2Z.id.
  rewrite writeReasonPhrase_take by (cbn; lia).
  rewrite drop_0, firstn_all.
  rewrite WriteUint32_le32, WriteUint16_le16. unfold WriteByte.
  rewrite <- !app_assoc. cbn [app].
  unfold ParseConnectionCloseFrame. cbn [ReadByte mbind result_bind].
  rewrite ReadUint32_le32 by done. cbn [mbind result_bind].
  rewrite ReadUint16_le16 by (unfold is_uint16, MaxUint16 in *; lia).
  cbn [mbind result_bind]. rewrite Nat2Z.id.
  assert (Hid : wrap8 <$> ReasonPhrase f = ReasonPhrase f).
  { clear -Hbytes. induction Hbytes as [|x l Hx _ IH]; [done|].
    cbn. by rewrite IH, wrap8_byte. }
  rewrite Hid, ReadFull_app. cbn [mbind result_bind].
  by destruct f.
Qed.

End FramesFacts.

(** C2 (the round trip of the ACK frame fails): for the well-formed ACK frame
    with entropy 0, largest observed packet number 1 and delay time 2,
    [AckFrame.Write] succeeds, and [ParseAckFrame] reads from the bytes
    written a frame with delay time 1, which is not the frame written. *)
Theorem AckFrame_roundtrip_loses_DelayTime :
  let f := Frames.mkAckFrame 0 1 2 in
  Frames.AckFrame_wf f /\
  (Frames.AckFrame_Write f []).2 = None /\
  Frames.ParseAckFrame (Frames.AckFrame_Write f []).1
  = Ok (Frames.mkAckFrame 0 1 1, []) /\
  Frames.ParseAckFrame (Frames.AckFrame_Write f []).1 <> Ok (f, []).
Proof.
  cbv zeta. split.
  { unfold Frames.AckFrame_wf, is_byte, is_uint64, is_uint16. cbn. lia. }
  split; [reflexivity|].
  pose proof (ParseAckFrame_Write (Frames.mkAckFrame 0 1 2) []) as H.
  rewrite app_nil_r in H. rewrite H. split; [reflexivity|discriminate].
Qed.

(** ** The stream *)

Section StreamFacts.
Import Utils Stream.

Lemma newStream_flowControlRespected {Q} (q0 : Q) id sw rw :
  0 <= rw -> flowControlRespected (newStream q0 id sw rw).
Proof. done. Qed.

Lemma AddStreamFrame_flowControlRespected {Q} `{!streamFrameSorter Q}
    (s : stream Q) frame :
  (AddStreamFrame s frame).2 = None ->
  flowControlRespected (AddStreamFrame s frame).1.
Proof.
  unfold AddStreamFrame, flowControlRespected, CheckFlowControlViolation.
  destruct (Z.ltb_spec
    (receiveFlowControlWindow
       (UpdateHighestReceived (flowCtrl s)
          (wrap64 (Offset frame + Z.of_nat (length (Data frame))))))
    (highestReceived
       (UpdateHighestReceived (flowCtrl s)
          (wrap64 (Offset frame + Z.of_nat (length (Data frame))))))); [done|].
  intros _. by cbn.
Qed.

(** Every frame a call of [Write] queues carries a prefix of the buffer
    written, whatever has been written before in the same call. *)
Lemma Write_loop_prefix {Q} (fuel : nat) (p : list Z) :
  forall dataWritten (s : stream Q) (q : list StreamFrame) evs r s' q',
    Write_loop fuel p dataWritten s q evs = (r, s', q') ->
    exists new, q' = q ++ new /\
                Forall (fun f => exists n, Data f = take n p) new.
Proof.
  induction fuel as [|fuel IH]; intros dw s q evs r s' q' Hw;
    cbn [Write_loop] in Hw.
  - exists []. rewrite app_nil_r.
    destruct (dw <? Z.of_nat (length p)); by simplify_eq.
  - destruct (dw <? Z.of_nat (length p)); [|exists []; rewrite app_nil_r; by simplify_eq].
    destruct (waitForWindow s evs) as [[[rem s1] evs1]|];
      [|exists []; rewrite app_nil_r; by simplify_eq].
    destruct (bool_decide (rem = 0));
      [exists []; rewrite app_nil_r; by simplify_eq|].
    destruct (Min (Z.of_nat (length p)) (toInt rem) <? 0);
      [exists []; rewrite app_nil_r; by simplify_eq|].
    cbn [queueStreamFrame recordingSession] in Hw.
    apply IH in Hw as (new & -> & Hnew).
    eexists (_ :: new). rewrite <- app_assoc. split; [done|].
    constructor; [|done]. by eexists.
Qed.

Lemma waitForWindow_range {Q} (s : stream Q) evs :
  forall rem s1 evs1,
    waitForWindow s evs = Some (rem, s1, evs1) -> 0 <= rem < 2 ^ 64.
Proof.
  revert s. induction evs as [|ev evs IH]; intros s rem s1 evs1 Hw;
    cbn [waitForWindow] in Hw.
  all: destruct (bool_decide (SendWindowSize (flowCtrl s) = 0)
                 && bool_decide (err s = None)); [by eauto|].
  all: simplify_eq; unfold SendWindowSize;
    destruct (_ <? _); [lia|apply Z.mod_pos_bound; lia].
Qed.

(** [length p] rounds of fuel are enough for the loop of [Write]: every
    round queues at least one byte. *)
Lemma Write_loop_fuel {Q S} `{!streamHandler S} (fuel : nat) (p : list Z) :
  forall dataWritten (s : stream Q) (ss : S) evs,
    0 <= dataWritten ->
    Z.of_nat (length p) - dataWritten <= Z.of_nat fuel ->
    (Write_loop fuel p dataWritten s ss evs).1.1 <> OutOfFuel.
Proof.
  induction fuel as [|fuel IH]; intros dw s ss evs H0 Hfuel;
    cbn [Write_loop].
  - destruct (Z.ltb_spec dw (Z.of_nat (length p))); [lia|done].
  - destruct (Z.ltb_spec dw (Z.of_nat (length p))) as [Hlt|]; [|done].
    destruct (waitForWindow s evs) as [[[rem s1] evs1]|] eqn:Hwait; [|done].
    apply waitForWindow_range in Hwait.
    case_bool_decide as Hrem; [done|].
    destruct (Z.ltb_spec (Min (Z.of_nat (length p)) (toInt rem)) 0)
      as [|Hlen]; [done|].
    destruct (queueStreamFrame ss _) as [ss1 [e|]]; [done|].
    assert (Min (Z.of_nat (length p)) (toInt rem) <> 0).
    { unfold Min in *. destruct (Z.ltb_spec (Z.of_nat (length p)) (toInt rem));
        [lia|]. revert Hlen. unfold toInt.
      change (2 ^ 63) with 9223372036854775808.
      change (2 ^ 64) with 18446744073709551616 in *.
      intros. Z.div_mod_to_equations. lia. }
    apply IH; lia.
Qed.

Lemma Write_fuel {Q S} `{!streamHandler S} (s : stream Q) (ss : S) p evs :
  (Write s ss p evs).1.1 <> OutOfFuel.
Proof.
  unfold Write. destruct (err s); [done|]. apply Write_loop_fuel; lia.
Qed.

End StreamFacts.

(** C1 (a split [Write] repeats the start of the buffer): on a stream with a
    send window of 3 bytes, [Write] of the 5 bytes 10..14 queues the first 3
    bytes at offset 0, waits, and after the window update to 6 queues the
    same first 3 bytes again at offset 3; it returns 5 and leaves the write
    offset at 6.  The frames queued are not consecutive slices of the
    buffer. *)
Theorem Write_split_repeats_prefix :
  let s := Stream.newStream ([] : list Stream.StreamFrame) 5 3 100 in
  let p := [10; 11; 12; 13; 14] in
  let '(r, s', q) := Stream.Write s [] p [Stream.WindowUpdate 6] in
  r = Stream.Returned (5, None) /\
  q = [Stream.mkStreamFrame 5 0 false [10; 11; 12];
       Stream.mkStreamFrame 5 3 false [10; 11; 12]] /\
  Stream.writeOffset s' = 6 /\
  concat (Stream.Data <$> q) <> p.
Proof. vm_compute. repeat split; discriminate. Qed.

(** Flow-control violation on receipt, where the sum does not wrap around:
    on a stream that has received nothing beyond its receive window so far,
    for a frame whose end offset fits 64 bits, [AddStreamFrame] returns
    [FlowControlReceivedTooMuchData] exactly when offset plus data length
    exceeds the receive window; then the frame queue is unchanged, and
    otherwise no error is returned and the frame is pushed. *)
Theorem AddStreamFrame_flow_control {Q} `{!Stream.streamFrameSorter Q}
    (s : Stream.stream Q) (frame : Stream.StreamFrame) :
  flowControlRespected s ->
  0 <= Stream.Offset frame ->
  Stream.Offset frame + Z.of_nat (length (Stream.Data frame)) < 2 ^ 64 ->
  ((Stream.AddStreamFrame s frame).2 = Some FlowControlReceivedTooMuchData
   <-> Stream.receiveFlowControlWindow (Stream.flowCtrl s)
       < Stream.Offset frame + Z.of_nat (length (Stream.Data frame))) /\
  ((Stream.AddStreamFrame s frame).2 = Some FlowControlReceivedTooMuchData ->
   Stream.frameQueue (Stream.AddStreamFrame s frame).1 = Stream.frameQueue s) /\
  ((Stream.AddStreamFrame s frame).2 <> Some FlowControlReceivedTooMuchData ->
   (Stream.AddStreamFrame s frame).2 = None /\
   Stream.frameQueue (Stream.AddStreamFrame s frame).1
   = Stream.Push (Stream.frameQueue s) frame).
Proof.
  unfold flowControlRespected. intros Hinv Hoff Hend.
  unfold Stream.AddStreamFrame, Stream.CheckFlowControlViolation,
    Stream.UpdateHighestReceived.
  assert (Hw : wrap64 (Stream.Offset frame
                       + Z.of_nat (length (Stream.Data frame)))
               = Stream.Offset frame + Z.of_nat (length (Stream.Data frame))).
  { apply wrap64_small. lia. }
  rewrite Hw.
  destruct (Z.ltb_spec (Stream.highestReceived (Stream.flowCtrl s))
              (Stream.Offset frame + Z.of_nat (length (Stream.Data frame))))
    as [Hlt|Hge]; cbn [Stream.receiveFlowControlWindow Stream.highestReceived].
  - destruct (Z.ltb_spec (Stream.receiveFlowControlWindow (Stream.flowCtrl s))
                (Stream.Offset frame + Z.of_nat (length (Stream.Data frame))));
      cbn; repeat split; try done; try lia; intros; by simplify_eq.
  - destruct (Z.ltb_spec (Stream.receiveFlowControlWindow (Stream.flowCtrl s))
                (Stream.highestReceived (Stream.flowCtrl s))); [lia|].
    cbn; repeat split; try done; try lia; intros; by simplify_eq.
Qed.

(** [AddStreamFrame_flow_control] on a new stream with a receive window of
    10 bytes and a frame of 3 bytes at offset 8. *)
Lemma AddStreamFrame_flow_control_witness :
  let s := Stream.newStream ([] : list Stream.StreamFrame) 5 0 10 in
  let frame := Stream.mkStreamFrame 5 8 false [1; 2; 3] in
  (Stream.AddStreamFrame s frame).2 = Some FlowControlReceivedTooMuchData /\
  Stream.frameQueue (Stream.AddStreamFrame s frame).1 = [].
Proof.
  cbv zeta.
  pose proof (AddStreamFrame_flow_control
    (Stream.newStream ([] : list Stream.StreamFrame) 5 0 10)
    (Stream.mkStreamFrame 5 8 false [1; 2; 3])) as H.
  destruct H as (H1 & H2 & _).
  - unfold flowControlRespected. cbn. lia.
  - cbn. lia.
  - cbn. lia.
  - assert (He : (Stream.AddStreamFrame
                    (Stream.newStream ([] : list Stream.StreamFrame) 5 0 10)
                    (Stream.mkStreamFrame 5 8 false [1; 2; 3])).2
                 = Some FlowControlReceivedTooMuchData).
    { apply H1. cbn. lia. }
    split; [exact He|]. rewrite (H2 He). reflexivity.
Defined.

(** C3 (the end offset wraps around): on a new stream with a receive window
    of 10 bytes, a frame of 2 bytes at offset 2^64 - 1 ends beyond the
    window, but [frame.Offset + protocol.ByteCount(len(frame.Data))] wraps
    to 1: [AddStreamFrame] records 1 as the highest offset received, finds
    no violation, returns nil and pushes the frame. *)
Theorem AddStreamFrame_end_offset_wraps :
  let s := Stream.newStream ([] : list Stream.StreamFrame) 5 0 10 in
  let frame := Stream.mkStreamFrame 5 (2 ^ 64 - 1) false [1; 2] in
  is_uint64 (Stream.Offset frame) /\
  Stream.receiveFlowControlWindow (Stream.flowCtrl s)
  < Stream.Offset frame + Z.of_nat (length (Stream.Data frame)) /\
  (Stream.AddStreamFrame s frame).2 = None /\
  Stream.frameQueue (Stream.AddStreamFrame s frame).1 = [frame] /\
  Stream.highestReceived (Stream.flowCtrl (Stream.AddStreamFrame s frame).1)
  = 1.
Proof.
  cbv zeta. split; [unfold is_uint64; cbn; lia|].
  split; [cbn; lia|]. vm_compute. done.
Qed.

(** ** The received-packet handler *)

(** C4 (duplicates are reported and change nothing): for a packet number
    [n >= 1], in every state of the handler, [ReceivedPacket] returns
    [ErrDuplicatePacket] exactly when [n] is at most
    [highestInOrderObserved] or is a key of the packet history, and then the
    handler (largest observed, highest in order, history, cached frame,
    pending-ACK flag) is what it was. *)
Theorem ReceivedPacket_duplicate `{!AckHandler.EntropyAccumulatorOps}
    (h : AckHandler.receivedPacketHandler) (n : Z) (e : bool) (now : Z) :
  1 <= n ->
  ((AckHandler.ReceivedPacket h n e now).2 = Some AckHandler.ErrDuplicatePacket
   <-> (n <= AckHandler.highestInOrderObserved h
        \/ is_Some (AckHandler.packetHistory h !! n))) /\
  ((AckHandler.ReceivedPacket h n e now).2 = Some AckHandler.ErrDuplicatePacket
   -> (AckHandler.ReceivedPacket h n e now).1 = h).
Proof.
  intros Hn. unfold AckHandler.ReceivedPacket.
  rewrite bool_decide_eq_false_2 by lia.
  destruct (Z.leb_spec n (AckHandler.highestInOrderObserved h)) as [Hle|Hgt];
    cbn [orb].
  - split; [|done]. split; [by left|done].
  - destruct (decide (is_Some (AckHandler.packetHistory h !! n))) as [Hin|Hnotin].
    + rewrite bool_decide_eq_true_2 by done. split; [|done].
      split; [by right|done].
    + rewrite bool_decide_eq_false_2 by done.
      destruct (bool_decide _); cbn [fst snd]; split; try done.
      all: split; [done|intros [?|?]; [lia|done]].
Qed.

(** [ReceivedPacket_duplicate] on packet 1 received twice. *)
Lemma ReceivedPacket_duplicate_witness :
  let h := (@AckHandler.ReceivedPacket xorEntropy
              AckHandler.NewReceivedPacketHandler 1 true 7).1 in
  (@AckHandler.ReceivedPacket xorEntropy h 1 false 9).2
  = Some AckHandler.ErrDuplicatePacket /\
  (@AckHandler.ReceivedPacket xorEntropy h 1 false 9).1 = h.
Proof.
  cbv zeta.
  destruct (@ReceivedPacket_duplicate xorEntropy
              (@AckHandler.ReceivedPacket xorEntropy
                 AckHandler.NewReceivedPacketHandler 1 true 7).1 1 false 9)
    as [H1 H2]; [lia|].
  assert (He : (@AckHandler.ReceivedPacket xorEntropy
                  (@AckHandler.ReceivedPacket xorEntropy
                     AckHandler.NewReceivedPacketHandler 1 true 7).1
                  1 false 9).2 = Some AckHandler.ErrDuplicatePacket).
  { apply H1. left. vm_compute. discriminate. }
  split; [exact He|exact (H2 He)].
Defined.

(** ** The sent-packet handler *)

Section OutgoingFacts.
Import AckHandler.
Context `{!EntropyAccumulatorOps}.

(** A call of [SentPacket] that returns nil has sent the number after the
    last one. *)
Lemma SentPacket_Ok h p h' u :
  SentPacket h p = (h', Ok u) ->
  sentPacketHistory h !! PacketNumber p = None /\
  PacketNumber p = wrap64 (lastSentPacketNumber h + 1) /\
  lastSentPacketNumber h' = PacketNumber p /\
  (forall n, is_Some (sentPacketHistory h' !! n)
             <-> n = PacketNumber p \/ is_Some (sentPacketHistory h !! n)).
Proof.
  unfold SentPacket. case_bool_decide as Hin; [done|].
  case_bool_decide as Hnext; cbn [negb]; [|done].
  intros Hs.
  assert (Hnone : sentPacketHistory h !! PacketNumber p = None).
  { destruct (sentPacketHistory h !! PacketNumber p) eqn:E; [|done].
    exfalso. apply Hin. by eexists. }
  assert (Hh' : lastSentPacketNumber h' = PacketNumber p /\
                exists q, sentPacketHistory h'
                          = <[PacketNumber p := q]> (sentPacketHistory h)).
  { repeat (case_bool_decide || case_match); simplify_eq; cbn; eauto. }
  destruct Hh' as (Hlast & q & Hhist).
  repeat split; try done.
  - rewrite Hhist. intros Hsome.
    destruct (decide (n = PacketNumber p)) as [->|Hne]; [by left|].
    right. by rewrite lookup_insert_ne in Hsome.
  - rewrite Hhist. intros [->|Hsome].
    + rewrite lookup_insert_eq. by eexists.
    + destruct (decide (PacketNumber p = n)) as [->|Hne].
      * rewrite lookup_insert_eq. by eexists.
      * by rewrite lookup_insert_ne.
Qed.

Lemma SentPackets_increasing ps : forall h h',
  0 <= lastSentPacketNumber h ->
  lastSentPacketNumber h + Z.of_nat (length ps) < 2 ^ 64 ->
  SentPackets h ps = Some h' ->
  lastSentPacketNumber h' = lastSentPacketNumber h + Z.of_nat (length ps) /\
  Forall (fun n => lastSentPacketNumber h < n) (PacketNumber <$> ps) /\
  StronglySorted Z.lt (PacketNumber <$> ps) /\
  (forall n, is_Some (sentPacketHistory h' !! n)
             <-> is_Some (sentPacketHistory h !! n)
                 \/ n ∈ PacketNumber <$> ps).
Proof.
  induction ps as [|p ps IH]; intros h h' H0 Hlen Hrun; cbn in Hrun.
  - simplify_eq. cbn. repeat split; try constructor; try lia; try tauto.
    intros [?|Hin]; [done|]. by apply elem_of_nil in Hin.
  - destruct (SentPacket h p) as [h1 [u| |]] eqn:Hs; try done.
    apply SentPacket_Ok in Hs as (Hnone & Hpn & Hlast & Hhist).
    cbn [length] in Hlen.
    assert (Hpn' : PacketNumber p = lastSentPacketNumber h + 1).
    { rewrite Hpn. apply wrap64_small. lia. }
    destruct (IH h1 h') as (IH1 & IH2 & IH3 & IH4); [lia|lia|done|].
    cbn [fmap list_fmap length]. repeat split.
    + lia.
    + constructor; [lia|].
      eapply Forall_impl; [exact IH2|]. cbn. intros; lia.
    + constructor; [done|].
      eapply Forall_impl; [exact IH2|]. cbn. intros; lia.
    + rewrite IH4, Hhist, elem_of_cons. tauto.
    + rewrite IH4, Hhist, elem_of_cons. tauto.
Qed.

End OutgoingFacts.

(** C6 (sent packet numbers are not reused): in a state whose last sent
    packet number leaves room below 2^64 for the packets to come,
    [SentPacket] returns an error and leaves the handler unchanged whenever
    the packet's number is a key of the packet history or does not exceed the
    last sent packet number; and when all calls of a sequence of [SentPacket]
    calls return nil, the numbers sent are strictly increasing, above the
    last sent number, pairwise different, and the history holds exactly the
    old keys and these numbers. *)
Theorem SentPacket_never_reuses `{!AckHandler.EntropyAccumulatorOps}
    (h h' : AckHandler.outgoingPacketAckHandler) (p : AckHandler.Packet)
    (ps : list AckHandler.Packet) :
  0 <= AckHandler.lastSentPacketNumber h ->
  AckHandler.lastSentPacketNumber h + 1 + Z.of_nat (length ps) < 2 ^ 64 ->
  ((is_Some (AckHandler.sentPacketHistory h !! AckHandler.PacketNumber p)
    \/ AckHandler.PacketNumber p <= AckHandler.lastSentPacketNumber h) ->
   exists e, AckHandler.SentPacket h p = (h, Err e)) /\
  (AckHandler.SentPackets h ps = Some h' ->
   StronglySorted Z.lt (AckHandler.PacketNumber <$> ps) /\
   NoDup (AckHandler.PacketNumber <$> ps) /\
   Forall (fun n => AckHandler.lastSentPacketNumber h < n)
     (AckHandler.PacketNumber <$> ps) /\
   (forall n, is_Some (AckHandler.sentPacketHistory h' !! n)
              <-> is_Some (AckHandler.sentPacketHistory h !! n)
                  \/ n ∈ AckHandler.PacketNumber <$> ps)).
Proof.
  intros H0 Hlen. split.
  - intros Hused. unfold AckHandler.SentPacket.
    case_bool_decide as Hin; [by eexists|].
    destruct Hused as [Hused|Hle]; [done|].
    rewrite bool_decide_eq_false_2; [by eexists|].
    rewrite wrap64_small by lia. lia.
  - intros Hrun.
    destruct (SentPackets_increasing ps h h') as (_ & Habove & Hsorted & Hhist);
      [done|lia|done|].
    repeat split; try done.
    + clear -Hsorted. induction Hsorted as [|a l _ IH Ha]; constructor; [|done].
      intros Hin. rewrite Forall_forall in Ha. specialize (Ha _ Hin). lia.
    + by apply Hhist.
    + by apply Hhist.
Qed.

(** [SentPacket_never_reuses] on a new handler: packet 0 is refused, the
    packets 1 and 2 are sent. *)
Lemma SentPacket_never_reuses_witness :
  let h := AckHandler.NewOutgoingPacketAckHandler in
  let ps := [AckHandler.mkPacket 1 true 0; AckHandler.mkPacket 2 false 0] in
  (exists e, @AckHandler.SentPacket xorEntropy h (AckHandler.mkPacket 0 true 0)
             = (h, Err e)) /\
  StronglySorted Z.lt (AckHandler.PacketNumber <$> ps).
Proof.
  cbv zeta.
  destruct (@SentPacket_never_reuses xorEntropy
              AckHandler.NewOutgoingPacketAckHandler
              (default AckHandler.NewOutgoingPacketAckHandler
                 (@AckHandler.SentPackets xorEntropy
                    AckHandler.NewOutgoingPacketAckHandler
                    [AckHandler.mkPacket 1 true 0; AckHandler.mkPacket 2 false 0]))
              (AckHandler.mkPacket 0 true 0)
              [AckHandler.mkPacket 1 true 0; AckHandler.mkPacket 2 false 0])
    as [H1 H2].
  - cbn. lia.
  - cbn. lia.
  - split.
    + apply H1. right. cbn. lia.
    + apply H2. vm_compute. reflexivity.
Defined.

(** ** The NACK ranges of an ACK frame *)

Section NackRangesFacts.
Import AckHandler.
Context `{!EntropyAccumulatorOps}.

Lemma descending_snoc ranges r :
  descending (ranges ++ [r]) <->
  descending ranges /\
  Forall (fun r' => LastPacketNumber r < FirstPacketNumber r') ranges.
Proof.
  induction ranges as [|r0 ranges IH]; cbn [descending app].
  - split; [intros _|intros _]; repeat constructor.
  - rewrite Forall_app, Forall_singleton, IH, Forall_cons. tauto.
Qed.

(** Descending ranges by position: of two ranges, the one further back
    ends before the one further in front starts. *)
Lemma descending_lookup ranges i j ri rj :
  descending ranges -> (i < j)%nat ->
  ranges !! i = Some ri -> ranges !! j = Some rj ->
  LastPacketNumber rj < FirstPacketNumber ri.
Proof.
  revert i j. induction ranges as [|r ranges IH]; intros i j Hd Hij Hi Hj;
    [done|].
  destruct Hd as [Hall Hd]. destruct j as [|j]; [lia|].
  cbn in Hj. destruct i as [|i].
  - cbn in Hi. simplify_eq. rewrite Forall_forall in Hall.
    apply Hall. by eapply list_elem_of_lookup_2.
  - cbn in Hi. eapply (IH i j); [done|lia|done|done].
Qed.

Lemma decrementLastFirst_snoc ranges r :
  decrementLastFirst (ranges ++ [r])
  = ranges ++ [mkNackRange (wrap64 (FirstPacketNumber r - 1))
                 (LastPacketNumber r)].
Proof.
  unfold decrementLastFirst. rewrite length_app. cbn [length].
  replace (length ranges + 1 - 1)%nat with (length ranges + 0)%nat by lia.
  by rewrite alter_app_r.
Qed.

Lemma getNackRanges_loop_ok h fuel :
  forall i ranges inRange entropy,
    0 <= highestInOrderObserved h ->
    i <= largestObserved h -> largestObserved h < 2 ^ 64 ->
    loopInv h i ranges inRange ->
    nackRangesOk (highestInOrderObserved h) (largestObserved h)
      (getNackRanges_loop h fuel i ranges inRange entropy).1.
Proof.
  assert (Hdone : forall i ranges inRange,
    loopInv h i ranges inRange ->
    nackRangesOk (highestInOrderObserved h) (largestObserved h) ranges).
  { intros i ranges inRange (Hd & Hall & _). split; [done|].
    eapply Forall_impl; [exact Hall|]. by intros r [_ ?]. }
  induction fuel as [|fuel IH]; intros i ranges inRange entropy H0 Hi Hmax Hinv;
    cbn [getNackRanges_loop].
  { destruct (highestInOrderObserved h <? i); by eapply Hdone. }
  destruct (Z.ltb_spec (highestInOrderObserved h) i) as [Hlt|Hge];
    [|by eapply Hdone].
  assert (Hw : wrap64 (i - 1) = i - 1).
  { apply wrap64_small. lia. }
  rewrite Hw. destruct Hinv as (Hd & Hall & Hlast).
  destruct (packetHistory h !! i) as [p|].
  - apply IH; [done|lia|done|]. split; [done|]. split; [|done].
    eapply Forall_impl; [exact Hall|]. cbn. intros r [? ?]. split; [lia|done].
  - destruct inRange; cbn [negb].
    + destruct (Hlast eq_refl) as (l & r & -> & Hr).
      rewrite decrementLastFirst_snoc.
      replace (wrap64 (FirstPacketNumber r - 1)) with i
        by (rewrite Hr, wrap64_small; lia).
      apply descending_snoc in Hd as [Hdl Hdr].
      apply Forall_app in Hall as [Halll Hallr].
      apply Forall_singleton in Hallr as (_ & Hr1 & Hr2 & Hr3).
      apply IH; [done|lia|done|]. split; [|split].
      * apply descending_snoc. by split.
      * apply Forall_app. split.
        -- eapply Forall_impl; [exact Halll|]. cbn. intros ? [? ?].
           split; [lia|done].
        -- apply Forall_singleton. unfold rangeWithin. cbn. lia.
      * intros _. eexists l, _. split; [done|]. cbn. lia.
    + apply IH; [done|lia|done|]. split; [|split].
      * apply descending_snoc. split; [done|].
        eapply Forall_impl; [exact Hall|]. cbn. by intros ? [? ?].
      * apply Forall_app. split.
        -- eapply Forall_impl; [exact Hall|]. cbn. intros ? [? ?].
           split; [lia|done].
        -- apply Forall_singleton. unfold rangeWithin. cbn. lia.
      * intros _. eexists ranges, _. split; [done|]. cbn. lia.
Qed.

(** The fuel of [getNackRanges] is enough: more fuel gives the same
    ranges, the loop ends by its own condition. *)
Lemma getNackRanges_loop_fuel h fuel1 :
  forall fuel2 i ranges inRange entropy,
    0 <= highestInOrderObserved h -> i < 2 ^ 64 ->
    i - highestInOrderObserved h <= Z.of_nat fuel1 ->
    i - highestInOrderObserved h <= Z.of_nat fuel2 ->
    getNackRanges_loop h fuel1 i ranges inRange entropy
    = getNackRanges_loop h fuel2 i ranges inRange entropy.
Proof.
  induction fuel1 as [|fuel1 IH];
    intros fuel2 i ranges inRange entropy H0 Hi H1 H2;
    destruct fuel2 as [|fuel2]; cbn [getNackRanges_loop];
    destruct (Z.ltb_spec (highestInOrderObserved h) i) as [Hlt|]; try done;
    try lia.
  assert (Hw : wrap64 (i - 1) = i - 1).
  { apply wrap64_small. lia. }
  rewrite Hw.
  destruct (packetHistory h !! i), inRange; cbn [negb]; apply IH; lia.
Qed.

Lemma getNackRanges_fuel h fuel :
  0 <= highestInOrderObserved h -> largestObserved h < 2 ^ 64 ->
  (Z.to_nat (largestObserved h - highestInOrderObserved h) <= fuel)%nat ->
  getNackRanges_loop h fuel (largestObserved h) [] false
    (highestInOrderObservedEntropy h)
  = getNackRanges h.
Proof.
  intros H0 Hmax Hfuel. unfold getNackRanges.
  apply getNackRanges_loop_fuel; lia.
Qed.

Lemma getNackRanges_ok h :
  0 <= highestInOrderObserved h -> largestObserved h < 2 ^ 64 ->
  nackRangesOk (highestInOrderObserved h) (largestObserved h)
    (getNackRanges h).1.
Proof.
  intros H0 Hmax. unfold getNackRanges.
  apply getNackRanges_loop_ok; [done|lia|done|].
  split; [done|]. split; [constructor|done].
Qed.

Lemma GetAckFrame_built h dequeue h' f :
  0 <= highestInOrderObserved h -> largestObserved h < 2 ^ 64 ->
  currentAckFrame h = None ->
  GetAckFrame h dequeue = (h', Ok (Some f)) ->
  nackRangesOk (highestInOrderObserved h) (largestObserved h) (NackRanges f)
  /\ currentAckFrame h' = Some f
  /\ highestInOrderObserved h' = highestInOrderObserved h
  /\ largestObserved h' = largestObserved h.
Proof.
  intros H0 Hmax Hnone. unfold GetAckFrame.
  destruct (stateChanged h); cbn [negb]; [|done].
  destruct dequeue; cbn [currentAckFrame packetHistory largestObserved
                          highestInOrderObserved highestInOrderObservedEntropy
                          stateChanged]; rewrite Hnone.
  all: destruct (packetHistory h !! largestObserved h) as [p|]; [|done].
  all: match goal with
       | |- context [getNackRanges ?hh] =>
           pose proof (getNackRanges_ok hh H0 Hmax) as Hok;
           destruct (getNackRanges hh) as [ranges entropy]
       end.
  all: intros Heq; simplify_eq; cbn in *; (split; [exact Hok|done]).
Qed.

Lemma step_handlerInv h c :
  call_wf c -> handlerInv h -> handlerInv (step h c).
Proof.
  intros Hc (H0 & Hmax & Hcache).
  destruct c as [n e now|f|dequeue]; cbn [step call_wf] in *.
  - unfold ReceivedPacket. unfold is_uint64 in Hc.
    destruct (bool_decide (n = 0)); [done|].
    destruct ((n <=? highestInOrderObserved h)
              || bool_decide (is_Some (packetHistory h !! n))); [done|].
    destruct (Z.ltb_spec (largestObserved h) n),
      (bool_decide (n = wrap64 (highestInOrderObserved h + 1)));
      unfold handlerInv; cbn; repeat split; lia.
  - unfold ReceivedStopWaiting. unfold is_uint64 in Hc.
    destruct (Z.leb_spec (LeastUnacked f) (highestInOrderObserved h));
      cbn [fst]; [done|].
    assert (Hw : wrap64 (LeastUnacked f - 1) = LeastUnacked f - 1).
    { apply wrap64_small. lia. }
    unfold handlerInv. cbn. rewrite Hw. repeat split; try lia.
    destruct (currentAckFrame h) as [fr|]; [|done].
    destruct Hcache as (lo & Hlo & Hok). exists lo. split; [lia|done].
  - destruct (GetAckFrame h dequeue) as [h' r] eqn:Hg. cbn [fst].
    destruct (currentAckFrame h) as [fr|] eqn:Hfr.
    + unfold GetAckFrame in Hg. rewrite Hfr in Hg.
      destruct (stateChanged h), dequeue; cbn in Hg; rewrite ?Hfr in Hg;
        simplify_eq; unfold handlerInv; cbn; rewrite ?Hfr; done.
    + destruct r as [[f|]| |].
      * destruct (GetAckFrame_built h dequeue h' f) as (Hok & Hc' & Hh & Hl);
          [done|lia|done|done|].
        unfold handlerInv. rewrite Hc', Hh, Hl. repeat split; try lia.
        exists (highestInOrderObserved h). split; [lia|done].
      * unfold GetAckFrame in Hg.
        destruct (stateChanged h), dequeue; cbn in Hg; rewrite ?Hfr in Hg;
          repeat case_match; simplify_eq;
          unfold handlerInv; cbn; rewrite ?Hfr; done.
      * unfold GetAckFrame in Hg.
        destruct (stateChanged h), dequeue; cbn in Hg; rewrite ?Hfr in Hg;
          repeat case_match; simplify_eq;
          unfold handlerInv; cbn; rewrite ?Hfr; done.
      * unfold GetAckFrame in Hg.
        destruct (stateChanged h), dequeue; cbn in Hg; rewrite ?Hfr in Hg;
          repeat case_match; simplify_eq.
Qed.

Lemma reachable_handlerInv h : reachable h -> handlerInv h.
Proof.
  intros (cs & Hcs & ->). unfold run.
  assert (Hgen : forall h0, handlerInv h0 -> handlerInv (foldl step h0 cs)).
  { induction Hcs as [|c cs Hc _ IH]; intros h0 Hh0; [done|].
    cbn [foldl]. apply IH. by apply step_handlerInv. }
  apply Hgen. unfold handlerInv. cbn. lia.
Qed.

End NackRangesFacts.

Section AckCacheFacts.
Import AckHandler.
Context `{!EntropyAccumulatorOps}.

Lemma reachable_step h c : call_wf c -> reachable h -> reachable (step h c).
Proof.
  intros Hc (cs & Hcs & ->). exists (cs ++ [c]). split.
  - apply Forall_app. split; [done|by apply Forall_singleton].
  - unfold run. by rewrite foldl_app.
Qed.

Lemma reachedFrom_refl h : reachedFrom h h.
Proof. by exists []. Qed.

Lemma reachedFrom_step h1 h c :
  call_wf c -> reachedFrom h1 h -> reachedFrom h1 (step h c).
Proof.
  intros Hc (cs & Hcs & ->). exists (cs ++ [c]). split.
  - apply Forall_app. split; [done|by apply Forall_singleton].
  - by rewrite foldl_app.
Qed.

(** With a frame cached, [GetAckFrame] returns that frame or none, and
    changes at most the flag [stateChanged]. *)
Lemma GetAckFrame_cached h dequeue fr :
  currentAckFrame h = Some fr ->
  ((GetAckFrame h dequeue).2 = Ok (Some fr) \/
   (GetAckFrame h dequeue).2 = Ok None) /\
  currentAckFrame (GetAckFrame h dequeue).1 = Some fr /\
  highestInOrderObserved (GetAckFrame h dequeue).1 = highestInOrderObserved h /\
  largestObserved (GetAckFrame h dequeue).1 = largestObserved h.
Proof.
  intros Hfr. unfold GetAckFrame.
  destruct (stateChanged h), dequeue; cbn; rewrite ?Hfr; cbn; auto.
Qed.

(** Without a cached frame, [GetAckFrame] caches the frame it returns, and
    caches none when it returns none. *)
Lemma GetAckFrame_not_built h dequeue :
  currentAckFrame h = None ->
  (forall f, (GetAckFrame h dequeue).2 <> Ok (Some f)) ->
  currentAckFrame (GetAckFrame h dequeue).1 = None.
Proof.
  intros Hnone. unfold GetAckFrame.
  destruct (stateChanged h); cbn [negb]; [|done].
  destruct dequeue; cbn [currentAckFrame packetHistory largestObserved];
    rewrite Hnone.
  all: destruct (packetHistory h !! largestObserved h) as [p|]; [|done].
  all: destruct (getNackRanges _) as [ranges entropy]; cbn.
  all: intros Hno; exfalso; by eapply Hno.
Qed.

(** A call that keeps the cached frame and [largestObserved] and does not
    lower [highestInOrderObserved] keeps where the cached frame comes
    from. *)
Lemma cache_kept h c :
  call_wf c ->
  currentAckFrame (step h c) = currentAckFrame h ->
  highestInOrderObserved h <= highestInOrderObserved (step h c) ->
  largestObserved (step h c) = largestObserved h ->
  cacheInv h -> cacheInv (step h c).
Proof.
  intros Hc Hcur Hhio Hlargest [Hreach Hcache].
  split; [by apply reachable_step|]. rewrite Hcur.
  destruct (currentAckFrame h) as [fr|]; [|done].
  destruct Hcache as (h1 & Hr1 & Hfrom & Hb & Hle & Hl).
  exists h1. split; [done|]. split; [by apply reachedFrom_step|].
  split; [done|]. split; [lia|congruence].
Qed.

Lemma step_cacheInv h c : call_wf c -> cacheInv h -> cacheInv (step h c).
Proof.
  intros Hc Hinv. pose proof Hinv as [Hreach Hcache].
  destruct (reachable_handlerInv h Hreach) as (H0 & Hmax & _).
  destruct c as [n e now|sw|dequeue].
  - destruct (ReceivedPacket h n e now).2 as [err|] eqn:Herr.
    + apply cache_kept; try done; cbn [step]; revert Herr;
        unfold ReceivedPacket;
        destruct (bool_decide (n = 0)); try done;
        destruct ((n <=? highestInOrderObserved h)
                  || bool_decide (is_Some (packetHistory h !! n)));
        try done;
        destruct (bool_decide (n = wrap64 (highestInOrderObserved h + 1)));
        done.
    + split; [by apply reachable_step|]. cbn [step]. revert Herr.
      unfold ReceivedPacket.
      destruct (bool_decide (n = 0)); [done|].
      destruct ((n <=? highestInOrderObserved h)
                || bool_decide (is_Some (packetHistory h !! n))); [done|].
      by destruct (bool_decide (n = wrap64 (highestInOrderObserved h + 1))).
  - cbn [call_wf] in Hc. unfold is_uint64 in Hc.
    apply cache_kept; try done; cbn [step]; unfold ReceivedStopWaiting;
      destruct (Z.leb_spec (LeastUnacked sw) (highestInOrderObserved h));
      cbn; try done; try lia.
    rewrite wrap64_small by lia. lia.
  - destruct (currentAckFrame h) as [fr|] eqn:Hfr.
    + destruct (GetAckFrame_cached h dequeue fr Hfr) as (_ & Hc' & Hh & Hl).
      apply cache_kept; try done; cbn [step]; [congruence|lia].
    + split; [by apply reachable_step|]. cbn [step].
      destruct (GetAckFrame h dequeue) as [h' r] eqn:Hg. cbn [fst].
      destruct r as [[f|]| |].
      * destruct (GetAckFrame_built h dequeue h' f) as (_ & Hc' & Hh & Hl);
          [done|lia|done|done|].
        rewrite Hc'. exists h. split; [done|]. split.
        { replace h' with (step h (CallGetAckFrame dequeue))
            by (cbn [step]; by rewrite Hg).
          apply reachedFrom_step; [done|apply reachedFrom_refl]. }
        split; [|split; [lia|done]].
        split; [done|by exists dequeue, h'].
      * pose proof (GetAckFrame_not_built h dequeue Hfr) as Hn.
        rewrite Hg in Hn. cbn in Hn. by rewrite Hn.
      * pose proof (GetAckFrame_not_built h dequeue Hfr) as Hn.
        rewrite Hg in Hn. cbn in Hn. by rewrite Hn.
      * pose proof (GetAckFrame_not_built h dequeue Hfr) as Hn.
        rewrite Hg in Hn. cbn in Hn. by rewrite Hn.
Qed.

Lemma reachable_cacheInv h : reachable h -> cacheInv h.
Proof.
  intros (cs & Hcs & ->). unfold run.
  assert (Hgen : forall h0, cacheInv h0 -> cacheInv (foldl step h0 cs)).
  { induction Hcs as [|c cs Hc _ IH]; intros h0 Hh0; [done|].
    cbn [foldl]. apply IH. by apply step_cacheInv. }
  apply Hgen. split; [by exists []|done].
Qed.

End AckCacheFacts.

(** C5, as the code has it (NACK ranges of the frames [GetAckFrame]
    returns): in every state [h] the calls [ReceivedPacket],
    [ReceivedStopWaiting] and [GetAckFrame] reach from a new handler, a
    frame that [GetAckFrame] returns was built by [GetAckFrame] in a state
    [h1] of the same run, which is [h] itself when no frame is cached; its
    NACK ranges are in strictly descending order and pairwise disjoint, each
    is non-empty, lies at or below [largestObserved], which is the same in
    [h1] and [h], and lies strictly above the [highestInOrderObserved] of
    [h1], which the one of [h] has not fallen below. *)
Theorem GetAckFrame_nack_ranges `{!AckHandler.EntropyAccumulatorOps}
    (h h' : AckHandler.receivedPacketHandler) (dequeue : bool)
    (f : AckHandler.AckFrame) :
  AckHandler.reachable h ->
  AckHandler.GetAckFrame h dequeue = (h', Ok (Some f)) ->
  exists h1,
    AckHandler.reachable h1 /\ reachedFrom h1 h /\ builtAt h1 f /\
    (AckHandler.currentAckFrame h = None -> h1 = h) /\
    AckHandler.highestInOrderObserved h1
    <= AckHandler.highestInOrderObserved h /\
    AckHandler.largestObserved h1 = AckHandler.largestObserved h /\
    nackRangesOk (AckHandler.highestInOrderObserved h1)
      (AckHandler.largestObserved h) (AckHandler.NackRanges f).
Proof.
  intros Hreach Hget.
  assert (Hbuilt : forall h1, AckHandler.reachable h1 -> builtAt h1 f ->
            nackRangesOk (AckHandler.highestInOrderObserved h1)
              (AckHandler.largestObserved h1) (AckHandler.NackRanges f)).
  { intros h1 Hr1 (Hnone & dq & h1' & Hg).
    destruct (reachable_handlerInv h1 Hr1) as (H0 & Hmax & _).
    by destruct (GetAckFrame_built h1 dq h1' f) as (Hok & _);
      [done|lia|done|done|]. }
  destruct (reachable_cacheInv h Hreach) as [_ Hcache].
  destruct (AckHandler.currentAckFrame h) as [fr|] eqn:Hfr.
  - destruct Hcache as (h1 & Hr1 & Hfrom & Hb & Hle & Hl).
    assert (f = fr) as ->.
    { destruct (GetAckFrame_cached h dequeue fr Hfr) as ([Hr|Hr] & _);
        rewrite Hget in Hr; cbn in Hr; by simplify_eq. }
    exists h1. split; [done|]. split; [done|]. split; [done|].
    split; [done|]. split; [done|]. split; [done|].
    rewrite <- Hl. by apply Hbuilt.
  - assert (Hb : builtAt h f) by (split; [done|by exists dequeue, h']).
    exists h. split; [done|]. split; [apply reachedFrom_refl|].
    split; [done|]. split; [done|]. split; [lia|]. split; [done|].
    by apply Hbuilt.
Qed.

Lemma staleCacheCalls_reachable :
  @AckHandler.reachable xorEntropy (@AckHandler.run xorEntropy staleCacheCalls).
Proof.
  exists staleCacheCalls. split; [|done].
  unfold staleCacheCalls. repeat constructor; cbn; unfold is_uint64; lia.
Qed.

(** [GetAckFrame_nack_ranges] on the state the calls of the example reach:
    the cached frame was built when [highestInOrderObserved] was 1. *)
Lemma GetAckFrame_nack_ranges_witness :
  let h := @AckHandler.run xorEntropy staleCacheCalls in
  let f := AckHandler.mkAckFrame 3 0 [AckHandler.mkNackRange 2 2] 11 in
  exists h1,
    @AckHandler.reachable xorEntropy h1 /\
    @reachedFrom xorEntropy h1 h /\
    @builtAt xorEntropy h1 f /\
    (AckHandler.currentAckFrame h = None -> h1 = h) /\
    AckHandler.highestInOrderObserved h1 <= 2 /\
    AckHandler.largestObserved h1 = 3 /\
    nackRangesOk (AckHandler.highestInOrderObserved h1) 3
      [AckHandler.mkNackRange 2 2].
Proof.
  cbv zeta.
  apply (@GetAckFrame_nack_ranges xorEntropy
           (@AckHandler.run xorEntropy staleCacheCalls)
           (@AckHandler.run xorEntropy staleCacheCalls) false
           (AckHandler.mkAckFrame 3 0 [AckHandler.mkNackRange 2 2] 11)).
  - exists staleCacheCalls. split; [|reflexivity].
    unfold staleCacheCalls. repeat constructor; cbn; unfold is_uint64; lia.
  - vm_compute. reflexivity.
Defined.

(** C5, as the spec states it, fails: after the calls above the handler has
    [highestInOrderObserved = 2], and [GetAckFrame] returns the cached frame
    with the NACK range from 2 to 2, which does not lie strictly above 2. *)
Lemma GetAckFrame_stale_nack_range :
  let h := @AckHandler.run xorEntropy staleCacheCalls in
  @AckHandler.reachable xorEntropy h /\
  AckHandler.highestInOrderObserved h = 2 /\
  exists f,
    @AckHandler.GetAckFrame xorEntropy h false = (h, Ok (Some f)) /\
    AckHandler.NackRanges f = [AckHandler.mkNackRange 2 2] /\
    ~ nackRangesOk (AckHandler.highestInOrderObserved h)
        (AckHandler.largestObserved h) (AckHandler.NackRanges f).
Proof.
  cbv zeta. split; [exact staleCacheCalls_reachable|].
  split; [reflexivity|].
  exists (AckHandler.mkAckFrame 3 0 [AckHandler.mkNackRange 2 2] 11).
  split; [vm_compute; reflexivity|]. split; [reflexivity|].
  intros [_ Hall]. apply Forall_cons in Hall as [(Hlo & _) _].
  vm_compute in Hlo. discriminate.
Qed.

(** ** The connection parameters *)

Section ConnectionParametersFacts.
Import Utils Handshake.
Context `{!protocolConstants}.


Lemma MinDuration_min a b : MinDuration a b = Z.min a b.
Proof. unfold MinDuration. destruct (Z.ltb_spec b a); lia. Qed.





End ConnectionParametersFacts.




(** ** The crypto setup *)

Section CryptoSetupFacts.
Import Handshake.
Variable NullAEAD : AEAD.

(** Once a forward-secure packet has been received, the forward-secure
    AEAD alone answers. *)
Lemma runCalls_forward_secure a cs : forall h,
  forwardSecureAEAD h = Some a ->
  receivedForwardSecurePacket h = true ->
  runCalls NullAEAD h cs = forwardSecureReply a <$> cs.
Proof.
  induction cs as [|c cs IH]; intros h Hfs Hrecv; [done|].
  destruct c as [pn ad ct|pn ad pt]; cbn [runCalls fmap list_fmap forwardSecureReply].
  - unfold Open. rewrite Hfs, Hrecv.
    destruct (aeadOpen a pn ad ct) as [res|e|m]; f_equal; by apply IH.
  - unfold Seal. rewrite Hfs, Hrecv. f_equal. by apply IH.
Qed.

End CryptoSetupFacts.

(** C10 (no way back from the forward-secure level): when the crypto setup
    holds a forward-secure AEAD and that AEAD opens a packet, [Open] returns
    its plaintext, and of all the calls of [Open] and [Seal] that follow,
    each [Open] returns what the forward-secure AEAD returns, also when that
    is an error, and each [Seal] returns what the forward-secure AEAD
    seals. *)
Theorem Open_forward_secure_is_final (NullAEAD : Handshake.AEAD)
    (h : Handshake.CryptoSetup) (a : Handshake.AEAD)
    (packetNumber : Z) (associatedData ciphertext plaintext : list Z)
    (later : list Handshake.call) :
  Handshake.forwardSecureAEAD h = Some a ->
  Handshake.aeadOpen a packetNumber associatedData ciphertext = Ok plaintext ->
  (Handshake.Open NullAEAD h packetNumber associatedData ciphertext).2
  = Ok plaintext /\
  Handshake.runCalls NullAEAD
    (Handshake.Open NullAEAD h packetNumber associatedData ciphertext).1 later
  = Handshake.forwardSecureReply a <$> later.
Proof.
  intros Hfs Hopen. unfold Handshake.Open. rewrite Hfs, Hopen. cbn [fst snd].
  split; [done|]. by apply runCalls_forward_secure.
Qed.

(** [Open_forward_secure_is_final] on a crypto setup with all three AEADs:
    after a forward-secure packet, packets that only the secure or the null
    AEAD could open are refused. *)
Lemma Open_forward_secure_is_final_witness :
  let h := Handshake.mkCryptoSetup (Some (toyAEAD 1)) (Some (toyAEAD 2))
             false false in
  let h1 := (Handshake.Open (toyAEAD 0) h 7 [] [2; 5]).1 in
  Handshake.runCalls (toyAEAD 0) h1
    [Handshake.CallOpen 8 [] [1; 5]; Handshake.CallOpen 9 [] [0; 5];
     Handshake.CallSeal 10 [] [4]]
  = [Err (errorsNew "message authentication failed");
     Err (errorsNew "message authentication failed");
     Ok [2; 6]].
Proof.
  cbv zeta.
  refine (eq_trans (proj2 (Open_forward_secure_is_final (toyAEAD 0)
    (Handshake.mkCryptoSetup (Some (toyAEAD 1)) (Some (toyAEAD 2)) false false)
    (toyAEAD 2) 7 [] [2; 5] [3]
    [Handshake.CallOpen 8 [] [1; 5]; Handshake.CallOpen 9 [] [0; 5];
     Handshake.CallSeal 10 [] [4]] _ _)) _).
  - reflexivity.
  - reflexivity.
  - reflexivity.
Defined.

(** ** The packet packer *)

Section PackerFacts.
Import Packer.
Context {SF Sealer : Type} `{!packerEnv SF Sealer}.

Lemma QueueControlFrameForNextPacket_noStopWaiting (p : packetPacker SF) f :
  noStopWaiting (controlFrames p) ->
  noStopWaiting (controlFrames (QueueControlFrameForNextPacket p f)).
Proof.
  unfold noStopWaiting. intros Hp.
  destruct f; cbn; try done; apply Forall_app; by split; [|repeat constructor].
Qed.

(** The loop over the control frames moves frames from the end of
    [controlFrames] to the end of the payload. *)
Lemma controlFramesLoop_moves fuel maxFrameSize :
  forall cf payload len cf' payload' len',
    controlFramesLoop fuel maxFrameSize cf payload len
    = (cf', Ok (payload', len')) ->
    exists moved, cf = cf' ++ reverse moved /\ payload' = payload ++ moved.
Proof.
  induction fuel as [|fuel IH]; intros cf payload len cf' payload' len' Hl;
    cbn [controlFramesLoop] in Hl.
  { simplify_eq. exists []. by rewrite !app_nil_r. }
  destruct (last cf) as [frame|] eqn:Hlast;
    [|simplify_eq; exists []; by rewrite !app_nil_r].
  apply last_Some in Hlast as [cf0 ->].
  destruct (MinLength frame) as [minLength| |]; try done.
  destruct (maxFrameSize <? wrap64 (len + minLength));
    [simplify_eq; exists []; by rewrite !app_nil_r|].
  rewrite removelast_last in Hl.
  apply IH in Hl as (moved & -> & ->).
  exists (frame :: moved). rewrite reverse_cons, <- !app_assoc. done.
Qed.

Lemma composeNextPacket_stopWaiting (p : packetPacker SF) maxFrameSize can :
  stopWaiting (composeNextPacket p maxFrameSize can).1 = stopWaiting p.
Proof.
  unfold composeNextPacket.
  repeat (case_match; simplify_eq; cbn [fst stopWaiting]); done.
Qed.

Lemma composeNextPacket_noStopWaiting (p p' : packetPacker SF)
    maxFrameSize can payload :
  stopWaiting p = None ->
  noStopWaiting (controlFrames p) ->
  composeNextPacket p maxFrameSize can = (p', Ok payload) ->
  noStopWaiting payload.
Proof.
  unfold composeNextPacket, noStopWaiting. intros -> Hcf.
  destruct (controlFramesLoop _ _ _ _ _) as [cf r] eqn:Hloop.
  destruct r as [[payload0 len]| |]; try done.
  apply controlFramesLoop_moves in Hloop as (moved & Hcfeq & ->).
  rewrite Hcfeq in Hcf. apply Forall_app in Hcf as [_ Hmoved].
  rewrite Forall_reverse in Hmoved. cbn [app] in *.
  destruct (maxFrameSize <? len); [done|].
  destruct can; cbn [negb]; [|intros; by simplify_eq].
  destruct (PopStreamFrames _ _) as [fs sf].
  destruct (PopBlockedFrames sf) as [bs sf'].
  intros Heq. simplify_eq. apply Forall_app. split; [done|].
  apply Forall_fmap. by apply Forall_true.
Qed.

(** The fuel of the loop over the control frames is enough: more fuel
    than there are control frames changes nothing. *)
Lemma controlFramesLoop_fuel maxFrameSize fuel1 :
  forall fuel2 cf payload len,
    (length cf <= fuel1)%nat -> (length cf <= fuel2)%nat ->
    controlFramesLoop fuel1 maxFrameSize cf payload len
    = controlFramesLoop fuel2 maxFrameSize cf payload len.
Proof.
  induction fuel1 as [|fuel1 IH]; intros fuel2 cf payload len H1 H2;
    destruct fuel2 as [|fuel2]; cbn [controlFramesLoop]; try done.
  - destruct cf; [done|cbn in H1; lia].
  - destruct cf; [done|cbn in H2; lia].
  - destruct (last cf) as [frame|] eqn:Hlast; [|done].
    apply last_Some in Hlast as [cf0 ->].
    destruct (MinLength frame); try done.
    destruct (_ <? _); [done|].
    rewrite removelast_last. rewrite length_app in H1, H2. cbn in H1, H2.
    apply IH; lia.
Qed.

(** Whatever the loop returns, the control frames left are the front of
    the ones it started with. *)
Lemma controlFramesLoop_prefix fuel maxFrameSize :
  forall cf payload len cf' r,
    controlFramesLoop fuel maxFrameSize cf payload len = (cf', r) ->
    exists taken, cf = cf' ++ taken.
Proof.
  induction fuel as [|fuel IH]; intros cf payload len cf' r Hl;
    cbn [controlFramesLoop] in Hl.
  { simplify_eq. exists []. by rewrite app_nil_r. }
  destruct (last cf) as [frame|] eqn:Hlast;
    [|simplify_eq; exists []; by rewrite app_nil_r].
  apply last_Some in Hlast as [cf0 ->].
  destruct (MinLength frame) as [minLength| |];
    try (simplify_eq; exists []; by rewrite app_nil_r).
  destruct (maxFrameSize <? wrap64 (len + minLength));
    [simplify_eq; exists []; by rewrite app_nil_r|].
  rewrite removelast_last in Hl.
  apply IH in Hl as (taken & ->).
  exists (taken ++ [frame]). by rewrite app_assoc.
Qed.

Lemma composeNextPacket_keeps_noStopWaiting (p : packetPacker SF)
    maxFrameSize can :
  (forall swf, stopWaiting p = Some swf ->
     exists minLength,
       MinLength (FStopWaiting swf) = Ok minLength /\
       wrap64 (0 + minLength) <= maxFrameSize) ->
  noStopWaiting (controlFrames p) ->
  noStopWaiting (controlFrames (composeNextPacket p maxFrameSize can).1).
Proof.
  unfold noStopWaiting. intros Hfit Hcf.
  assert (Hleft : forall cf r,
    controlFramesLoop
      (length match stopWaiting p with
              | Some swf => controlFrames p ++ [FStopWaiting swf]
              | None => controlFrames p
              end) maxFrameSize
      match stopWaiting p with
      | Some swf => controlFrames p ++ [FStopWaiting swf]
      | None => controlFrames p
      end [] 0 = (cf, r) ->
    Forall (fun f => isStopWaiting f = false) cf).
  { intros cf r Hloop. destruct (stopWaiting p) as [swf|].
    - destruct (Hfit swf eq_refl) as (minLength & Hmin & Hle).
      rewrite length_app, Nat.add_comm in Hloop.
      cbn [length Nat.add controlFramesLoop] in Hloop.
      rewrite last_snoc, Hmin in Hloop.
      destruct (Z.ltb_spec maxFrameSize (wrap64 (0 + minLength))); [lia|].
      rewrite removelast_last in Hloop.
      apply controlFramesLoop_prefix in Hloop as (taken & Heq).
      rewrite Heq in Hcf. by apply Forall_app in Hcf as [? _].
    - apply controlFramesLoop_prefix in Hloop as (taken & Heq).
      rewrite Heq in Hcf. by apply Forall_app in Hcf as [? _]. }
  unfold composeNextPacket.
  destruct (controlFramesLoop _ _ _ _ _) as [cf r].
  specialize (Hleft cf r eq_refl).
  destruct r as [[payload len]| |]; cbn [fst controlFrames]; try done.
  destruct (maxFrameSize <? len); [done|].
  destruct can; cbn [negb]; [|done].
  destruct (PopStreamFrames _ _) as [fs sf].
  destruct (PopBlockedFrames sf) as [bs sf'].
  cbn [fst controlFrames]. apply Forall_app. split; [done|].
  apply Forall_fmap. by apply Forall_true.
Qed.

Lemma writeAndSealPacket_controlFrames (p : packetPacker SF) ph payload sealer :
  controlFrames (writeAndSealPacket p ph payload sealer).1 = controlFrames p.
Proof.
  unfold writeAndSealPacket.
  repeat (case_match; simplify_eq; cbn [fst controlFrames]); done.
Qed.

Lemma sendPayload_controlFrames (p : packetPacker SF) ph encLevel sealer payload :
  controlFrames (sendPayload p ph encLevel sealer payload).1 = controlFrames p.
Proof.
  unfold sendPayload.
  destruct (bool_decide (length payload = 0%nat)); [done|].
  destruct (bool_decide (length payload = 1%nat)
            && bool_decide (is_Some (stopWaiting p))); [done|].
  match goal with
  | |- context [writeAndSealPacket ?q ?a ?b ?c] =>
      pose proof (writeAndSealPacket_controlFrames q a b c) as Hw;
      destruct (writeAndSealPacket q a b c) as [p4 [raw| |]]
  end; by cbn in *.
Qed.

(** While a STOP_WAITING frame fits, [packPacket] leaves no STOP_WAITING
    frame among the control frames: with
    [QueueControlFrameForNextPacket_noStopWaiting], the condition of
    [packPacket_frames] below holds in every state of the packer. *)
Lemma packPacket_keeps_noStopWaiting (p : packetPacker SF) leastUnacked hp :
  stopWaitingFits ->
  noStopWaiting (controlFrames p) ->
  noStopWaiting (controlFrames (packPacket p leastUnacked hp).1).
Proof.
  intros Hfit Hclean. unfold packPacket.
  set (p1 := mkPacketPacker _ _ _ _ _).
  destruct (match hp with Some _ => _ | None => _ end)
    as [[encLevel sealer]| |]; try done.
  destruct (GetLength _ _) as [publicHeaderLength| |] eqn:Hlen; try done.
  assert (Hp1 : noStopWaiting (controlFrames p1)) by done.
  destruct hp as [hp|].
  - destruct (stopWaiting p1); [|done].
    by rewrite sendPayload_controlFrames.
  - destruct (HasCryptoStreamFrame (streamFramer p)).
    + destruct (PopCryptoStreamFrame _ _) as [f sf].
      by rewrite sendPayload_controlFrames.
    + pose proof (composeNextPacket_keeps_noStopWaiting p1
        (wrap64 (MaxFrameAndPublicHeaderSize - publicHeaderLength))
        (canSendData p1 encLevel)) as Hkeep.
      destruct (composeNextPacket p1 _ _) as [p2 r].
      cbn [fst] in Hkeep.
      assert (Hp2 : noStopWaiting (controlFrames p2)).
      { apply Hkeep; [|done]. intros swf _. by eapply Hfit. }
      destruct r as [payload| |]; try done.
      by rewrite sendPayload_controlFrames.
Qed.

(** The packet of [PackConnectionClose] carries the CONNECTION_CLOSE frame
    and nothing else. *)
Lemma PackConnectionClose_frames (p : packetPacker SF) ccf leastUnacked :
  frames (PackConnectionClose p ccf leastUnacked).1.2 = [FControl ccf].
Proof.
  unfold PackConnectionClose. destruct GetSealer as [encLevel sealer].
  by destruct (writeAndSealPacket _ _ _ _).
Qed.

(** A packet is sent with the payload composed, which is not empty, and
    which has more than one frame while a STOP_WAITING frame is held. *)
Lemma sendPayload_frames (q p' : packetPacker SF) publicHeader encLevel
    sealer payload packet :
  sendPayload q publicHeader encLevel sealer payload = (p', Ok (Some packet)) ->
  frames packet = payload /\ payload <> [] /\
  (length payload = 1%nat -> stopWaiting q = None).
Proof.
  unfold sendPayload.
  case_bool_decide as Hlen0; [done|].
  destruct (bool_decide (length payload = 1%nat)
            && bool_decide (is_Some (stopWaiting q))) eqn:Hlen1; [done|].
  destruct (writeAndSealPacket _ _ _ _) as [p4 [raw| |]]; try done.
  intros Heq. simplify_eq. cbn [frames]. split; [done|]. split.
  - intros ->. by apply Hlen0.
  - intros Hone. apply andb_false_iff in Hlen1 as [Hl|Hs].
    + by apply bool_decide_eq_false_1 in Hl.
    + apply bool_decide_eq_false_1 in Hs.
      destruct (stopWaiting q); [|done]. exfalso. apply Hs. by eexists.
Qed.

End PackerFacts.

(** C8 (no empty packet, no packet of a lone STOP_WAITING frame): when the
    control frames queued hold no STOP_WAITING frame, a packet that
    [packPacket] returns has at least one frame, and its frames are not a
    single STOP_WAITING frame. *)
Theorem packPacket_frames {SF Sealer : Type} `{!Packer.packerEnv SF Sealer}
    (p p' : Packer.packetPacker SF) (leastUnacked : Z)
    (handshakePacketToRetransmit : option Packer.RetransmitPacket)
    (packet : Packer.packedPacket) :
  noStopWaiting (Packer.controlFrames p) ->
  Packer.packPacket p leastUnacked handshakePacketToRetransmit
  = (p', Ok (Some packet)) ->
  Packer.frames packet <> [] /\
  forall swf, Packer.frames packet <> [Packer.FStopWaiting swf].
Proof.
  intros Hclean. unfold Packer.packPacket.
  set (p1 := Packer.mkPacketPacker _ _ _ _ _).
  destruct (match handshakePacketToRetransmit with
            | Some hp => _ | None => _ end) as [[encLevel sealer]| |];
    try done.
  destruct (Packer.GetLength _ _) as [publicHeaderLength| |]; try done.
  assert (Hp1 : noStopWaiting (Packer.controlFrames p1)) by done.
  destruct handshakePacketToRetransmit as [hp|].
  - destruct (Packer.stopWaiting p1) as [swf|] eqn:Hsw; [|done].
    intros Hsend. apply sendPayload_frames in Hsend as (-> & Hne & Hone).
    split; [done|]. intros swf' Heq. rewrite Heq in Hone.
    specialize (Hone eq_refl). congruence.
  - destruct (Packer.HasCryptoStreamFrame (Packer.streamFramer p)).
    + destruct (Packer.PopCryptoStreamFrame _ _) as [f sf].
      intros Hsend. apply sendPayload_frames in Hsend as (-> & Hne & Hone).
      split; [done|]. intros swf. discriminate.
    + destruct (Packer.composeNextPacket p1 _ _) as [p2 r] eqn:Hcompose.
      destruct r as [payload| |]; try done.
      intros Hsend. apply sendPayload_frames in Hsend as (-> & Hne & Hone).
      split; [done|]. intros swf Heq. rewrite Heq in Hone.
      specialize (Hone eq_refl).
      assert (Hsw : Packer.stopWaiting p1 = None).
      { rewrite <- (composeNextPacket_stopWaiting p1
          (wrap64 (Packer.MaxFrameAndPublicHeaderSize - publicHeaderLength))
          (Packer.canSendData p1 encLevel)).
        by rewrite Hcompose. }
      pose proof (composeNextPacket_noStopWaiting _ _ _ _ _ Hsw Hp1 Hcompose)
        as Hpay.
      rewrite Heq in Hpay. unfold noStopWaiting in Hpay.
      inversion Hpay as [|? ? Hswf _]. cbn in Hswf. discriminate.
Qed.

(** [packPacket_frames] on a packer with one control frame and a
    STOP_WAITING frame. *)
Lemma packPacket_frames_witness :
  let p := Packer.mkPacketPacker Packer.PerspectiveServer 1 tt
             [Packer.FControl 7] (Some (Packer.mkStopWaitingFrame 10 0 0)) in
  exists packet,
    (@Packer.packPacket unit unit exampleEnv p 5 None).2 = Ok (Some packet) /\
    Packer.frames packet
    = [Packer.FStopWaiting (Packer.mkStopWaitingFrame 10 1 2);
       Packer.FControl 7] /\
    Packer.frames packet <> [] /\
    forall swf, Packer.frames packet <> [Packer.FStopWaiting swf].
Proof.
  cbv zeta.
  exists (Packer.mkPackedPacket 1 []
            [Packer.FStopWaiting (Packer.mkStopWaitingFrame 10 1 2);
             Packer.FControl 7] Packer.EncryptionForwardSecure).
  split; [vm_compute; reflexivity|]. split; [reflexivity|].
  apply (@packPacket_frames unit unit exampleEnv
           (Packer.mkPacketPacker Packer.PerspectiveServer 1 tt
              [Packer.FControl 7] (Some (Packer.mkStopWaitingFrame 10 0 0)))
           (@Packer.packPacket unit unit exampleEnv
              (Packer.mkPacketPacker Packer.PerspectiveServer 1 tt
                 [Packer.FControl 7] (Some (Packer.mkStopWaitingFrame 10 0 0)))
              5 None).1
           5 None).
  - repeat constructor.
  - vm_compute. reflexivity.
Defined.

(** ** Handshake messages *)

Section HandshakeMessageFacts.
Import Utils Handshake.

Lemma lor_shiftl_add a b n :
  0 <= n -> 0 <= a < 2 ^ n -> 0 <= b -> Z.lor a (Z.shiftl b n) = a + b * 2 ^ n.
Proof.
  intros Hn Ha Hb. rewrite <- lxor_shiftl_add by done.
  symmetry. apply Z.lxor_lor.
  apply Z.bits_inj'. intros k Hk. rewrite Z.land_spec, Z.bits_0.
  destruct (decide (k < n)) as [Hlt|Hge].
  - rewrite (Z.shiftl_spec_low b n k) by done. apply andb_false_r.
  - destruct (decide (a = 0)) as [->|Hne]; [by rewrite Z.bits_0|].
    rewrite (Z.bits_above_log2 a k); [done|lia|].
    assert (Z.log2 a < n) by (apply Z.log2_lt_pow2; lia). lia.
Qed.

Lemma put32_length v : length (put32 v) = 4%nat.
Proof. done. Qed.

Lemma leUint32_put32 v rest :
  is_uint32 v -> leUint32 (put32 v ++ rest) = Some v.
Proof.
  unfold is_uint32. change (2 ^ 32) with 4294967296. intros Hv.
  unfold put32, leUint32. cbn [app]. f_equal.
  unfold wrap8, wrap32. rewrite !Z.shiftr_div_pow2 by lia.
  change (2 ^ 8) with 256. change (2 ^ 16) with 65536.
  change (2 ^ 24) with 16777216. change (2 ^ 32) with 4294967296.
  pose proof (Z.mod_pos_bound v 256 ltac:(lia)) as H0.
  pose proof (Z.mod_pos_bound (v / 256) 256 ltac:(lia)) as H1.
  pose proof (Z.mod_pos_bound (v / 65536) 256 ltac:(lia)) as H2.
  pose proof (Z.mod_pos_bound (v / 16777216) 256 ltac:(lia)) as H3.
  pose proof (le32_sum v ltac:(unfold is_uint32; lia)) as Hsum.
  set (b0 := v mod 256) in *. set (b1 := (v / 256) mod 256) in *.
  set (b2 := (v / 65536) mod 256) in *.
  set (b3 := (v / 16777216) mod 256) in *.
  rewrite (Z.shiftl_mul_pow2 b1 8), (Z.mod_small (b1 * 2 ^ 8)) by lia.
  rewrite <- (Z.shiftl_mul_pow2 b1 8), lor_shiftl_add by lia.
  rewrite (Z.shiftl_mul_pow2 b2 16), (Z.mod_small (b2 * 2 ^ 16)) by lia.
  rewrite <- (Z.shiftl_mul_pow2 b2 16), lor_shiftl_add by lia.
  rewrite (Z.shiftl_mul_pow2 b3 24), (Z.mod_small (b3 * 2 ^ 24)) by lia.
  rewrite <- (Z.shiftl_mul_pow2 b3 24), lor_shiftl_add by lia.
  lia.
Qed.

Lemma put32_le32 v : is_uint32 v -> put32 v = le32 v.
Proof.
  unfold is_uint32. change (2 ^ 32) with 4294967296. intros Hv.
  unfold put32, le32, wrap8. rewrite !land_255, !Z.shiftr_div_pow2 by lia.
  change (2 ^ 8) with 256. change (2 ^ 16) with 65536.
  change (2 ^ 24) with 16777216.
  rewrite !(Z.mod_small (_ mod 256) 256) by (apply Z.mod_pos_bound; lia).
  done.
Qed.

(** [putUint32] on zeros that follow what has been written. *)
Lemma putUint32_zeros done k v :
  putUint32 (done ++ replicate (4 + k) 0) (length done) v
  = (done ++ put32 v) ++ replicate k 0.
Proof.
  assert (Hshift : forall l,
    putUint32 (done ++ l) (length done) v = done ++ putUint32 l 0 v).
  { intros l. unfold putUint32. cbn [Nat.add].
    rewrite !insert_app_r_alt by lia.
    replace (length done - length done)%nat with 0%nat by lia.
    replace (length done + 1 - length done)%nat with 1%nat by lia.
    replace (length done + 2 - length done)%nat with 2%nat by lia.
    replace (length done + 3 - length done)%nat with 3%nat by lia.
    done. }
  rewrite Hshift. unfold putUint32, put32. cbn. by rewrite <- app_assoc.
Qed.

Lemma indexOf_length data tags offset :
  length (indexOf data tags offset) = (8 * length tags)%nat.
Proof.
  revert offset. induction tags as [|t tags IH]; intros offset; [done|].
  cbn [indexOf]. rewrite !length_app, !put32_length, IH. cbn [length]. lia.
Qed.

Lemma writePairs_spec data tags : forall i offset b done k,
  length done = (8 * i)%nat ->
  writePairs data tags i offset b (done ++ replicate (8 * length tags + k) 0)
  = (b ++ valuesOf data tags,
     done ++ indexOf data tags offset ++ replicate k 0).
Proof.
  induction tags as [|t tags IH]; intros i offset b done k Hlen.
  - cbn. by rewrite app_nil_r.
  - cbn [writePairs length indexOf valuesOf fmap list_fmap concat].
    rewrite <- (Nat.mul_comm 8 i), <- Hlen.
    replace (8 * S (length tags) + k)%nat
      with (4 + (4 + (8 * length tags + k)))%nat by lia.
    rewrite putUint32_zeros.
    replace (length done + 4)%nat with (length (done ++ put32 t))
      by (rewrite length_app, put32_length; lia).
    rewrite putUint32_zeros.
    rewrite IH by (rewrite !length_app, !put32_length; lia).
    by rewrite <- !app_assoc.
Qed.

(** The bytes [WriteHandshakeMessage] appends: the message tag, the number
    of pairs in 16 bits, 16 zero bits, the index of tags and end offsets by
    increasing tag, and the values in that order. *)
Lemma WriteHandshakeMessage_bytes b messageTag data :
  Z.of_nat (size data) < 2 ^ 16 ->
  WriteHandshakeMessage b messageTag data
  = b ++ le32 (wrap32 messageTag) ++ le16 (wrap16 (Z.of_nat (size data)))
      ++ le16 0 ++ indexOf data (sortedTags data) 0
      ++ valuesOf data (sortedTags data).
Proof.
  intros Hsize. unfold WriteHandshakeMessage.
  rewrite WriteUint32_le32, !WriteUint16_le16.
  fold (sortedTags data).
  assert (Hn : length (sortedTags data) = size data).
  { unfold sortedTags. rewrite merge_sort_Permutation.
    by rewrite !length_fmap, length_map_to_list. }
  pose proof (writePairs_spec data (sortedTags data) 0 0
    ((((b ++ le32 (wrap32 messageTag))
       ++ le16 (wrap16 (Z.of_nat (size data)))) ++ le16 0)
     ++ replicate (8 * size data) 0) [] 0 eq_refl) as Hw.
  rewrite Nat.add_0_r, Hn in Hw. cbn [app] in Hw. rewrite Hw.
  rewrite app_nil_r.
  set (hdr := ((b ++ le32 (wrap32 messageTag))
               ++ le16 (wrap16 (Z.of_nat (size data)))) ++ le16 0).
  rewrite <- (app_assoc hdr).
  rewrite take_app_length, drop_app_add', take_ge.
  - rewrite drop_app_length'; [|by rewrite length_replicate, indexOf_length, Hn].
    subst hdr. by rewrite <- !app_assoc.
  - rewrite !length_app, length_replicate, indexOf_length, Hn. lia.
  - done.
Qed.

Lemma sliceOf_app pre x post :
  sliceOf (pre ++ x ++ post) (Z.of_nat (length pre))
    (Z.of_nat (length pre) + Z.of_nat (length x)) = Some x.
Proof.
  unfold sliceOf.
  rewrite !(proj2 (Z.leb_le _ _)) by (rewrite ?length_app; lia). cbn [andb].
  f_equal. rewrite Nat2Z.id, drop_app_length.
  replace (Z.to_nat (Z.of_nat (length pre) + Z.of_nat (length x)
                     - Z.of_nat (length pre))) with (length x) by lia.
  by rewrite take_app_length.
Qed.

Lemma insertTags_lookup data tags : forall m k,
  insertTags data tags m !! k
  = if decide (k ∈ tags) then Some (default [] (data !! k)) else m !! k.
Proof.
  induction tags as [|t tags IH]; intros m k; cbn [insertTags foldl].
  - by rewrite decide_False by apply not_elem_of_nil.
  - fold (insertTags data tags (<[t := default [] (data !! t)]> m)).
    rewrite IH. destruct (decide (k ∈ tags)) as [Hin|Hnotin].
    + by rewrite decide_True by (by right).
    + destruct (decide (k = t)) as [->|Hne].
      * rewrite lookup_insert_eq. by rewrite decide_True by left.
      * rewrite lookup_insert_ne by done.
        rewrite decide_False; [done|]. by intros [?|?]%elem_of_cons.
Qed.

Lemma parsePairs_spec data tags : forall fuel nPairs pre offset m rest,
  Forall is_uint32 tags ->
  0 <= offset ->
  offset + Z.of_nat (length (valuesOf data tags)) < 2 ^ 32 ->
  nPairs * 8 = Z.of_nat (length pre) + 8 * Z.of_nat (length tags) ->
  (length tags <= fuel)%nat ->
  parsePairs fuel nPairs (pre ++ indexOf data tags offset)
    (Z.of_nat (length pre)) offset m (valuesOf data tags ++ rest)
  = Ok (insertTags data tags m, rest).
Proof.
  induction tags as [|t tags IH];
    intros fuel nPairs pre offset m rest Htags H0 Hsum Hn Hfuel.
  - cbn [length] in Hn. destruct fuel; cbn [parsePairs];
      rewrite (proj2 (Z.ltb_ge _ _)) by lia; done.
  - destruct fuel as [|fuel]; [cbn in Hfuel; lia|].
    apply Forall_cons in Htags as [Ht Htags].
    cbn [length] in Hn, Hfuel. cbn [parsePairs].
    rewrite (proj2 (Z.ltb_lt _ _)) by lia.
    cbn [indexOf valuesOf fmap list_fmap concat] in *.
    set (v := default [] (data !! t)) in *.
    rewrite length_app in Hsum.
    assert (Hoff : wrap32 (offset + wrap32 (Z.of_nat (length v)))
                   = offset + Z.of_nat (length v)).
    { unfold wrap32. rewrite (Z.mod_small (Z.of_nat _)) by lia.
      apply Z.mod_small. lia. }
    rewrite Hoff.
    pose proof (sliceOf_app pre (put32 t)
      (put32 (offset + Z.of_nat (length v))
       ++ indexOf data tags (offset + Z.of_nat (length v)))) as Hs1.
    rewrite put32_length in Hs1. change (Z.of_nat 4) with 4 in Hs1.
    rewrite Hs1. cbn [mbind option_bind].
    rewrite <- (app_nil_r (put32 t)) at 1. rewrite leUint32_put32 by done.
    pose proof (sliceOf_app (pre ++ put32 t)
      (put32 (offset + Z.of_nat (length v)))
      (indexOf data tags (offset + Z.of_nat (length v)))) as Hs2.
    rewrite length_app, !put32_length, <- app_assoc in Hs2.
    replace (Z.of_nat (length pre) + 4)
      with (Z.of_nat (length pre + 4)) by lia.
    replace (Z.of_nat (length pre) + 8)
      with (Z.of_nat (length pre + 4) + Z.of_nat 4) by lia.
    rewrite Hs2. cbn [mbind option_bind].
    rewrite <- (app_nil_r (put32 _)) at 1.
    rewrite leUint32_put32 by (unfold is_uint32; lia).
    rewrite (proj2 (Z.ltb_ge _ _)) by lia.
    replace (Z.to_nat (offset + Z.of_nat (length v) - offset))
      with (length v) by lia.
    rewrite <- app_assoc, ReadFull_app. cbn [mbind result_bind].
    replace (Z.of_nat (length pre + 4) + Z.of_nat 4)
      with (Z.of_nat (length ((pre ++ put32 t)
              ++ put32 (offset + Z.of_nat (length v)))))
      by (rewrite !length_app, !put32_length; lia).
    rewrite (app_assoc pre), (app_assoc (pre ++ put32 t)).
    rewrite IH; [done|done|lia|unfold valuesOf; lia| |lia].
    rewrite !length_app, !put32_length. lia.
Qed.

Lemma sortedTags_keys data :
  (forall t v, data !! t = Some v -> is_uint32 t) ->
  sortedTags data ≡ₚ (map_to_list data).*1.
Proof.
  intros Hkeys. unfold sortedTags. rewrite merge_sort_Permutation.
  rewrite <- (list_fmap_id ((map_to_list data).*1)) at 2.
  apply Permutation_refl'. apply list_fmap_ext.
  intros i t Hi.
  assert (Hin : t ∈ (map_to_list data).*1)
    by (by eapply list_elem_of_lookup_2).
  apply list_elem_of_fmap in Hin as ([t' v] & -> & Hin).
  apply elem_of_map_to_list in Hin. cbn.
  apply Z.mod_small. by eapply Hkeys.
Qed.

Lemma insertTags_sortedTags data :
  (forall t v, data !! t = Some v -> is_uint32 t) ->
  insertTags data (sortedTags data) ∅ = data.
Proof.
  intros Hkeys. apply map_eq. intros k. rewrite insertTags_lookup.
  destruct (decide (k ∈ sortedTags data)) as [Hin|Hnotin].
  - rewrite (sortedTags_keys data Hkeys) in Hin.
    apply list_elem_of_fmap in Hin as ([k' v] & -> & Hin).
    apply elem_of_map_to_list in Hin. cbn. by rewrite Hin.
  - rewrite lookup_empty. destruct (data !! k) as [v|] eqn:Hk; [|done].
    exfalso. apply Hnotin. rewrite (sortedTags_keys data Hkeys).
    apply list_elem_of_fmap. exists (k, v). split; [done|].
    by apply elem_of_map_to_list.
Qed.

Lemma le16_le16_0 n : is_uint16 n -> le16 n ++ le16 0 = le32 n.
Proof.
  unfold is_uint16. change (2 ^ 16) with 65536. intros Hn.
  unfold le16, le32. cbn [app]. do 2 f_equal.
  unfold wrap8. rewrite !land_255, !Z.shiftr_div_pow2 by lia.
  change (2 ^ 16) with 65536. change (2 ^ 24) with 16777216.
  rewrite (Z.div_small n 65536), (Z.div_small n 16777216) by lia. done.
Qed.

End HandshakeMessageFacts.

(** X1 (round trip of the handshake messages): for a message tag of 32 bits
    and a map of fewer than 2^16 tags of 32 bits whose values have fewer
    than 2^32 bytes together, [ParseHandshakeMessage] reads from the bytes
    [WriteHandshakeMessage] has written the same tag and the same map, and
    leaves what follows the message unread. *)
Theorem ParseHandshakeMessage_Write (messageTag : Z)
    (data : gmap Z (list Z)) (rest : list Z) :
  handshakeMessage_wf messageTag data ->
  Handshake.ParseHandshakeMessage
    (Handshake.WriteHandshakeMessage [] messageTag data ++ rest)
  = Ok (messageTag, data, rest).
Proof.
  intros (Htag & Hkeys & Hsize & Hlen).
  rewrite WriteHandshakeMessage_bytes by done. cbn [app].
  assert (Htag32 : wrap32 messageTag = messageTag)
    by (apply Z.mod_small; apply Htag).
  rewrite Htag32.
  assert (Hn16 : wrap16 (Z.of_nat (size data)) = Z.of_nat (size data)).
  { apply Z.mod_small. lia. }
  rewrite Hn16.
  assert (Hn : length (sortedTags data) = size data).
  { unfold sortedTags. rewrite merge_sort_Permutation.
    by rewrite !length_fmap, length_map_to_list. }
  rewrite <- !app_assoc.
  rewrite (app_assoc (le16 _) (le16 0)), le16_le16_0
    by (unfold is_uint16; lia).
  unfold Handshake.ParseHandshakeMessage.
  rewrite ReadUint32_le32 by done. cbn [mbind result_bind].
  rewrite ReadUint32_le32 by (unfold is_uint32; lia). cbn [mbind result_bind].
  assert (Hidx : Z.to_nat (wrap32 (Z.of_nat (size data) * 8))
                 = length (indexOf data (sortedTags data) 0)).
  { rewrite indexOf_length, Hn. unfold wrap32.
    rewrite Z.mod_small by lia. lia. }
  rewrite Hidx, ReadFull_app. cbn [mbind result_bind].
  pose proof (parsePairs_spec data (sortedTags data) (Z.to_nat (Z.of_nat (size data)))
    (Z.of_nat (size data)) [] 0 ∅ rest) as Hp.
  cbn [app length] in Hp. change (Z.of_nat 0) with 0 in Hp. rewrite Hp.
  - cbn [mbind result_bind]. by rewrite insertTags_sortedTags.
  - apply Forall_forall. intros t Ht.
    rewrite (sortedTags_keys data Hkeys) in Ht.
    apply list_elem_of_fmap in Ht as ([t' v] & -> & Hin).
    apply elem_of_map_to_list in Hin. by eapply Hkeys.
  - lia.
  - lia.
  - lia.
  - lia.
Qed.

(** [ParseHandshakeMessage_Write] on a message with the tags 1 and 2. *)
Lemma ParseHandshakeMessage_Write_witness :
  Handshake.ParseHandshakeMessage
    (Handshake.WriteHandshakeMessage [] 7 {[ 2 := [5; 6]; 1 := [9] ]} ++ [3])
  = Ok (7, {[ 2 := [5; 6]; 1 := [9] ]}, [3]).
Proof.
  apply (ParseHandshakeMessage_Write 7 {[ 2 := [5; 6]; 1 := [9] ]} [3]).
  unfold handshakeMessage_wf. split; [unfold is_uint32; lia|].
  split.
  - intros t v Hv. unfold is_uint32.
    destruct (decide (t = 2)) as [->|]; [lia|].
    destruct (decide (t = 1)) as [->|]; [lia|].
    rewrite lookup_insert_ne in Hv by done.
    rewrite lookup_singleton_ne in Hv by done. discriminate.
  - split; vm_compute; reflexivity.
Defined.

(** X2 (a pair count that overflows the index length): when the pair count
    of a handshake message is a multiple of 2^29, the length [nPairs*8] of
    the index wraps to 0 in 32 bits, no index is read, and the first round
    of the loop slices the empty index: [ParseHandshakeMessage] panics,
    whatever follows the 8 bytes of the header. *)
Theorem ParseHandshakeMessage_pair_count_overflow (messageTag k : Z)
    (rest : list Z) :
  is_uint32 messageTag ->
  1 <= k <= 7 ->
  Handshake.ParseHandshakeMessage
    (le32 messageTag ++ le32 (k * 2 ^ 29) ++ rest)
  = Panic "slice bounds out of range".
Proof.
  intros Htag Hk. unfold Handshake.ParseHandshakeMessage.
  rewrite ReadUint32_le32 by done. cbn [mbind result_bind].
  rewrite ReadUint32_le32
    by (unfold is_uint32; change (2 ^ 29) with 536870912;
        change (2 ^ 32) with 4294967296; lia).
  cbn [mbind result_bind].
  assert (Hwrap : wrap32 (k * 2 ^ 29 * 8) = 0).
  { unfold wrap32. replace (k * 2 ^ 29 * 8) with (k * 2 ^ 32) by lia.
    apply Z.mod_mul. lia. }
  rewrite Hwrap. cbn [Z.to_nat Utils.ReadFull mbind result_bind].
  replace (Z.to_nat (k * 2 ^ 29))
    with (S (Z.to_nat (k * 2 ^ 29 - 1)))
    by (change (2 ^ 29) with 536870912; lia).
  cbn [Handshake.parsePairs].
  rewrite (proj2 (Z.ltb_lt _ _)) by (change (2 ^ 29) with 536870912; lia).
  reflexivity.
Qed.

(** [ParseHandshakeMessage_pair_count_overflow] on the pair count 2^29. *)
Lemma ParseHandshakeMessage_pair_count_overflow_witness :
  Handshake.ParseHandshakeMessage (le32 1 ++ le32 (1 * 2 ^ 29) ++ [1; 2; 3])
  = Panic "slice bounds out of range".
Proof.
  apply (ParseHandshakeMessage_pair_count_overflow 1 1 [1; 2; 3]).
  - unfold is_uint32. lia.
  - lia.
Defined.

(** ** More on the little-endian readers and writers *)

Section UtilsMoreFacts.
Import Utils.

Lemma leValue_bound bs :
  Forall is_byte bs -> 0 <= leValue bs < 2 ^ (8 * Z.of_nat (length bs)).
Proof.
  induction 1 as [|b bs Hb _ IH]; cbn [leValue length]; [done|].
  replace (8 * Z.of_nat (S (length bs)))
    with (8 + 8 * Z.of_nat (length bs)) by lia.
  rewrite Z.pow_add_r by lia. unfold is_byte in Hb.
  change (2 ^ 8) with 256 in *. nia.
Qed.

Lemma ReadUintN_loop_value n : forall i res bs rest,
  0 <= i -> i + Z.of_nat n <= 8 ->
  0 <= res < 2 ^ (8 * i) ->
  Forall is_byte bs -> length bs = n ->
  ReadUintN_loop n i res (bs ++ rest)
  = Ok (res + 2 ^ (8 * i) * leValue bs, rest).
Proof.
  induction n as [|n IH]; intros i res bs rest Hi Hn Hres Hbs Hlen.
  - destruct bs; [|done]. cbn. do 2 f_equal. lia.
  - destruct bs as [|b bs]; [done|].
    apply Forall_cons in Hbs as [Hb Hbs]. cbn [length] in Hlen.
    cbn [ReadUintN_loop app ReadByte mbind result_bind].
    assert (Hi8 : wrap8 (i * 8) = 8 * i)
      by (unfold wrap8; rewrite Z.mod_small; lia).
    assert (Hi1 : wrap8 (i + 1) = i + 1)
      by (unfold wrap8; rewrite Z.mod_small; lia).
    rewrite Hi8, Hi1. unfold is_byte in Hb.
    assert (Hpow : 2 ^ (8 * i + 8) <= 2 ^ 64)
      by (apply Z.pow_le_mono_r; lia).
    assert (Hstep : 2 ^ (8 * i + 8) = 2 ^ (8 * i) * 256)
      by (rewrite Z.pow_add_r by lia; done).
    assert (Hpos : 0 < 2 ^ (8 * i)) by (apply Z.pow_pos_nonneg; lia).
    assert (Hsh : wrap64 (Z.shiftl b (8 * i)) = Z.shiftl b (8 * i)).
    { unfold wrap64. rewrite Z.shiftl_mul_pow2 by lia.
      apply Z.mod_small. change (2 ^ 8) with 256 in Hb. nia. }
    rewrite Hsh, lxor_shiftl_add by lia.
    rewrite IH; [|lia|lia| |done|lia].
    + do 2 f_equal. cbn [leValue].
      replace (8 * (i + 1)) with (8 * i + 8) by lia. rewrite Hstep. lia.
    + replace (8 * (i + 1)) with (8 * i + 8) by lia. rewrite Hstep.
      change (2 ^ 8) with 256 in Hb. nia.
Qed.

Lemma ReadUintN_loop_short n : forall i res r,
  (length r < n)%nat -> ReadUintN_loop n i res r = Err EOF.
Proof.
  induction n as [|n IH]; intros i res r Hlen; [lia|].
  destruct r as [|b r]; [done|].
  cbn [ReadUintN_loop ReadByte mbind result_bind].
  apply IH. cbn in Hlen. lia.
Qed.

Lemma le64_sum x :
  is_uint64 x ->
  x mod 256 + (x / 256) mod 256 * 256 + (x / 65536) mod 256 * 65536
  + (x / 16777216) mod 256 * 16777216
  + (x / 4294967296) mod 256 * 4294967296
  + (x / 1099511627776) mod 256 * 1099511627776
  + (x / 281474976710656) mod 256 * 281474976710656
  + (x / 72057594037927936) mod 256 * 72057594037927936 = x.
Proof.
  unfold is_uint64. change (2 ^ 64) with 18446744073709551616.
  intros H. Z.div_mod_to_equations. lia.
Qed.

End UtilsMoreFacts.

(** X3 ([ReadUintN] is little-endian): for up to 8 bytes, [ReadUintN] with
    the number of bytes as length returns the number the bytes stand for,
    least significant byte first, and leaves the rest of the input; on an
    input shorter than the length it returns [io.EOF]. *)
Theorem ReadUintN_little_endian (bs rest r : list Z) (n : nat) :
  Forall is_byte bs ->
  (length bs <= 8)%nat ->
  (length r < n)%nat ->
  Utils.ReadUintN (bs ++ rest) (Z.of_nat (length bs)) = Ok (leValue bs, rest)
  /\ Utils.ReadUintN r (Z.of_nat n) = Err EOF.
Proof.
  intros Hbs Hlen Hshort. unfold Utils.ReadUintN. rewrite !Nat2Z.id. split.
  - rewrite (ReadUintN_loop_value (length bs) 0 0 bs rest); try done; try lia.
    change (2 ^ (8 * 0)) with 1. do 2 f_equal. lia.
  - by apply ReadUintN_loop_short.
Qed.

(** [ReadUintN_little_endian] on the six bytes of a packet number and on an
    input of two bytes. *)
Lemma ReadUintN_little_endian_witness :
  Utils.ReadUintN ([0x23; 0x42; 0xad; 0xfb; 0xca; 0xde] ++ [7]) 6
  = Ok (0xdecafbad4223, [7])
  /\ Utils.ReadUintN [1; 2] 4 = Err EOF.
Proof.
  apply (ReadUintN_little_endian [0x23; 0x42; 0xad; 0xfb; 0xca; 0xde] [7]
           [1; 2] 4).
  - repeat constructor; unfold is_byte; lia.
  - cbn. lia.
  - cbn. lia.
Defined.

(** X4 (round trip of 64-bit numbers): [ReadUint64] reads back every 64-bit
    number that [WriteUint64] has written, and leaves the rest of the
    input. *)
Theorem ReadUint64_WriteUint64 (x : Z) (rest : list Z) :
  is_uint64 x ->
  Utils.ReadUint64 (Utils.WriteUint64 [] x ++ rest) = Ok (x, rest).
Proof.
  intros Hx. pose proof (le64_sum x Hx) as Hsum.
  unfold is_uint64 in Hx. change (2 ^ 64) with 18446744073709551616 in Hx.
  unfold Utils.WriteUint64, Utils.WriteByte, Utils.ReadUint64.
  cbn [app Utils.ReadByte mbind result_bind]. do 2 f_equal.
  unfold wrap8, wrap64. rewrite !land_255, !Z.shiftr_div_pow2 by lia.
  change (2 ^ 8) with 256. change (2 ^ 16) with 65536.
  change (2 ^ 24) with 16777216. change (2 ^ 32) with 4294967296.
  change (2 ^ 40) with 1099511627776. change (2 ^ 48) with 281474976710656.
  change (2 ^ 56) with 72057594037927936.
  change (2 ^ 64) with 18446744073709551616.
  rewrite !(Z.mod_small (_ mod 256) 256) by (apply Z.mod_pos_bound; lia).
  rewrite !Z.shiftl_mul_pow2 by lia.
  change (2 ^ 8) with 256. change (2 ^ 16) with 65536.
  change (2 ^ 24) with 16777216. change (2 ^ 32) with 4294967296.
  change (2 ^ 40) with 1099511627776. change (2 ^ 48) with 281474976710656.
  change (2 ^ 56) with 72057594037927936.
  pose proof (Z.mod_pos_bound x 256 ltac:(lia)).
  pose proof (Z.mod_pos_bound (x / 256) 256 ltac:(lia)).
  pose proof (Z.mod_pos_bound (x / 65536) 256 ltac:(lia)).
  pose proof (Z.mod_pos_bound (x / 16777216) 256 ltac:(lia)).
  pose proof (Z.mod_pos_bound (x / 4294967296) 256 ltac:(lia)).
  pose proof (Z.mod_pos_bound (x / 1099511627776) 256 ltac:(lia)).
  pose proof (Z.mod_pos_bound (x / 281474976710656) 256 ltac:(lia)).
  pose proof (Z.mod_pos_bound (x / 72057594037927936) 256 ltac:(lia)).
  rewrite !(Z.mod_small (_ mod 256 * _)) by lia.
  rewrite Z.mod_small by lia. lia.
Qed.

(** [ReadUint64_WriteUint64] on the largest 64-bit number. *)
Lemma ReadUint64_WriteUint64_witness :
  Utils.ReadUint64 (Utils.WriteUint64 [] (2 ^ 64 - 1) ++ [9])
  = Ok (2 ^ 64 - 1, [9]).
Proof.
  apply (ReadUint64_WriteUint64 (2 ^ 64 - 1) [9]).
  unfold is_uint64. lia.
Defined.

(** ** More on the frame codec *)

Section FramesMoreFacts.
Import Utils Frames.

Lemma land_12_cases t :
  Z.land t 12 = 0 \/ Z.land t 12 = 4 \/ Z.land t 12 = 8 \/ Z.land t 12 = 12.
Proof.
  change 12 with (Z.land 15 12). rewrite Z.land_assoc.
  change 15 with (Z.ones 4). rewrite Z.land_ones by lia.
  pose proof (Z.mod_pos_bound t (2 ^ 4) ltac:(lia)) as H.
  change (2 ^ 4) with 16 in *.
  assert (Hc : t mod 16 = 0 \/ t mod 16 = 1 \/ t mod 16 = 2 \/ t mod 16 = 3
            \/ t mod 16 = 4 \/ t mod 16 = 5 \/ t mod 16 = 6 \/ t mod 16 = 7
            \/ t mod 16 = 8 \/ t mod 16 = 9 \/ t mod 16 = 10 \/ t mod 16 = 11
            \/ t mod 16 = 12 \/ t mod 16 = 13 \/ t mod 16 = 14
            \/ t mod 16 = 15) by lia.
  repeat destruct Hc as [Hc|Hc]; rewrite Hc; cbn; tauto.
Qed.

Lemma ReadUint16_ok a b r : exists v, ReadUint16 (a :: b :: r) = Ok (v, r).
Proof. eexists. reflexivity. Qed.

Lemma ReadUint32_ok a b c d r :
  exists v, ReadUint32 (a :: b :: c :: d :: r) = Ok (v, r).
Proof. eexists. reflexivity. Qed.

Lemma skipTimestamps_app n : forall l rest,
  length l = (3 * n)%nat -> skipTimestamps n (l ++ rest) = Ok (tt, rest).
Proof.
  induction n as [|n IH]; intros l rest Hlen.
  - by destruct l.
  - destruct l as [|a [|b [|c l]]]; cbn in Hlen; try lia.
    cbn [skipTimestamps app ReadByte mbind result_bind].
    destruct (ReadUint16_ok b c (l ++ rest)) as [v ->].
    cbn [mbind result_bind]. apply IH. lia.
Qed.

Lemma skipNackRanges_app n p : forall l rest,
  (0 < p)%nat -> length l = (n * p)%nat ->
  skipNackRanges n p (l ++ rest) = Ok (tt, rest).
Proof.
  induction n as [|n IH]; intros l rest Hp Hlen.
  - by destruct l.
  - cbn [skipNackRanges]. unfold Read.
    destruct (l ++ rest) as [|x xs] eqn:Hl.
    { apply (f_equal length) in Hl. rewrite length_app in Hl. cbn in Hl. lia. }
    rewrite <- Hl. cbn [mbind result_bind].
    rewrite drop_app_le by lia. apply IH; [done|].
    rewrite length_drop. lia.
Qed.

(** None of the readers panics. *)
Lemma ReadByte_no_panic r m : ReadByte r <> Panic m.
Proof. by destruct r. Qed.

Lemma ReadUint16_no_panic r m : ReadUint16 r <> Panic m.
Proof. by destruct r as [|? [|? ?]]. Qed.

Lemma ReadUint32_no_panic r m : ReadUint32 r <> Panic m.
Proof. by destruct r as [|? [|? [|? [|? ?]]]]. Qed.

Lemma ReadUintN_loop_no_panic n m : forall i res r,
  ReadUintN_loop n i res r <> Panic m.
Proof.
  induction n as [|n IH]; intros i res r; [done|].
  destruct r as [|b r]; [done|].
  cbn [ReadUintN_loop ReadByte mbind result_bind]. apply IH.
Qed.

Lemma skipTimestamps_no_panic n m : forall r, skipTimestamps n r <> Panic m.
Proof.
  induction n as [|n IH]; intros r; [done|].
  destruct r as [|a [|b [|c r]]]; try done.
  cbn [skipTimestamps ReadByte mbind result_bind].
  destruct (ReadUint16_ok b c r) as [v ->]. cbn [mbind result_bind].
  apply IH.
Qed.

Lemma skipNackRanges_no_panic n p m : forall r,
  skipNackRanges n p r <> Panic m.
Proof.
  induction n as [|n IH]; intros r; [done|].
  destruct r as [|a r]; [done|].
  cbn [skipNackRanges Read mbind result_bind]. apply IH.
Qed.

Lemma result_bind_panic {A B} (x : result A) (f : A -> result B) m :
  (forall m', x <> Panic m') ->
  (forall a, x = Ok a -> f a <> Panic m) ->
  x ≫= f <> Panic m.
Proof.
  intros Hx Hf. destruct x as [a|e|m']; cbn.
  - by apply Hf.
  - done.
  - by destruct (Hx m').
Qed.

Lemma ConnectionCloseFrame_Write_bytes f b :
  Z.of_nat (length (ReasonPhrase f)) <= MaxUint16 ->
  ConnectionCloseFrame_Write f b
  = (b ++ 2 :: le32 (wrap32 (ErrorCode f))
       ++ le16 (Z.of_nat (length (ReasonPhrase f)))
       ++ (wrap8 <$> ReasonPhrase f), None).
Proof.
  intros Hlen. unfold ConnectionCloseFrame_Write.
  destruct (Z.ltb_spec MaxUint16 (Z.of_nat (length (ReasonPhrase f))));
    [lia|].
  assert (Hw16 : wrap16 (Z.of_nat (length (ReasonPhrase f)))
                 = Z.of_nat (length (ReasonPhrase f))).
  { unfold wrap16. apply Z.mod_small. unfold MaxUint16 in *. lia. }
  rewrite Hw16, Nat2Z.id.
  rewrite writeReasonPhrase_take by (cbn; lia).
  rewrite drop_0, firstn_all.
  rewrite WriteUint32_le32, WriteUint16_le16. unfold WriteByte.
  by rewrite <- !app_assoc.
Qed.

End FramesMoreFacts.

(** X5 (the general ACK frame): [ParseAckFrame] reads every ACK frame whose
    type byte does not announce a truncated frame: it returns the entropy,
    the largest observed packet number of 1, 2, 4 or 6 bytes read
    little-endian and the delay time, skips the timestamps (five bytes even
    when the frame announces no timestamp) and the NACK ranges, and leaves
    the input behind the frame. *)
Theorem ParseAckFrame_format (t e d nts nr : Z) (lo tss ranges rest : list Z) :
  Z.land t 16 <> 16 ->
  Forall is_byte lo ->
  length lo = largestObservedBytes t ->
  is_uint16 d ->
  length tss = (5 + 3 * Z.to_nat (nts - 1))%nat ->
  length ranges = (Z.to_nat nr * (largestObservedBytes t + 1))%nat ->
  Frames.ParseAckFrame (ackFrameBytes t e lo d nts tss nr ranges ++ rest)
  = Ok (Frames.mkAckFrame e (leValue lo) d, rest).
Proof.
  intros Ht Hlo Hlen Hd Htss Hranges.
  unfold ackFrameBytes, Frames.ParseAckFrame.
  cbn [app Utils.ReadByte mbind result_bind].
  rewrite (bool_decide_eq_false_2 _ Ht).
  assert (Hl : (if bool_decide (wrap8 (2 * Z.shiftr (Z.land t 12) 2) = 0)
                then 1 else wrap8 (2 * Z.shiftr (Z.land t 12) 2))
               = Z.of_nat (largestObservedBytes t)).
  { unfold largestObservedBytes.
    destruct (land_12_cases t) as [H|[H|[H|H]]]; by rewrite H. }
  rewrite Hl, <- Hlen. rewrite <- !app_assoc.
  unfold Utils.ReadUintN. rewrite Nat2Z.id.
  rewrite (ReadUintN_loop_value (length lo) 0 0 lo); try done; try lia;
    [|unfold largestObservedBytes in Hlen; repeat case_match; lia].
  cbn [mbind result_bind]. change (2 ^ (8 * 0)) with 1.
  replace (0 + 1 * leValue lo) with (leValue lo) by lia.
  rewrite ReadUint16_le16 by done. cbn [mbind result_bind].
  destruct tss as [|t0 [|t1 [|t2 [|t3 [|t4 tss]]]]]; cbn in Htss; try lia.
  cbn [app Utils.ReadByte mbind result_bind].
  rewrite <- !app_assoc.
  match goal with
  | |- context [Utils.ReadUint32 (t1 :: t2 :: t3 :: t4 :: ?tl)] =>
      destruct (ReadUint32_ok t1 t2 t3 t4 tl) as [v ->]
  end.
  cbn [mbind result_bind].
  rewrite skipTimestamps_app by lia. cbn [mbind result_bind].
  destruct (bool_decide (Z.land t 32 = 32)); [|done].
  cbn [app Utils.ReadByte mbind result_bind].
  assert (Hp : Z.to_nat (wrap8 (Z.of_nat (length lo) + 1))
               = (largestObservedBytes t + 1)%nat).
  { rewrite Hlen. unfold largestObservedBytes. by repeat case_match. }
  rewrite Hp, skipNackRanges_app by (done || lia). done.
Qed.

(** [ParseAckFrame_format] on a frame with a largest observed packet number
    of two bytes, two timestamps and one NACK range. *)
Lemma ParseAckFrame_format_witness :
  Frames.ParseAckFrame
    (ackFrameBytes 0x64 7 [0x37; 0x13] 0x1234 2 [0; 1; 2; 3; 4; 5; 6; 7]
       1 [8; 9; 10] ++ [42])
  = Ok (Frames.mkAckFrame 7 0x1337 0x1234, [42]).
Proof.
  apply (ParseAckFrame_format 0x64 7 0x1234 2 1 [0x37; 0x13]
           [0; 1; 2; 3; 4; 5; 6; 7] [8; 9; 10] [42]).
  - discriminate.
  - repeat constructor; unfold is_byte; lia.
  - reflexivity.
  - unfold is_uint16. lia.
  - reflexivity.
  - reflexivity.
Defined.

(** X6 (the only panic of the ACK parser): whatever the input,
    [ParseAckFrame] panics exactly when the type byte has bit 4 set, which
    announces a truncated ACK frame; on every other input it returns a
    frame or an error. *)
Theorem ParseAckFrame_panics_iff_truncated (r : list Z) :
  (exists m, Frames.ParseAckFrame r = Panic m)
  <-> (exists t r', r = t :: r' /\ Z.land t 16 = 16).
Proof.
  split.
  - intros [m H]. destruct r as [|t r]; [done|]. exists t, r. split; [done|].
    unfold Frames.ParseAckFrame in H.
    cbn [Utils.ReadByte mbind result_bind] in H.
    case_bool_decide as Ht; [done|]. exfalso. revert H.
    repeat (apply result_bind_panic;
            [intros m'; first [apply ReadByte_no_panic
                              |apply ReadUintN_loop_no_panic
                              |apply ReadUint16_no_panic
                              |apply ReadUint32_no_panic
                              |apply skipTimestamps_no_panic
                              |idtac]
            |intros [? ?] _]).
    all: try done.
    case_match; [|done].
    apply result_bind_panic; [apply ReadByte_no_panic|].
    intros [? ?] _. apply skipNackRanges_no_panic.
  - intros (t & r' & -> & Ht). eexists.
    unfold Frames.ParseAckFrame. cbn [Utils.ReadByte mbind result_bind].
    by rewrite (bool_decide_eq_true_2 _ Ht).
Qed.

(** X7 (the length of a CONNECTION_CLOSE frame): when
    [ConnectionCloseFrame.Write] returns no error, it has appended to the
    buffer exactly as many bytes as [MinLength] gives for the frame. *)
Theorem ConnectionCloseFrame_Write_MinLength
    (f : Frames.ConnectionCloseFrame) (b : list Z) :
  (Frames.ConnectionCloseFrame_Write f b).2 = None ->
  take (length b) (Frames.ConnectionCloseFrame_Write f b).1 = b /\
  Z.of_nat (length (Frames.ConnectionCloseFrame_Write f b).1)
  = Z.of_nat (length b) + Frames.ConnectionCloseFrame_MinLength f.
Proof.
  intros Hok.
  assert (Hlen : Z.of_nat (length (Frames.ReasonPhrase f)) <= MaxUint16).
  { unfold Frames.ConnectionCloseFrame_Write in Hok.
    destruct (Z.ltb_spec MaxUint16
                (Z.of_nat (length (Frames.ReasonPhrase f)))); [done|lia]. }
  rewrite ConnectionCloseFrame_Write_bytes by done. cbn [fst]. split.
  - by rewrite take_app_length.
  - unfold Frames.ConnectionCloseFrame_MinLength.
    rewrite wrap64_small by (unfold MaxUint16 in Hlen; lia).
    rewrite length_app. cbn [length le32 le16 app].
    rewrite length_fmap. lia.
Qed.

(** [ConnectionCloseFrame_Write_MinLength] on a frame with a reason phrase
    of three bytes written behind one byte. *)
Lemma ConnectionCloseFrame_Write_MinLength_witness :
  let f := Frames.mkConnectionCloseFrame 25 [102; 111; 111] in
  take 1 (Frames.ConnectionCloseFrame_Write f [9]).1 = [9] /\
  Z.of_nat (length (Frames.ConnectionCloseFrame_Write f [9]).1)
  = 1 + Frames.ConnectionCloseFrame_MinLength f.
Proof.
  apply (ConnectionCloseFrame_Write_MinLength
           (Frames.mkConnectionCloseFrame 25 [102; 111; 111]) [9]).
  reflexivity.
Defined.

(** X8 (a truncated CONNECTION_CLOSE frame): from every strict prefix of
    the bytes [ConnectionCloseFrame.Write] has written for a frame,
    [ParseConnectionCloseFrame] returns an error and no frame: [io.EOF]
    when the prefix ends within the first seven bytes or right behind
    them, else [io.ErrUnexpectedEOF]. *)
Theorem ParseConnectionCloseFrame_truncated
    (f : Frames.ConnectionCloseFrame) (k : nat) :
  Frames.ConnectionCloseFrame_wf f ->
  (k < length (Frames.ConnectionCloseFrame_Write f []).1)%nat ->
  Frames.ParseConnectionCloseFrame
    (take k (Frames.ConnectionCloseFrame_Write f []).1)
  = Err (if (k <=? 7)%nat then EOF else ErrUnexpectedEOF).
Proof.
  intros (Hcode & Hbytes & Hlen) Hk.
  rewrite ConnectionCloseFrame_Write_bytes in * by done.
  cbn [fst app] in *.
  remember (length (Frames.ReasonPhrase f)) as n eqn:Hn.
  assert (Hn16 : is_uint16 (Z.of_nat n))
    by (unfold is_uint16, MaxUint16 in *; lia).
  destruct k as [|[|[|[|[|[|[|k]]]]]]]; try reflexivity.
  cbn [length le32 le16 app] in Hk. rewrite length_fmap, <- Hn in Hk.
  cbn [le32 le16 app take].
  unfold Frames.ParseConnectionCloseFrame.
  cbn [Utils.ReadByte mbind result_bind].
  change (?a :: ?b :: ?c :: ?d :: ?r) with (le32 (wrap32 (Frames.ErrorCode f)) ++ r) at 1.
  rewrite ReadUint32_le32 by apply wrap32_uint32.
  cbn [mbind result_bind].
  match goal with
  | |- context [Utils.ReadUint16 (?a :: ?b :: ?r)] =>
      change (a :: b :: r) with (le16 (Z.of_nat n) ++ r)
  end.
  rewrite ReadUint16_le16 by done. cbn [mbind result_bind].
  rewrite Nat2Z.id. unfold Utils.ReadFull.
  destruct n as [|n]; [lia|].
  destruct k as [|k].
  - by rewrite take_0.
  - destruct (Frames.ReasonPhrase f) as [|x s] eqn:Hs; [done|].
    cbn [fmap list_fmap take].
    rewrite (proj2 (Nat.leb_gt _ _)); [done|].
    cbn [length] in *. rewrite length_take, length_fmap. lia.
Qed.

(** [ParseConnectionCloseFrame_truncated] on a frame with a reason phrase
    of three bytes, cut behind the second of them. *)
Lemma ParseConnectionCloseFrame_truncated_witness :
  Frames.ParseConnectionCloseFrame
    (take 9 (Frames.ConnectionCloseFrame_Write
               (Frames.mkConnectionCloseFrame 25 [102; 111; 111]) []).1)
  = Err ErrUnexpectedEOF.
Proof.
  apply (ParseConnectionCloseFrame_truncated
           (Frames.mkConnectionCloseFrame 25 [102; 111; 111]) 9).
  - unfold Frames.ConnectionCloseFrame_wf, is_uint32, MaxUint16. cbn.
    split; [lia|]. split; [|lia].
    repeat constructor; unfold is_byte; lia.
  - vm_compute. lia.
Defined.

(** ** More on the connection parameters *)

Section ConnectionParametersMoreFacts.
Import Utils Handshake.
Context `{!protocolConstants}.

(** Two rounds of the loop of [SetFromMap] on different keys can be
    exchanged. *)
Lemma SetFromMap_case_comm h k1 v1 k2 v2 h1 h12 :
  k1 <> k2 ->
  SetFromMap_case h k1 v1 = Ok h1 ->
  SetFromMap_case h1 k2 v2 = Ok h12 ->
  exists h2, SetFromMap_case h k2 v2 = Ok h2 /\
             SetFromMap_case h2 k1 v1 = Ok h12.
Proof.
  intros Hne H1 H2. destruct h as [p i ss sc rs rc].
  unfold SetFromMap_case, mbind, result_bind in *. cbn in *.
  revert H1 H2.
  destruct (bool_decide (k1 = TagMSPC) || bool_decide (k1 = TagTCID));
    destruct (bool_decide (k2 = TagMSPC) || bool_decide (k2 = TagTCID));
    destruct (bool_decide (k1 = TagICSL)) eqn:I1;
    destruct (bool_decide (k2 = TagICSL)) eqn:I2;
    destruct (bool_decide (k1 = TagSFCW)) eqn:S1;
    destruct (bool_decide (k2 = TagSFCW)) eqn:S2;
    destruct (bool_decide (k1 = TagCFCW)) eqn:C1;
    destruct (bool_decide (k2 = TagCFCW)) eqn:C2;
    destruct (ReadUint32 v1) as [[x1 r1]| |];
    destruct (ReadUint32 v2) as [[x2 r2]| |];
    intros H1 H2; simplify_eq; cbn in *;
    first
      [ eexists; split; [reflexivity|]; cbn;
        first [reflexivity | by rewrite insert_insert_ne]
      | exfalso;
        repeat match goal with
               | H : bool_decide _ = true |- _ =>
                   apply bool_decide_eq_true_1 in H
               end; congruence ].
Qed.

Lemma SetFromMap_perm l1 l2 :
  l1 ≡ₚ l2 ->
  NoDup l1.*1 ->
  forall h, (SetFromMap h l1).2 = Ok tt -> SetFromMap h l2 = SetFromMap h l1.
Proof.
  induction 1 as [|[k v] l1 l2 Hperm IH|[k1 v1] [k2 v2] l|l1 l2 l3 H12 IH12 H23 IH23];
    intros Hnd h Hok.
  - done.
  - cbn in *. apply NoDup_cons in Hnd as [_ Hnd].
    destruct (SetFromMap_case h k v) as [h1| |]; try done. by apply IH.
  - cbn in *. apply NoDup_cons in Hnd as [Hne _].
    apply not_elem_of_cons in Hne as [Hne _].
    destruct (SetFromMap_case h k2 v2) as [h2| |] eqn:E2; try done.
    destruct (SetFromMap_case h2 k1 v1) as [h21| |] eqn:E1; try done.
    destruct (SetFromMap_case_comm h k2 v2 k1 v1 h2 h21 Hne E2 E1)
      as (h1 & -> & ->). done.
  - rewrite IH23, IH12; try done.
    + rewrite <- H12. done.
    + by rewrite IH12.
Qed.

(** The rounds of [SetFromMap] leave the receive windows as they are. *)
Lemma SetFromMap_case_receive h key value h' :
  SetFromMap_case h key value = Ok h' ->
  receiveStreamFlowControlWindow h' = receiveStreamFlowControlWindow h /\
  receiveConnectionFlowControlWindow h'
  = receiveConnectionFlowControlWindow h.
Proof.
  unfold SetFromMap_case, mbind, result_bind.
  repeat case_match; intros; by simplify_eq.
Qed.

(** The rounds on other keys leave the raw value of a key as it is. *)
Lemma SetFromMap_case_params h key value h' tag :
  key <> tag ->
  SetFromMap_case h key value = Ok h' -> params h' !! tag = params h !! tag.
Proof.
  intros Hne. unfold SetFromMap_case, mbind, result_bind.
  repeat case_match; intros; simplify_eq; cbn; try done;
    by rewrite lookup_insert_ne.
Qed.

Lemma SetFromMap_params entries : forall h h' tag,
  tag ∉ entries.*1 ->
  SetFromMap h entries = (h', Ok tt) -> params h' !! tag = params h !! tag.
Proof.
  induction entries as [|[key value] entries IH]; intros h h' tag Hnotin Hs;
    cbn in Hs; [by simplify_eq|].
  cbn in Hnotin. apply not_elem_of_cons in Hnotin as [Hne Hnotin].
  destruct (SetFromMap_case h key value) as [h1| |] eqn:Hcase; try done.
  rewrite (IH h1 h' tag Hnotin Hs).
  eapply SetFromMap_case_params; [|done]. congruence.
Qed.

Lemma SetFromMap_TCID entries : forall h h' value,
  NoDup entries.*1 ->
  (TagTCID, value) ∈ entries ->
  SetFromMap h entries = (h', Ok tt) -> params h' !! TagTCID = Some value.
Proof.
  induction entries as [|[key val] entries IH]; intros h h' value Hnd Hin Hs.
  { by apply elem_of_nil in Hin. }
  cbn in Hnd. apply NoDup_cons in Hnd as [Hhead Hnd]. cbn in Hs.
  destruct (SetFromMap_case h key val) as [h1| |] eqn:Hcase; try done.
  apply elem_of_cons in Hin as [Heq|Hin].
  - simplify_eq. rewrite (SetFromMap_params entries h1 h' _ Hhead Hs).
    unfold SetFromMap_case in Hcase.
    rewrite (bool_decide_eq_true_2 (TagTCID = TagTCID)) in Hcase by done.
    rewrite orb_true_r in Hcase. simplify_eq. cbn.
    by rewrite lookup_insert_eq.
  - by eapply IH.
Qed.

Lemma leUint32_zero b0 b1 b2 b3 rest :
  Forall is_byte [b0; b1; b2; b3] ->
  leUint32 (b0 :: b1 :: b2 :: b3 :: rest) = Some 0 <->
  b0 = 0 /\ b1 = 0 /\ b2 = 0 /\ b3 = 0.
Proof.
  intros Hb. cbn [leUint32]. split.
  - intros Heq. simplify_eq.
    apply Z.lor_eq_0_iff in Heq as [Heq H3].
    apply Z.lor_eq_0_iff in Heq as [Heq H2].
    apply Z.lor_eq_0_iff in Heq as [H0 H1].
    inversion Hb as [|? ? B0 Hb1]; subst.
    inversion Hb1 as [|? ? B1 Hb2]; subst.
    inversion Hb2 as [|? ? B2 Hb3]; subst.
    inversion Hb3 as [|? ? B3 _]; subst.
    unfold is_byte, wrap32 in *.
    rewrite Z.shiftl_mul_pow2 in H1, H2, H3 by lia.
    change (2 ^ 8) with 256 in *. change (2 ^ 16) with 65536 in *.
    change (2 ^ 24) with 16777216 in *. change (2 ^ 32) with 4294967296 in *.
    rewrite Z.mod_small in H1, H2, H3 by lia. lia.
  - by intros (-> & -> & -> & ->).
Qed.

End ConnectionParametersMoreFacts.

(** X9 (the order of the map does not matter): Go visits the entries of the
    peer's map in any order; whenever [SetFromMap] returns nil for one
    order of the entries, it returns nil and leaves the same manager for
    every other order. *)
Theorem SetFromMap_order_independent `{!Handshake.protocolConstants}
    (h : Handshake.ConnectionParametersManager)
    (entries entries' : list (Z * list Z)) :
  NoDup entries.*1 ->
  entries ≡ₚ entries' ->
  (Handshake.SetFromMap h entries).2 = Ok tt ->
  Handshake.SetFromMap h entries' = Handshake.SetFromMap h entries.
Proof. intros Hnd Hperm Hok. by apply SetFromMap_perm. Qed.

(** [SetFromMap_order_independent] on a new manager and the two orders of
    a map with SFCW and ICSL. *)
Lemma SetFromMap_order_independent_witness :
  let h := @Handshake.NewConnectionParamatersManager exampleConstants in
  @Handshake.SetFromMap exampleConstants h
    [(0x4C534349, [90; 0; 0; 0]); (0x57434653, [0; 64; 0; 0])]
  = @Handshake.SetFromMap exampleConstants h
      [(0x57434653, [0; 64; 0; 0]); (0x4C534349, [90; 0; 0; 0])].
Proof.
  cbv zeta.
  apply (@SetFromMap_order_independent exampleConstants
           (@Handshake.NewConnectionParamatersManager exampleConstants)
           [(0x57434653, [0; 64; 0; 0]); (0x4C534349, [90; 0; 0; 0])]
           [(0x4C534349, [90; 0; 0; 0]); (0x57434653, [0; 64; 0; 0])]).
  - cbn. compute_done.
  - apply Permutation_swap.
  - vm_compute. reflexivity.
Defined.

(** X10 (the peer cannot change the receive windows): whatever the entries
    of the peer's map and whether or not [SetFromMap] returns an error, the
    receive windows of the manager stay as they were. *)
Theorem SetFromMap_keeps_receive_windows `{!Handshake.protocolConstants}
    (entries : list (Z * list Z)) (h : Handshake.ConnectionParametersManager) :
  let h' := (Handshake.SetFromMap h entries).1 in
  Handshake.GetReceiveStreamFlowControlWindow h'
  = Handshake.GetReceiveStreamFlowControlWindow h /\
  Handshake.GetReceiveConnectionFlowControlWindow h'
  = Handshake.GetReceiveConnectionFlowControlWindow h.
Proof.
  cbv zeta.
  unfold Handshake.GetReceiveStreamFlowControlWindow,
    Handshake.GetReceiveConnectionFlowControlWindow.
  revert h. induction entries as [|[key value] entries IH]; intros h;
    [done|]. cbn [Handshake.SetFromMap].
  destruct (Handshake.SetFromMap_case h key value) as [h1| |] eqn:Hcase;
    [|done..].
  destruct (SetFromMap_case_receive _ _ _ _ Hcase) as [<- <-]. apply IH.
Qed.

(** X11 (truncated connection IDs): after [SetFromMap] has returned nil for
    a map that holds the TCID tag with a value of bytes,
    [TruncateConnectionID] returns true exactly when the value starts with
    four zero bytes; a shorter value gives false, and it never panics. *)
Theorem SetFromMap_TruncateConnectionID `{!Handshake.protocolConstants}
    (h h' : Handshake.ConnectionParametersManager)
    (entries : list (Z * list Z)) (value : list Z) :
  NoDup entries.*1 ->
  (Handshake.TagTCID, value) ∈ entries ->
  Forall is_byte value ->
  Handshake.SetFromMap h entries = (h', Ok tt) ->
  Handshake.TruncateConnectionID h'
  = Ok (bool_decide (take 4 value = [0; 0; 0; 0])).
Proof.
  intros Hnd Hin Hbytes Hs.
  unfold Handshake.TruncateConnectionID, Handshake.getRawValue.
  rewrite (SetFromMap_TCID entries h h' value Hnd Hin Hs).
  unfold Handshake.binaryReadUint32, Utils.ReadFull.
  destruct value as [|b0 [|b1 [|b2 [|b3 rest]]]];
    try (cbn; by rewrite bool_decide_eq_false_2 by done).
  cbn [length Nat.leb mbind result_bind take].
  assert (Hb : Forall is_byte [b0; b1; b2; b3]).
  { inversion Hbytes as [|? ? B0 Hb1]; subst.
    inversion Hb1 as [|? ? B1 Hb2]; subst.
    inversion Hb2 as [|? ? B2 Hb3]; subst.
    inversion Hb3 as [|? ? B3 _]; subst.
    repeat (apply Forall_cons; split; [done|]). apply Forall_nil_2. }
  pose proof (leUint32_zero b0 b1 b2 b3 [] Hb) as Hz.
  cbn [Handshake.leUint32] in Hz |- *.
  f_equal. apply bool_decide_ext. rewrite take_0. split.
  - intros Hv. by destruct (proj1 Hz (f_equal Some Hv)) as (-> & -> & -> & ->).
  - intros Heq. by simplify_eq.
Qed.

(** [SetFromMap_TruncateConnectionID] on a new manager and a map with a
    TCID value of four zero bytes. *)
Lemma SetFromMap_TruncateConnectionID_witness :
  let h := @Handshake.NewConnectionParamatersManager exampleConstants in
  @Handshake.TruncateConnectionID exampleConstants
    (@Handshake.SetFromMap exampleConstants h
       [(0x44494354, [0; 0; 0; 0])]).1
  = Ok true.
Proof.
  cbv zeta.
  apply (@SetFromMap_TruncateConnectionID exampleConstants
           (@Handshake.NewConnectionParamatersManager exampleConstants)
           (@Handshake.SetFromMap exampleConstants
              (@Handshake.NewConnectionParamatersManager exampleConstants)
              [(0x44494354, [0; 0; 0; 0])]).1
           [(0x44494354, [0; 0; 0; 0])] [0; 0; 0; 0]).
  - cbn. compute_done.
  - cbn. compute_done.
  - repeat constructor; unfold is_byte; lia.
  - vm_compute. reflexivity.
Defined.

(** ** The SHLO map of one side, applied by the other side *)

Section SHLOMapFacts.
Import Utils Handshake.
Context `{!protocolConstants}.

Lemma ReadUint32_WriteUint32 v :
  is_uint32 v -> ReadUint32 (WriteUint32 [] v) = Ok (v, []).
Proof.
  intros Hv. rewrite WriteUint32_le32. cbn [app].
  rewrite <- (app_nil_r (le32 v)). by apply ReadUint32_le32.
Qed.

(** The entries of the SHLO map, in the order of the map literal. *)
Lemma GetSHLOMap_entries h :
  NoDup [TagMSPC; TagTCID; TagICSL; TagSFCW; TagCFCW] ->
  map_to_list (GetSHLOMap h) ≡ₚ
    [(TagICSL,
      WriteUint32 [] (wrap32 (Z.quot (GetIdleConnectionStateLifetime h) Second)));
     (TagMSPC, [100; 0; 0; 0]);
     (TagCFCW, WriteUint32 [] (wrap32 (GetReceiveConnectionFlowControlWindow h)));
     (TagSFCW, WriteUint32 [] (wrap32 (GetReceiveStreamFlowControlWindow h)))].
Proof.
  intros Hnd. unfold GetSHLOMap.
  assert (TagICSL <> TagMSPC /\ TagICSL <> TagCFCW /\ TagICSL <> TagSFCW /\
          TagMSPC <> TagCFCW /\ TagMSPC <> TagSFCW /\ TagCFCW <> TagSFCW)
    as (? & ? & ? & ? & ? & ?).
  { repeat match goal with
           | H : NoDup (_ :: _) |- _ => apply NoDup_cons in H as [? ?]
           end.
    repeat match goal with
           | H : _ ∉ _ :: _ |- _ => apply not_elem_of_cons in H as [? ?]
           end.
    repeat split; congruence. }
  rewrite map_to_list_insert
    by (rewrite !lookup_insert_ne by done; by apply lookup_singleton_ne).
  rewrite map_to_list_insert
    by (rewrite !lookup_insert_ne by done; by apply lookup_singleton_ne).
  rewrite map_to_list_insert by (by apply lookup_singleton_ne).
  by rewrite map_to_list_singleton.
Qed.

End SHLOMapFacts.

(** X12 (what one side advertises, the other side may send): when the five
    tags are distinct and the receive windows of [h1] fit 32 bits, a manager
    that applies the entries of [h1]'s SHLO map with [SetFromMap], in any
    order, gets no error, has [h1]'s receive windows as its send windows,
    and as idle lifetime the minimum of [h1]'s lifetime cut to full seconds
    and [MaxIdleConnectionStateLifetime]. *)
Theorem GetSHLOMap_SetFromMap `{!Handshake.protocolConstants}
    (h1 h2 : Handshake.ConnectionParametersManager)
    (entries : list (Z * list Z)) :
  NoDup [Handshake.TagMSPC; Handshake.TagTCID; Handshake.TagICSL;
         Handshake.TagSFCW; Handshake.TagCFCW] ->
  is_uint32 (Handshake.GetReceiveStreamFlowControlWindow h1) ->
  is_uint32 (Handshake.GetReceiveConnectionFlowControlWindow h1) ->
  0 <= Handshake.GetIdleConnectionStateLifetime h1 < 2 ^ 32 * Handshake.Second ->
  entries ≡ₚ map_to_list (Handshake.GetSHLOMap h1) ->
  (Handshake.SetFromMap h2 entries).2 = Ok tt /\
  Handshake.GetSendStreamFlowControlWindow (Handshake.SetFromMap h2 entries).1
  = Handshake.GetReceiveStreamFlowControlWindow h1 /\
  Handshake.GetSendConnectionFlowControlWindow
    (Handshake.SetFromMap h2 entries).1
  = Handshake.GetReceiveConnectionFlowControlWindow h1 /\
  Handshake.GetIdleConnectionStateLifetime (Handshake.SetFromMap h2 entries).1
  = Z.min (Handshake.GetIdleConnectionStateLifetime h1 / Handshake.Second
           * Handshake.Second)
      Handshake.MaxIdleConnectionStateLifetime.
Proof.
  intros Hnd Hs Hc Hi Hperm.
  rewrite (GetSHLOMap_entries h1 Hnd) in Hperm.
  assert (Hne : Handshake.TagICSL <> Handshake.TagMSPC /\
                Handshake.TagICSL <> Handshake.TagTCID /\
                Handshake.TagSFCW <> Handshake.TagMSPC /\
                Handshake.TagSFCW <> Handshake.TagTCID /\
                Handshake.TagSFCW <> Handshake.TagICSL /\
                Handshake.TagCFCW <> Handshake.TagMSPC /\
                Handshake.TagCFCW <> Handshake.TagTCID /\
                Handshake.TagCFCW <> Handshake.TagICSL /\
                Handshake.TagCFCW <> Handshake.TagSFCW).
  { clear -Hnd.
    repeat match goal with
           | H : NoDup (_ :: _) |- _ => apply NoDup_cons in H as [? ?]
           end.
    repeat match goal with
           | H : _ ∉ _ :: _ |- _ => apply not_elem_of_cons in H as [? ?]
           end.
    repeat split; congruence. }
  destruct Hne as (? & ? & ? & ? & ? & ? & ? & ? & ?).
  set (q := Z.quot (Handshake.GetIdleConnectionStateLifetime h1)
              Handshake.Second) in *.
  assert (Hq : q = Handshake.GetIdleConnectionStateLifetime h1
                   / Handshake.Second).
  { subst q. apply Z.quot_div_nonneg; [lia|]. unfold Handshake.Second. lia. }
  assert (Hq32 : is_uint32 q).
  { rewrite Hq. unfold is_uint32, Handshake.Second in *. split.
    - apply Z.div_pos; lia.
    - apply Z.div_lt_upper_bound; lia. }
  assert (Hw : forall v, is_uint32 v -> wrap32 v = v).
  { intros v Hv. unfold wrap32. by apply Z.mod_small. }
  rewrite !Hw in Hperm by done.
  match type of Hperm with
  | _ ≡ₚ ?l =>
      assert (Hrun : Handshake.SetFromMap h2 l
                = (Handshake.mkConnectionParametersManager
                     (<[Handshake.TagMSPC := [100; 0; 0; 0]]>
                        (Handshake.params h2))
                     (Z.min (q * Handshake.Second)
                        Handshake.MaxIdleConnectionStateLifetime)
                     (Handshake.GetReceiveStreamFlowControlWindow h1)
                     (Handshake.GetReceiveConnectionFlowControlWindow h1)
                     (Handshake.receiveStreamFlowControlWindow h2)
                     (Handshake.receiveConnectionFlowControlWindow h2),
                   Ok tt))
  end.
  { unfold is_uint32 in Hq32. change (2 ^ 32) with 4294967296 in Hq32.
    assert (Hi1 : Handshake.toInt64 q = q).
    { unfold Handshake.toInt64. change (2 ^ 63) with 9223372036854775808.
      change (2 ^ 64) with 18446744073709551616.
      rewrite Z.mod_small; lia. }
    assert (Hi2 : Handshake.toInt64 (q * Handshake.Second)
                  = q * Handshake.Second).
    { unfold Handshake.toInt64, Handshake.Second.
      change (2 ^ 63) with 9223372036854775808.
      change (2 ^ 64) with 18446744073709551616.
      rewrite Z.mod_small; lia. }
    cbn [Handshake.SetFromMap]. unfold Handshake.SetFromMap_case.
    rewrite !ReadUint32_WriteUint32 by done.
    repeat first
      [ rewrite bool_decide_eq_false_2 by done
      | rewrite (bool_decide_eq_true_2 (_ = _)) by done
      | progress cbn [orb mbind result_bind fst snd Handshake.params
           Handshake.idleConnectionStateLifetime
           Handshake.sendStreamFlowControlWindow
           Handshake.sendConnectionFlowControlWindow
           Handshake.receiveStreamFlowControlWindow
           Handshake.receiveConnectionFlowControlWindow] ].
    unfold Handshake.negotiateIdleConnectionStateLifetime.
    by rewrite MinDuration_min, Hi1, Hi2. }
  match type of Hperm with
  | _ ≡ₚ ?l =>
      rewrite (SetFromMap_perm l entries); [| by symmetry | | by rewrite Hrun]
  end.
  - rewrite Hrun. cbn. by rewrite Hq.
  - cbn. repeat (apply NoDup_cons; split);
      rewrite ?not_elem_of_cons, ?elem_of_nil; try tauto; try apply NoDup_nil_2;
      repeat split; congruence.
Qed.

(** [GetSHLOMap_SetFromMap] on two new managers. *)
Lemma GetSHLOMap_SetFromMap_witness :
  let h := @Handshake.NewConnectionParamatersManager exampleConstants in
  let entries := map_to_list (@Handshake.GetSHLOMap exampleConstants h) in
  (@Handshake.SetFromMap exampleConstants h entries).2 = Ok tt /\
  Handshake.GetSendStreamFlowControlWindow
    (@Handshake.SetFromMap exampleConstants h entries).1 = 32768 /\
  Handshake.GetSendConnectionFlowControlWindow
    (@Handshake.SetFromMap exampleConstants h entries).1 = 49152 /\
  Handshake.GetIdleConnectionStateLifetime
    (@Handshake.SetFromMap exampleConstants h entries).1
  = 30 * Handshake.Second.
Proof.
  cbv zeta.
  apply (@GetSHLOMap_SetFromMap exampleConstants
           (@Handshake.NewConnectionParamatersManager exampleConstants)
           (@Handshake.NewConnectionParamatersManager exampleConstants)
           (map_to_list
              (@Handshake.GetSHLOMap exampleConstants
                 (@Handshake.NewConnectionParamatersManager exampleConstants)))).
  - cbn. compute_done.
  - unfold is_uint32. cbn. lia.
  - unfold is_uint32. cbn. lia.
  - cbn. unfold Handshake.Second. lia.
  - reflexivity.
Defined.

(** ** More on the received-packet handler *)

Section ReceivedPacketMoreFacts.
Import AckHandler.
Context `{!EntropyAccumulatorOps}.

Lemma nacked_snoc ranges r n :
  nacked (ranges ++ [r]) n <->
  nacked ranges n \/ FirstPacketNumber r <= n <= LastPacketNumber r.
Proof. unfold nacked. by rewrite Exists_app, Exists_cons, Exists_nil; tauto. Qed.

(** The loop of [getNackRanges] collects the missing packet numbers: at
    packet number [i] the ranges hold exactly the numbers above [i] that
    are not in the history. *)
Lemma getNackRanges_loop_exact h fuel :
  forall i ranges inRange entropy,
    0 <= highestInOrderObserved h ->
    i <= largestObserved h -> largestObserved h < 2 ^ 64 ->
    i - highestInOrderObserved h <= Z.of_nat fuel ->
    loopInv h i ranges inRange ->
    (forall n, i < n <= largestObserved h ->
               (packetHistory h !! n = None <-> nacked ranges n)) ->
    forall n, highestInOrderObserved h < n <= largestObserved h ->
      (packetHistory h !! n = None <->
       nacked (getNackRanges_loop h fuel i ranges inRange entropy).1 n).
Proof.
  induction fuel as [|fuel IH];
    intros i ranges inRange entropy H0 Hi Hmax Hfuel Hinv Hcov n Hn;
    cbn [getNackRanges_loop].
  { destruct (Z.ltb_spec (highestInOrderObserved h) i); [lia|].
    apply Hcov. lia. }
  destruct (Z.ltb_spec (highestInOrderObserved h) i) as [Hlt|Hge];
    [|apply Hcov; lia].
  assert (Hw : wrap64 (i - 1) = i - 1).
  { apply wrap64_small. lia. }
  rewrite Hw. destruct Hinv as (Hd & Hall & Hlast).
  destruct (packetHistory h !! i) as [p|] eqn:Hp.
  - apply IH; [done|lia|done|lia| |intros m Hm|done].
    + split; [done|]. split; [|done].
      eapply Forall_impl; [exact Hall|]. cbn. intros r [? ?].
      split; [lia|done].
    + destruct (decide (m = i)) as [->|Hne]; [|apply Hcov; lia].
      rewrite Hp. split; [done|]. unfold nacked. rewrite Exists_exists.
      intros (r & Hr & Hr1). rewrite Forall_forall in Hall.
      destruct (Hall r Hr) as [? _]. lia.
  - destruct inRange; cbn [negb].
    + destruct (Hlast eq_refl) as (l & r & -> & Hr).
      rewrite decrementLastFirst_snoc.
      replace (wrap64 (FirstPacketNumber r - 1)) with i
        by (rewrite Hr, wrap64_small; lia).
      apply descending_snoc in Hd as [Hdl Hdr].
      apply Forall_app in Hall as [Halll Hallr].
      apply Forall_singleton in Hallr as (_ & Hr1 & Hr2 & Hr3).
      apply IH; [done|lia|done|lia| |intros m Hm|done].
      * split; [|split].
        -- apply descending_snoc. by split.
        -- apply Forall_app. split.
           ++ eapply Forall_impl; [exact Halll|]. cbn. intros ? [? ?].
              split; [lia|done].
           ++ apply Forall_singleton. unfold rangeWithin. cbn. lia.
        -- intros _. eexists l, _. split; [done|]. cbn. lia.
      * rewrite nacked_snoc. cbn.
        destruct (decide (m = i)) as [->|Hne].
        -- rewrite Hp. split; [intros _; right; lia|done].
        -- rewrite (Hcov m) by lia. rewrite nacked_snoc. split.
           ++ intros [?|?]; [by left|right; lia].
           ++ intros [?|?]; [by left|right; lia].
    + apply IH; [done|lia|done|lia| |intros m Hm|done].
      * split; [|split].
        -- apply descending_snoc. split; [done|].
           eapply Forall_impl; [exact Hall|]. cbn. by intros ? [? ?].
        -- apply Forall_app. split.
           ++ eapply Forall_impl; [exact Hall|]. cbn. intros ? [? ?].
              split; [lia|done].
           ++ apply Forall_singleton. unfold rangeWithin. cbn. lia.
        -- intros _. eexists ranges, _. split; [done|]. cbn. lia.
      * rewrite nacked_snoc. cbn.
        destruct (decide (m = i)) as [->|Hne].
        -- rewrite Hp. split; [intros _; right; lia|done].
        -- rewrite (Hcov m) by lia. split; [by left|].
           intros [?|?]; [done|lia].
Qed.

End ReceivedPacketMoreFacts.

(** X13 (the NACK ranges are the missing packets): the ranges that
    [getNackRanges] returns hold a packet number exactly when it lies above
    [highestInOrderObserved], at or below [largestObserved], and is not in
    the packet history. *)
Theorem getNackRanges_exact `{!AckHandler.EntropyAccumulatorOps}
    (h : AckHandler.receivedPacketHandler) (n : Z) :
  0 <= AckHandler.highestInOrderObserved h ->
  AckHandler.largestObserved h < 2 ^ 64 ->
  nacked (AckHandler.getNackRanges h).1 n <->
  AckHandler.highestInOrderObserved h < n <= AckHandler.largestObserved h /\
  AckHandler.packetHistory h !! n = None.
Proof.
  intros H0 Hmax.
  pose proof (getNackRanges_ok h H0 Hmax) as [_ Hwithin].
  assert (Hexact : AckHandler.highestInOrderObserved h < n
                     <= AckHandler.largestObserved h ->
                   (AckHandler.packetHistory h !! n = None <->
                    nacked (AckHandler.getNackRanges h).1 n)).
  { unfold AckHandler.getNackRanges.
    apply getNackRanges_loop_exact; [done|lia|done|lia| |].
    - split; [done|]. split; [constructor|done].
    - intros m Hm. lia. }
  split.
  - intros Hnacked.
    assert (Hin : AckHandler.highestInOrderObserved h < n
                    <= AckHandler.largestObserved h).
    { unfold nacked in Hnacked. rewrite Exists_exists in Hnacked.
      destruct Hnacked as (r & Hr & Hrn). rewrite Forall_forall in Hwithin.
      destruct (Hwithin r Hr) as (? & ? & ?). lia. }
    split; [done|]. by apply Hexact.
  - intros [Hin Hnone]. by apply Hexact.
Qed.

(** [getNackRanges_exact] on a handler that has received the packets 1, 2,
    5 and 8: packet 6 is in a NACK range. *)
Lemma getNackRanges_exact_witness :
  let h := @AckHandler.run xorEntropy
             [AckHandler.CallReceivedPacket 1 true 0;
              AckHandler.CallReceivedPacket 2 false 0;
              AckHandler.CallReceivedPacket 5 true 0;
              AckHandler.CallReceivedPacket 8 true 0] in
  nacked (@AckHandler.getNackRanges xorEntropy h).1 6.
Proof.
  cbv zeta.
  apply (@getNackRanges_exact xorEntropy
           (@AckHandler.run xorEntropy
              [AckHandler.CallReceivedPacket 1 true 0;
               AckHandler.CallReceivedPacket 2 false 0;
               AckHandler.CallReceivedPacket 5 true 0;
               AckHandler.CallReceivedPacket 8 true 0]) 6).
  - vm_compute. discriminate.
  - vm_compute. reflexivity.
  - split; [vm_compute; split; [reflexivity|discriminate]|].
    vm_compute. reflexivity.
Defined.

Section GetAckFrameFacts.
Import AckHandler.
Context `{!EntropyAccumulatorOps}.

Lemma step_largestInv h c :
  call_wf c -> largestInv h -> largestInv (step h c).
Proof.
  intros Hc [Hl Hcache]. destruct c as [n e now|f|dequeue];
    cbn [step call_wf] in *.
  - unfold ReceivedPacket. unfold is_uint64 in Hc.
    case_bool_decide as Hn0; [done|].
    destruct ((n <=? highestInOrderObserved h)
              || bool_decide (is_Some (packetHistory h !! n))); [done|].
    destruct (bool_decide (n = wrap64 (highestInOrderObserved h + 1)));
      (split; [right|done]); cbn.
    all: destruct (Z.ltb_spec (largestObserved h) n) as [Hlt|Hge];
      [by rewrite lookup_insert_eq|].
    all: destruct (decide (n = largestObserved h)) as [->|Hne];
      [by rewrite lookup_insert_eq|].
    all: rewrite lookup_insert_ne by done.
    all: destruct Hl as [[H0 _]|?]; [lia|done].
  - unfold ReceivedStopWaiting.
    destruct (LeastUnacked f <=? highestInOrderObserved h); done.
  - assert (Hinv : largestInv h) by (by split). unfold GetAckFrame.
    destruct (stateChanged h) eqn:Hsc; cbn [negb fst]; [|exact Hinv].
    destruct Hl as [[_ ?]|Hin]; [congruence|].
    destruct dequeue;
      cbn [currentAckFrame packetHistory largestObserved stateChanged].
    all: destruct (currentAckFrame h) as [fr|] eqn:Hfr.
    all: try (split; [by right|]; cbn; by rewrite ?Hfr).
    all: destruct Hin as [p Hp]; rewrite Hp.
    all: match goal with
         | |- context [getNackRanges ?hh] =>
             destruct (getNackRanges hh) as [ranges entropy]
         end.
    all: split; [right; cbn; by rewrite Hp|].
    all: cbn; intros ? ?; by simplify_eq.
Qed.

Lemma reachable_largestInv h : reachable h -> largestInv h.
Proof.
  intros (cs & Hcs & ->). unfold run.
  assert (Hgen : forall h0, largestInv h0 -> largestInv (foldl step h0 cs)).
  { induction Hcs as [|c cs Hc _ IH]; intros h0 Hh0; [done|].
    cbn [foldl]. apply IH. by apply step_largestInv. }
  apply Hgen. split; [by left|done].
Qed.

End GetAckFrameFacts.

(** X14 (a pending ACK is always delivered): in every state the calls reach
    from a new handler in which an ACK is pending, [GetAckFrame] returns a
    frame and never [ErrMapAccess]; the frame acknowledges the largest
    observed packet, also when it comes from the cache, and the ACK stays
    pending exactly when the frame was not dequeued. *)
Theorem GetAckFrame_acks_largest `{!AckHandler.EntropyAccumulatorOps}
    (h : AckHandler.receivedPacketHandler) (dequeue : bool) :
  AckHandler.reachable h ->
  AckHandler.stateChanged h = true ->
  exists f,
    (AckHandler.GetAckFrame h dequeue).2 = Ok (Some f) /\
    AckHandler.LargestObserved f = AckHandler.largestObserved h /\
    AckHandler.currentAckFrame (AckHandler.GetAckFrame h dequeue).1 = Some f /\
    AckHandler.stateChanged (AckHandler.GetAckFrame h dequeue).1
    = negb dequeue.
Proof.
  intros Hreach Hsc.
  destruct (reachable_largestInv h Hreach) as [Hl Hcache].
  destruct Hl as [[_ ?]|[p Hp]]; [congruence|].
  unfold AckHandler.GetAckFrame. rewrite Hsc. cbn [negb].
  destruct dequeue;
    cbn [AckHandler.currentAckFrame AckHandler.packetHistory
           AckHandler.largestObserved AckHandler.stateChanged].
  all: destruct (AckHandler.currentAckFrame h) as [fr|] eqn:Hfr.
  all: try (exists fr; cbn; rewrite ?Hfr, ?Hsc; repeat split; try done;
            by apply Hcache).
  all: rewrite Hp.
  all: match goal with
       | |- context [AckHandler.getNackRanges ?hh] =>
           destruct (AckHandler.getNackRanges hh) as [ranges entropy]
       end.
  all: eexists; cbn; rewrite ?Hsc; repeat split; done.
Qed.

(** [GetAckFrame_acks_largest] after the packets 1 and 3. *)
Lemma GetAckFrame_acks_largest_witness :
  let h := @AckHandler.run xorEntropy
             [AckHandler.CallReceivedPacket 1 true 0;
              AckHandler.CallReceivedPacket 3 true 0] in
  exists f,
    (@AckHandler.GetAckFrame xorEntropy h true).2 = Ok (Some f) /\
    AckHandler.LargestObserved f = 3 /\
    AckHandler.currentAckFrame (@AckHandler.GetAckFrame xorEntropy h true).1
    = Some f /\
    AckHandler.stateChanged (@AckHandler.GetAckFrame xorEntropy h true).1
    = false.
Proof.
  cbv zeta.
  apply (@GetAckFrame_acks_largest xorEntropy
           (@AckHandler.run xorEntropy
              [AckHandler.CallReceivedPacket 1 true 0;
               AckHandler.CallReceivedPacket 3 true 0]) true).
  - eexists. split; [|reflexivity].
    repeat constructor; cbn; unfold is_uint64; lia.
  - reflexivity.
Defined.

(** X15 (only a new packet makes an ACK pending): when no ACK is pending,
    [GetAckFrame] returns neither a frame nor an error and changes nothing,
    and the only call after which an ACK is pending is a [ReceivedPacket]
    that returns nil; a duplicate packet, a STOP_WAITING frame and
    [GetAckFrame] leave no ACK pending.  After a [GetAckFrame] that
    dequeues, no ACK is pending. *)
Theorem ack_pending_only_after_packet `{!AckHandler.EntropyAccumulatorOps}
    (h : AckHandler.receivedPacketHandler) (c : AckHandler.call)
    (dequeue : bool) :
  AckHandler.stateChanged (AckHandler.GetAckFrame h true).1 = false /\
  (AckHandler.stateChanged h = false ->
   AckHandler.GetAckFrame h dequeue = (h, Ok None) /\
   (AckHandler.stateChanged (AckHandler.step h c) = true ->
    exists n e now,
      c = AckHandler.CallReceivedPacket n e now /\
      (AckHandler.ReceivedPacket h n e now).2 = None)).
Proof.
  split.
  { unfold AckHandler.GetAckFrame.
    destruct (AckHandler.stateChanged h) eqn:Hsc; cbn [negb]; [|done].
    cbn [AckHandler.currentAckFrame AckHandler.packetHistory
           AckHandler.largestObserved].
    destruct (AckHandler.currentAckFrame h); [done|].
    destruct (AckHandler.packetHistory h !! AckHandler.largestObserved h);
      [|done].
    match goal with
    | |- context [AckHandler.getNackRanges ?hh] =>
        by destruct (AckHandler.getNackRanges hh)
    end. }
  intros Hsc. split.
  { unfold AckHandler.GetAckFrame. by rewrite Hsc. }
  destruct c as [n e now|f|d]; cbn [AckHandler.step].
  - intros Hafter. exists n, e, now. split; [done|].
    revert Hafter. unfold AckHandler.ReceivedPacket.
    destruct (bool_decide (n = 0)); cbn [fst snd]; [congruence|].
    destruct ((n <=? AckHandler.highestInOrderObserved h)
              || bool_decide (is_Some (AckHandler.packetHistory h !! n)));
      cbn [fst snd]; [congruence|].
    by destruct (bool_decide _).
  - unfold AckHandler.ReceivedStopWaiting.
    destruct (_ <=? _); cbn; congruence.
  - unfold AckHandler.GetAckFrame. rewrite Hsc. cbn. congruence.
Qed.

(** X16 (the counters never fall): no call lowers [largestObserved], and
    no call lowers [highestInOrderObserved] either, which a STOP_WAITING
    frame may raise above [largestObserved]. *)
Theorem counters_never_fall `{!AckHandler.EntropyAccumulatorOps}
    (h : AckHandler.receivedPacketHandler) (c : AckHandler.call) :
  AckHandler.call_wf c ->
  0 <= AckHandler.highestInOrderObserved h ->
  AckHandler.highestInOrderObserved h
  <= AckHandler.highestInOrderObserved (AckHandler.step h c) /\
  AckHandler.largestObserved h
  <= AckHandler.largestObserved (AckHandler.step h c).
Proof.
  intros Hc H0. destruct c as [n e now|f|dequeue];
    cbn [AckHandler.step AckHandler.call_wf] in *.
  - unfold AckHandler.ReceivedPacket.
    destruct (bool_decide (n = 0)); [done|].
    destruct (Z.leb_spec n (AckHandler.highestInOrderObserved h));
      cbn [orb]; [done|].
    destruct (bool_decide (is_Some (AckHandler.packetHistory h !! n)));
      [done|].
    destruct (bool_decide (n = wrap64 (AckHandler.highestInOrderObserved h + 1)));
      destruct (Z.ltb_spec (AckHandler.largestObserved h) n); cbn; lia.
  - unfold AckHandler.ReceivedStopWaiting. unfold is_uint64 in Hc.
    destruct (Z.leb_spec (AckHandler.LeastUnacked f)
                (AckHandler.highestInOrderObserved h)); cbn [fst]; [done|].
    cbn. rewrite wrap64_small by lia. lia.
  - unfold AckHandler.GetAckFrame.
    destruct (AckHandler.stateChanged h); cbn [negb fst]; [|done].
    destruct dequeue;
      cbn [AckHandler.currentAckFrame AckHandler.packetHistory
             AckHandler.largestObserved].
    all: destruct (AckHandler.currentAckFrame h); [done|].
    all: destruct (AckHandler.packetHistory h !! AckHandler.largestObserved h);
      [|done].
    all: match goal with
         | |- context [AckHandler.getNackRanges ?hh] =>
             by destruct (AckHandler.getNackRanges hh)
         end.
Qed.

(** [counters_never_fall] on a STOP_WAITING frame with least unacked packet
    10 after the packets 1 and 3. *)
Lemma counters_never_fall_witness :
  let h := @AckHandler.run xorEntropy
             [AckHandler.CallReceivedPacket 1 true 0;
              AckHandler.CallReceivedPacket 3 true 0] in
  let c := AckHandler.CallReceivedStopWaiting
             (AckHandler.mkStopWaitingFrame 10 0) in
  AckHandler.highestInOrderObserved h
  <= AckHandler.highestInOrderObserved (@AckHandler.step xorEntropy h c) /\
  AckHandler.largestObserved h
  <= AckHandler.largestObserved (@AckHandler.step xorEntropy h c).
Proof.
  cbv zeta.
  apply (@counters_never_fall xorEntropy
           (@AckHandler.run xorEntropy
              [AckHandler.CallReceivedPacket 1 true 0;
               AckHandler.CallReceivedPacket 3 true 0])
           (AckHandler.CallReceivedStopWaiting
              (AckHandler.mkStopWaitingFrame 10 0))).
  - cbn. unfold is_uint64. lia.
  - vm_compute. discriminate.
Defined.

(** ** The stream before flow control *)

Section EarlyStreamFacts.
Import Utils EarlyStream.

Lemma framesFrom_offsets sid cs : forall o,
  Forall (fun g => o <= Stream.Offset g) (framesFrom sid o cs).
Proof.
  induction cs as [|c cs IH]; intros o; cbn [framesFrom].
  - repeat constructor. cbn. lia.
  - constructor; [cbn; lia|].
    eapply Forall_impl; [apply IH|]. cbn. intros; lia.
Qed.

Lemma framesFrom_tail sid o cs :
  Forall (fun c => c <> []) cs ->
  exists f rest,
    framesFrom sid o cs = f :: rest /\ Stream.Offset f = o /\
    Forall (fun g => o < Stream.Offset g) rest.
Proof.
  intros Hcs. destruct cs as [|c cs]; cbn [framesFrom].
  - eexists _, _. split; [done|]. split; [done|constructor].
  - eexists _, _. split; [done|]. split; [done|].
    apply Forall_cons in Hcs as [Hc _].
    assert (0 < length c)%nat by (destruct c; [done|cbn; lia]).
    eapply Forall_impl; [apply framesFrom_offsets|]. cbn. intros; lia.
Qed.

Lemma framesFrom_length sid cs : forall o,
  length (framesFrom sid o cs) = S (length cs).
Proof. induction cs as [|c cs IH]; intros o; cbn; [done|]. by rewrite IH. Qed.

(** Moving the last frame of the queue to the place of the frame taken
    leaves the other frames. *)
Lemma removeFromQueue_perm q i g :
  q !! i = Some g -> g :: removeFromQueue q i ≡ₚ q.
Proof.
  intros Hi. unfold removeFromQueue.
  destruct q as [|x q0 _] using rev_ind; [done|].
  rewrite last_snoc, length_app. cbn [length].
  replace (length q0 + 1 - 1)%nat with (length q0) by lia.
  destruct (decide (i < length q0)%nat) as [Hlt|Hge].
  - rewrite lookup_app_l in Hi by done.
    rewrite insert_app_l by done.
    rewrite take_app_length' by (by rewrite length_insert).
    rewrite (insert_take_drop q0 i x) by done.
    rewrite <- (take_drop_middle q0 i g Hi) at 3.
    rewrite <- !Permutation_middle. cbn.
    rewrite app_nil_r. apply perm_swap.
  - apply lookup_lt_Some in Hi as Hlen. rewrite length_app in Hlen.
    cbn in Hlen. assert (i = length q0) as -> by lia.
    rewrite lookup_app_r, Nat.sub_diag in Hi by lia. cbn in Hi. simplify_eq.
    rewrite insert_app_r_alt, Nat.sub_diag by lia. cbn.
    rewrite take_app_length. apply Permutation_cons_append.
Qed.

Lemma getNextFrameInOrder_loop_holds f rest wait : forall ch s fuel,
  streamFrames s = Some <$> ch -> (length ch < fuel)%nat ->
  frameQueue s ++ ch ≡ₚ f :: rest ->
  Stream.Offset f = readOffset s ->
  Forall (fun g => readOffset s < Stream.Offset g) rest ->
  Forall (fun g => Stream.Offset g <> readOffset s) (frameQueue s) ->
  exists q' ch',
    getNextFrameInOrder_loop fuel s wait
    = (Stream.Returned (Some f, None),
       setStreamFrames (setFrameQueue s q') (Some <$> ch')) /\
    q' ++ ch' ≡ₚ rest.
Proof.
  induction ch as [|g ch IH]; intros s fuel Hch Hfuel Hperm Hf Hrest Hq.
  - exfalso. rewrite app_nil_r in Hperm. rewrite Forall_forall in Hq.
    apply (Hq f); [|done]. rewrite Hperm. by left.
  - destruct fuel as [|fuel]; [cbn in Hfuel; lia|].
    cbn [getNextFrameInOrder_loop]. unfold nextFrameInChan. rewrite Hch.
    cbn [fmap list_fmap]. cbv zeta. cbn match.
    set (s1 := setStreamFrames s (Some <$> ch)).
    change (readOffset s1) with (readOffset s).
    change (frameQueue s1) with (frameQueue s).
    assert (Hg : g ∈ f :: rest).
    { rewrite <- Hperm. apply elem_of_app. right. by left. }
    rewrite Forall_forall in Hrest.
    case_bool_decide as Hoff.
    + assert (g = f) as ->.
      { apply elem_of_cons in Hg as [?|Hg]; [done|].
        specialize (Hrest g Hg). lia. }
      exists (frameQueue s), ch. split; [subst s1; by destruct s|].
      rewrite <- Permutation_middle in Hperm.
      by apply Permutation_cons_inv in Hperm.
    + assert (Hgr : g ∈ rest).
      { apply elem_of_cons in Hg as [->|Hg]; [done|done]. }
      pose proof (Hrest g Hgr) as Hgo.
      destruct (Z.ltb_spec (Stream.Offset g) (readOffset s)); [lia|].
      destruct (IH (setFrameQueue s1 (frameQueue s ++ [g])) fuel)
        as (q' & ch' & Hrun & Hperm').
      { done. }
      { cbn in Hfuel. lia. }
      { cbn. by rewrite <- app_assoc. }
      { done. }
      { cbn. by apply Forall_forall. }
      { cbn. apply Forall_app. split; [done|]. by apply Forall_singleton. }
      exists q', ch'. split; [|done]. rewrite Hrun. subst s1. by destruct s.
Qed.

Lemma getNextFrameInOrder_holds s sid cs ch wait :
  streamFrames s = Some <$> ch ->
  frameQueue s ++ ch ≡ₚ framesFrom sid (readOffset s) cs ->
  Forall (fun c => c <> []) cs ->
  exists f rest q' ch',
    framesFrom sid (readOffset s) cs = f :: rest /\
    getNextFrameInOrder s wait
    = (Stream.Returned (Some f, None),
       setStreamFrames (setFrameQueue s q') (Some <$> ch')) /\
    q' ++ ch' ≡ₚ rest.
Proof.
  intros Hch Hperm Hcs.
  destruct (framesFrom_tail sid (readOffset s) cs Hcs)
    as (f & rest & Hfr & Hf & Hrest).
  rewrite Hfr in Hperm. exists f, rest. unfold getNextFrameInOrder.
  destruct (list_find _ (frameQueue s)) as [[i g]|] eqn:Hfind.
  - apply list_find_Some in Hfind as (Hi & Hg & _).
    assert (g = f) as ->.
    { assert (Hin : g ∈ f :: rest).
      { rewrite <- Hperm. apply elem_of_app. left.
        by eapply list_elem_of_lookup_2. }
      apply elem_of_cons in Hin as [?|Hin]; [done|].
      rewrite Forall_forall in Hrest. specialize (Hrest g Hin). lia. }
    exists (removeFromQueue (frameQueue s) i), ch.
    split; [done|]. split.
    + rewrite <- Hch. by destruct s.
    + apply (Permutation_cons_inv (a := f)).
      rewrite <- Hperm. rewrite app_comm_cons.
      by rewrite (removeFromQueue_perm _ i f Hi).
  - apply list_find_None in Hfind.
    destruct (getNextFrameInOrder_loop_holds f rest wait ch s
                (S (length (streamFrames s))))
      as (q' & ch' & Hrun & Hperm'); try done.
    + rewrite Hch, length_fmap. lia.
    + exists q', ch'. by split.
Qed.


Lemma readFromFrame_holds sid continue s f cs p b :
  holds s sid cs -> currentFrame s = Some f -> (b < length p)%nat ->
  (forall s' cs' p' b',
     holds s' sid cs' -> (length cs' < length cs)%nat ->
     (b' <= length p')%nat ->
     readPost sid cs' p' b' (continue s' p' (Z.of_nat b'))) ->
  (forall s' p',
     continue s' p' (Z.of_nat (length p'))
     = (Stream.Returned (Z.of_nat (length p'), None), s', p')) ->
  readPost sid cs p b (readFromFrame continue s f p (Z.of_nat b)).
Proof.
  intros (Herr & Hro0 & Hmax & Hne & ch & Hch & Hcur) Hf Hb Hcont Hend.
  rewrite Hf in Hcur. destruct Hcur as (Hr & Hfin & cs1 & -> & Hperm).
  remember (readPosInFrame s) as r eqn:Hreq.
  remember (Stream.Data f) as d eqn:Hdeq.
  remember (drop (Z.to_nat r) d) as c eqn:Hceq.
  assert (Hc : length c = (length d - Z.to_nat r)%nat)
    by (subst c; apply length_drop).
  unfold readFromFrame. rewrite <- Hdeq, <- Hreq.
  rewrite (proj2 (Z.ltb_ge r 0)) by lia.
  rewrite (proj2 (Z.ltb_ge (Z.of_nat (length d)) r)) by lia. cbn [orb].
  cbn [concat] in *. rewrite length_app in Hmax.
  apply Forall_cons in Hne as [Hcne Hne1].
  unfold Min. rewrite Nat2Z.id.
  unfold readPost. cbn zeta. cbn [concat length].
  rewrite length_app.
  destruct (Z.ltb_spec (Z.of_nat (length p) - Z.of_nat b)
              (Z.of_nat (length d) - r)) as [Hlt|Hge].
  - (* the buffer is full before the frame ends *)
    replace (Z.to_nat (Z.of_nat (length p) - Z.of_nat b))
      with (length p - b)%nat by lia.
    replace (Z.to_nat (Z.of_nat b + (Z.of_nat (length p) - Z.of_nat b)))
      with (length p) by lia.
    rewrite drop_all, app_nil_r, <- Hceq.
    cbn [setReadPos readPosInFrame].
    rewrite (proj2 (Z.leb_gt _ _)) by lia.
    replace (Z.of_nat b + (Z.of_nat (length p) - Z.of_nat b))
      with (Z.of_nat (length (take b p ++ take (length p - b) c))).
    2:{ rewrite length_app, !length_take. lia. }
    rewrite Hend.
    destruct (decide (length p - b <= length c + length (concat cs1))%nat);
      [|lia].
    eexists _, (drop (length p - b) c :: cs1). split; [|split].
    + f_equal; [|by rewrite take_app_le by lia].
      do 3 f_equal. rewrite length_app, !length_take. lia.
    + assert (Hw : wrap64 (readOffset s + (Z.of_nat (length p) - Z.of_nat b))
                   = readOffset s + (Z.of_nat (length p) - Z.of_nat b)).
      { apply wrap64_small. lia. }
      rewrite Hw. split; [done|]. cbn. split; [lia|]. split.
      { rewrite length_app, length_drop. lia. }
      split.
      { constructor; [|done]. intros Hnil.
        apply (f_equal length) in Hnil. rewrite length_drop in Hnil.
        cbn in Hnil. lia. }
      exists ch. split; [done|]. rewrite Hf, <- Hdeq.
      split; [lia|]. split; [done|]. exists cs1. split.
      * rewrite Hceq, drop_drop. f_equal. f_equal. lia.
      * replace (readOffset s + (Z.of_nat (length p) - Z.of_nat b)
                 + Z.of_nat (length d)
                 - (r + (Z.of_nat (length p) - Z.of_nat b)))
          with (readOffset s + Z.of_nat (length d) - r) by lia.
        done.
    + cbn [concat]. by rewrite drop_app_le by lia.
  - (* the frame ends *)
    replace (Z.to_nat (Z.of_nat (length d) - r)) with (length c) by lia.
    replace (Z.to_nat (Z.of_nat b + (Z.of_nat (length d) - r)))
      with (b + length c)%nat by lia.
    rewrite <- Hceq, firstn_all.
    cbn [setReadPos readPosInFrame].
    rewrite (proj2 (Z.leb_le _ _)) by lia. rewrite Hfin.
    replace (Z.of_nat b + (Z.of_nat (length d) - r))
      with (Z.of_nat (b + length c)) by lia.
    set (p' := take b p ++ c ++ drop (b + length c) p).
    assert (Hp' : length p' = length p).
    { subst p'. rewrite !length_app, length_take, length_drop. lia. }
    assert (Hw : wrap64 (readOffset s + (Z.of_nat (length d) - r))
                 = readOffset s + (Z.of_nat (length d) - r)).
    { apply wrap64_small. lia. }
    assert (Htake : take (b + length c) p' = take b p ++ c).
    { subst p'. rewrite app_assoc. rewrite take_app_length'; [done|].
      rewrite length_app, length_take. lia. }
    assert (Hdrop : forall k, drop (b + length c + k) p'
                              = drop (b + length c + k) p).
    { intros k. subst p'. rewrite app_assoc.
      rewrite drop_app_ge by (rewrite length_app, length_take; lia).
      rewrite length_app, length_take, drop_drop. f_equal. lia. }
    match goal with
    | |- context [continue ?s2 p' _] =>
        assert (Hs2 : holds s2 sid cs1);
        [|pose proof (Hcont s2 cs1 p' (b + length c)%nat Hs2) as Hpost]
    end.
    { rewrite Hw. split; [done|]. cbn. split; [lia|]. split; [lia|].
      split; [done|]. exists ch. split; [done|].
      replace (readOffset s + (Z.of_nat (length d) - r))
        with (readOffset s + Z.of_nat (length d) - r) by lia.
      done. }
    unfold readPost in Hpost. cbn zeta in Hpost. rewrite Hp' in Hpost.
    specialize (Hpost ltac:(cbn; lia) ltac:(lia)).
    destruct (decide (length p - (b + length c) <= length (concat cs1))%nat)
      as [Hn1|Hn1];
      destruct (decide (length p - b <= length c + length (concat cs1))%nat)
        as [Hn|Hn]; try lia.
    + destruct Hpost as (s' & cs' & -> & Hholds & Hconcat).
      exists s', cs'. split; [|split; [done|]].
      * f_equal. rewrite Htake, <- app_assoc. f_equal.
        rewrite take_app_ge by lia. f_equal. f_equal. lia.
      * rewrite Hconcat. rewrite drop_app_ge by lia. f_equal. lia.
    + destruct Hpost as (s' & -> & Hs').
      exists s'. split; [|done]. f_equal.
      * do 3 f_equal. lia.
      * rewrite Htake, <- !app_assoc. do 3 f_equal.
        rewrite Hdrop. f_equal. lia.
Qed.

Lemma Read_loop_full fuel s p :
  Read_loop fuel s p (Z.of_nat (length p))
  = (Stream.Returned (Z.of_nat (length p), None), s, p).
Proof. destruct fuel; cbn [Read_loop]; by rewrite Z.ltb_irrefl. Qed.

Lemma Read_loop_holds sid fuel : forall s cs p b,
  holds s sid cs -> (length cs < fuel)%nat -> (b <= length p)%nat ->
  readPost sid cs p b (Read_loop fuel s p (Z.of_nat b)).
Proof.
  induction fuel as [|fuel IH]; intros s cs p b Hholds Hfuel Hb; [lia|].
  destruct (decide (b = length p)) as [->|Hne].
  { rewrite Read_loop_full. unfold readPost. cbn zeta.
    rewrite Nat.sub_diag. destruct (decide (0 <= _)%nat); [|lia].
    exists s, cs. rewrite take_0, app_nil_r, firstn_all, drop_0. done. }
  cbn [Read_loop]. rewrite (proj2 (Z.ltb_lt _ _)) by lia.
  destruct (currentFrame s) as [f|] eqn:Hcur.
  { apply (readFromFrame_holds sid _ s f cs p b); try done; try lia.
    - intros s' cs' p' b' Hs' Hlen Hb'. apply IH; [done|lia|done].
    - intros s' p'. apply Read_loop_full. }
  destruct Hholds as (Herr & Hro0 & Hmax & Hcs & ch & Hch & Hperm).
  rewrite Hcur in Hperm.
  destruct (getNextFrameInOrder_holds s sid cs ch
              (bool_decide (Z.of_nat b = 0)) Hch Hperm Hcs)
    as (f & rest & q' & ch' & Hfr & -> & Hperm').
  cbv zeta.
  set (s2 := setReadPos _ 0 _).
  destruct cs as [|c cs1]; cbn [framesFrom] in Hfr; simplify_eq.
  - (* the frame with the FIN bit *)
    subst s2. unfold readFromFrame.
    cbn [Stream.Data Stream.FinBit length setReadPos readPosInFrame
           readOffset setCurrentFrame setStreamFrames setFrameQueue].
    change (Z.of_nat 0) with 0. change (0 - 0) with 0.
    rewrite Z.ltb_irrefl. cbn [orb]. unfold Min.
    destruct (Z.ltb_spec (Z.of_nat (length p) - Z.of_nat b) 0); [lia|].
    change (0 <=? 0 + 0) with true. cbv iota.
    rewrite Nat2Z.id, Z.add_0_r, Nat2Z.id. change (Z.to_nat 0) with 0%nat.
    unfold readPost. cbn [concat length]. cbv zeta.
    destruct (decide (length p - b <= 0)%nat); [lia|].
    rewrite Nat.add_0_r. eexists. split; [reflexivity|done].
  - apply (readFromFrame_holds sid _ s2 _ (c :: cs1) p b); try done; try lia.
    + apply Forall_cons in Hcs as Hcs'. destruct Hcs' as [Hc Hcs1].
      split; [done|]. split; [done|]. split; [done|]. split; [done|].
      exists ch'. split; [done|]. cbn.
      assert (0 < length c)%nat by (destruct c; [done|cbn; lia]).
      split; [lia|]. split; [done|]. exists cs1. split; [done|].
      rewrite Z.sub_0_r. done.
    + intros s' cs' p' b' Hs' Hlen Hb'. apply IH; [done|cbn in *; lia|done].
    + intros s' p'. apply Read_loop_full.
Qed.

(** An error that [Read] returns is kept as the current error. *)
Lemma readFromFrame_err continue s f p b n e s' p' :
  (forall s1 p1 b1, continue s1 p1 b1 = (Stream.Returned (n, Some e), s', p')
                    -> currentErr s' = Some e) ->
  readFromFrame continue s f p b = (Stream.Returned (n, Some e), s', p') ->
  currentErr s' = Some e.
Proof.
  intros Hcont. unfold readFromFrame.
  repeat case_match; intros Heq; simplify_eq; try done; by eapply Hcont.
Qed.

Lemma Read_loop_err fuel : forall s p b n e s' p',
  Read_loop fuel s p b = (Stream.Returned (n, Some e), s', p') ->
  currentErr s' = Some e.
Proof.
  induction fuel as [|fuel IH]; intros s p b n e s' p'; cbn [Read_loop].
  { by destruct (b <? Z.of_nat (length p)). }
  destruct (b <? Z.of_nat (length p)); [|done].
  destruct (currentFrame s) as [f|].
  { apply readFromFrame_err. intros s1 p1 b1. apply IH. }
  destruct (getNextFrameInOrder s (bool_decide (b = 0)))
    as [[[[g|] [e1|]]| | |] s1]; try done.
  - intros Heq. by simplify_eq.
  - apply readFromFrame_err. intros s2 p2 b2. apply IH.
  - intros Heq. by simplify_eq.
Qed.

(** The frames [Write] and [Close] queue. *)
Lemma writeAll_frames chunks : forall s ss,
  0 <= writeOffset s ->
  writeOffset s + Z.of_nat (length (concat chunks)) < 2 ^ 64 ->
  writeAll s ss chunks
  = ss ++ framesFrom (streamID s) (writeOffset s) chunks.
Proof.
  induction chunks as [|c cs IH]; intros s ss H0 Hmax; cbn; [done|].
  cbn in Hmax. rewrite length_app in Hmax.
  rewrite IH; cbn.
  - rewrite wrap64_small by lia. by rewrite <- app_assoc.
  - rewrite wrap64_small by lia. lia.
  - rewrite wrap64_small by lia. lia.
Qed.

Lemma deliver_ok fs : forall s,
  (length (streamFrames s) + length fs <= 8)%nat ->
  deliver s fs = Some (setStreamFrames s (streamFrames s ++ (Some <$> fs))).
Proof.
  induction fs as [|f fs IH]; intros s Hlen; cbn [deliver].
  - cbn. rewrite app_nil_r. by destruct s.
  - cbn [length] in Hlen. unfold AddStreamFrame.
    rewrite (proj2 (Nat.ltb_lt _ _)) by lia.
    rewrite IH by (cbn; rewrite length_app; cbn; lia).
    cbn. by rewrite <- app_assoc.
Qed.

Lemma Read_holds (s : stream) (sid : Z)
    (cs : list (list Z)) (p : list Z) :
  holds s sid cs ->
  ((length p <= length (concat cs))%nat ->
   exists s' cs',
     Read s p
     = (Stream.Returned (Z.of_nat (length p), None), s',
        take (length p) (concat cs)) /\
     holds s' sid cs' /\ concat cs' = drop (length p) (concat cs)) /\
  ((length (concat cs) < length p)%nat ->
   exists s',
     Read s p
     = (Stream.Returned (Z.of_nat (length (concat cs)), Some EOF), s',
        concat cs ++ drop (length (concat cs)) p) /\
     forall p2,
       Read s' p2 = (Stream.Returned (0, Some EOF), s', p2)).
Proof.
  intros Hholds.
  assert (Hpost : readPost sid cs p 0 (Read s p)).
  { unfold Read.
    pose proof Hholds as (Herr & _ & _ & _ & ch & Hch & Hcur).
    rewrite Herr. apply (Read_loop_holds sid _ s cs p 0%nat); [done| |lia].
    rewrite Hch, length_fmap, <- length_app.
    destruct (currentFrame s).
    - destruct Hcur as (_ & _ & cs' & -> & Hperm).
      rewrite (Permutation_length Hperm), framesFrom_length. cbn. lia.
    - rewrite (Permutation_length Hcur), framesFrom_length. lia. }
  unfold readPost in Hpost. cbn zeta in Hpost.
  rewrite Nat.sub_0_r, take_0 in Hpost. cbn [app] in Hpost.
  destruct (decide (length p <= length (concat cs))%nat) as [Hle|Hgt].
  - split; [|lia]. intros _. exact Hpost.
  - split; [lia|]. intros _. destruct Hpost as (s' & Hread & Herr).
    exists s'. split; [done|]. intros p2.
    unfold Read. by rewrite Herr.
Qed.


End EarlyStreamFacts.

(** X17 (the reader sees the bytes in order, once): on a stream that holds
    the chunks still to be read, whatever the order in which their frames
    sit in the queue and the channel, a [Read] into a buffer no longer than
    the bytes left fills it with the next bytes, returns its length and no
    error, and leaves a stream that holds the rest; a [Read] into a longer
    buffer reads all the bytes left and returns [io.EOF], as does every
    [Read] after it. *)
Theorem Read_in_order (s : EarlyStream.stream) (sid : Z)
    (cs : list (list Z)) (p : list Z) :
  holds s sid cs ->
  ((length p <= length (concat cs))%nat ->
   exists s' cs',
     EarlyStream.Read s p
     = (Stream.Returned (Z.of_nat (length p), None), s',
        take (length p) (concat cs)) /\
     holds s' sid cs' /\ concat cs' = drop (length p) (concat cs)) /\
  ((length (concat cs) < length p)%nat ->
   exists s',
     EarlyStream.Read s p
     = (Stream.Returned (Z.of_nat (length (concat cs)), Some EOF), s',
        concat cs ++ drop (length (concat cs)) p) /\
     forall p2,
       EarlyStream.Read s' p2 = (Stream.Returned (0, Some EOF), s', p2)).
Proof. apply Read_holds. Qed.

(** [Read_in_order] on a stream whose channel holds the frames of the
    chunks [1; 2; 3] and [4; 5] and the FIN frame, the last chunk first:
    a buffer of four bytes gets the first four bytes. *)
Lemma Read_in_order_witness :
  let s := EarlyStream.mkStream 7
             [Some (Stream.mkStreamFrame 7 3 false [4; 5]);
              Some (Stream.mkStreamFrame 7 5 true []);
              Some (Stream.mkStreamFrame 7 0 false [1; 2; 3])]
             None 0 0 0 [] None None in
  exists s' cs',
    EarlyStream.Read s [0; 0; 0; 0]
    = (Stream.Returned (4, None), s', [1; 2; 3; 4]) /\
    holds s' 7 cs' /\ concat cs' = [5].
Proof.
  cbv zeta.
  refine (proj1 (Read_in_order
    (EarlyStream.mkStream 7
       [Some (Stream.mkStreamFrame 7 3 false [4; 5]);
        Some (Stream.mkStreamFrame 7 5 true []);
        Some (Stream.mkStreamFrame 7 0 false [1; 2; 3])]
       None 0 0 0 [] None None)
    7 [[1; 2; 3]; [4; 5]] [0; 0; 0; 0] _) _).
  - split; [done|]. cbn. split; [lia|]. split; [lia|].
    split; [by repeat constructor|].
    exists [Stream.mkStreamFrame 7 3 false [4; 5];
            Stream.mkStreamFrame 7 5 true [];
            Stream.mkStreamFrame 7 0 false [1; 2; 3]].
    split; [done|]. cbn.
    symmetry. exact (Permutation_cons_append [_; _] _).
  - cbn. lia.
Defined.

(** X18 (what is written is what is read): when a sender writes up to seven
    non-empty chunks with one [Write] each and closes the stream, and the
    session hands the frames queued to the receiving stream in any order,
    every [AddStreamFrame] returns, and a [Read] into a buffer longer than
    the bytes written returns their number and [io.EOF] and has put the
    bytes written, in the order written, at the start of the buffer. *)
Theorem Write_Close_Read (sid : Z) (chunks : list (list Z))
    (fs : list Stream.StreamFrame) (p : list Z) :
  Forall (fun c => c <> []) chunks ->
  (length chunks < 8)%nat ->
  Z.of_nat (length (concat chunks)) < 2 ^ 64 ->
  fs ≡ₚ writeAll (EarlyStream.newStream sid) [] chunks ->
  (length (concat chunks) < length p)%nat ->
  exists sr s',
    deliver (EarlyStream.newStream sid) fs = Some sr /\
    EarlyStream.Read sr p
    = (Stream.Returned (Z.of_nat (length (concat chunks)), Some EOF), s',
       concat chunks ++ drop (length (concat chunks)) p).
Proof.
  intros Hne Hlen Hmax Hperm Hp.
  rewrite writeAll_frames in Hperm by (cbn; lia). cbn in Hperm.
  assert (Hfs : length fs = S (length chunks)).
  { by rewrite (Permutation_length Hperm), framesFrom_length. }
  set (sr := EarlyStream.setStreamFrames (EarlyStream.newStream sid)
               (Some <$> fs)).
  destruct (Read_holds sr sid chunks p) as [_ Hread].
  { split; [done|]. cbn. split; [lia|]. split; [lia|]. split; [done|].
    exists fs. split; [done|]. done. }
  destruct (Hread Hp) as (s' & Hs' & _). exists sr, s'. split; [|exact Hs'].
  by rewrite deliver_ok by (cbn; lia).
Qed.


(** [Write_Close_Read] on the chunks [1; 2] and [3], with the FIN frame
    handed over first and the first chunk last. *)
Lemma Write_Close_Read_witness :
  exists sr s',
    deliver (EarlyStream.newStream 7)
      [Stream.mkStreamFrame 7 3 true []; Stream.mkStreamFrame 7 2 false [3];
       Stream.mkStreamFrame 7 0 false [1; 2]] = Some sr /\
    EarlyStream.Read sr [0; 0; 0; 0; 0]
    = (Stream.Returned (3, Some EOF), s', [1; 2; 3; 0; 0]).
Proof.
  apply (Write_Close_Read 7 [[1; 2]; [3]]
           [Stream.mkStreamFrame 7 3 true []; Stream.mkStreamFrame 7 2 false [3];
            Stream.mkStreamFrame 7 0 false [1; 2]] [0; 0; 0; 0; 0]).
  - by repeat constructor.
  - cbn. lia.
  - cbn. lia.
  - exact (reverse_Permutation
             [Stream.mkStreamFrame 7 0 false [1; 2];
              Stream.mkStreamFrame 7 2 false [3];
              Stream.mkStreamFrame 7 3 true []]).
  - cbn. lia.
Defined.

(** X19 (an error ends the reading): once [Read] has returned an error,
    be it [io.EOF] or the error of the session, every later [Read] returns
    no bytes and the same error, leaves the stream and the buffer as they
    are, and [finishedReading] holds. *)
Theorem Read_error_sticky (s s' : EarlyStream.stream) (p p' p2 : list Z)
    (n : Z) (e : error) :
  EarlyStream.Read s p = (Stream.Returned (n, Some e), s', p') ->
  EarlyStream.Read s' p2 = (Stream.Returned (0, Some e), s', p2) /\
  EarlyStream.finishedReading s' = true.
Proof.
  intros Hread.
  assert (Herr : EarlyStream.currentErr s' = Some e).
  { unfold EarlyStream.Read in Hread.
    destruct (EarlyStream.currentErr s) as [e0|] eqn:He0.
    - by simplify_eq.
    - by eapply Read_loop_err. }
  unfold EarlyStream.Read, EarlyStream.finishedReading. rewrite Herr.
  split; [done|]. by apply bool_decide_eq_true_2.
Qed.

(** [Read_error_sticky] on a stream whose session has registered an
    error. *)
Lemma Read_error_sticky_witness :
  let s := (EarlyStream.RegisterError (EarlyStream.newStream 7)
              (Some (errorsNew "peer gone"))).2 in
  exists s',
    EarlyStream.Read s [0; 0]
    = (Stream.Returned (0, Some (errorsNew "peer gone")), s', [0; 0]) /\
    EarlyStream.Read s' [0]
    = (Stream.Returned (0, Some (errorsNew "peer gone")), s', [0]) /\
    EarlyStream.finishedReading s' = true.
Proof.
  cbv zeta. eexists. split; [reflexivity|].
  eapply (Read_error_sticky
            (EarlyStream.RegisterError (EarlyStream.newStream 7)
               (Some (errorsNew "peer gone"))).2 _ [0; 0] [0; 0] [0] 0
            (errorsNew "peer gone")).
  reflexivity.
Defined.

(** ** More on the packet packer *)

Section PackerMoreFacts.
Import Packer.
Context {SF Sealer : Type} `{!packerEnv SF Sealer}.

Lemma composeNextPacket_packetNumberGenerator (p : packetPacker SF)
    maxFrameSize can :
  packetNumberGenerator (composeNextPacket p maxFrameSize can).1
  = packetNumberGenerator p.
Proof.
  unfold composeNextPacket.
  repeat (case_match; simplify_eq; cbn [fst packetNumberGenerator]); done.
Qed.

(** What [composeNextPacket] does with the frames. *)
Lemma composeNextPacket_parts (p p' : packetPacker SF) maxFrameSize can
    payload :
  composeNextPacket p maxFrameSize can = (p', Ok payload) ->
  exists moved streams blocked left,
    queuedFrames p = left ++ reverse moved /\
    payload = moved ++ (FStream <$> streams) /\
    controlFrames p' = left ++ (FBlocked <$> blocked) /\
    (can = false ->
     streams = [] /\ blocked = [] /\ streamFramer p' = streamFramer p).
Proof.
  unfold composeNextPacket. fold (queuedFrames p).
  destruct (controlFramesLoop _ _ _ _ _) as [cf r] eqn:Hloop.
  destruct r as [[payload0 len]| |]; try done.
  apply controlFramesLoop_moves in Hloop as (moved & Hcf & ->).
  cbn [app]. destruct (maxFrameSize <? len); [done|].
  destruct can; cbn [negb].
  - destruct (PopStreamFrames _ _) as [fs sf].
    destruct (PopBlockedFrames sf) as [bs sf'].
    intros [= <- <-]. exists moved, (clearLastDataLen fs), bs, cf.
    by repeat split.
  - intros [= <- <-]. exists moved, [], [], cf. cbn.
    rewrite !app_nil_r. by repeat split.
Qed.

Lemma sendPayload_Ok (q p' : packetPacker SF) publicHeader encLevel sealer
    payload r :
  sendPayload q publicHeader encLevel sealer payload = (p', Ok r) ->
  streamFramer p' = streamFramer q /\
  controlFrames p' = controlFrames q /\
  match r with
  | None => p' = q
  | Some packet =>
      number packet = phPacketNumber publicHeader /\
      Pop (packetNumberGenerator q) = (number packet, packetNumberGenerator p') /\
      stopWaiting p' = None /\
      frames packet = payload /\
      encryptionLevel packet = encLevel
  end.
Proof.
  unfold sendPayload.
  destruct (bool_decide (length payload = 0%nat));
    [intros; by simplify_eq|].
  destruct (bool_decide (length payload = 1%nat)
            && bool_decide (is_Some (stopWaiting q)));
    [intros; by simplify_eq|].
  unfold writeAndSealPacket.
  cbn [perspective packetNumberGenerator streamFramer controlFrames
         stopWaiting].
  destruct (writeAndSeal _ _ _) as [raw| |]; try done.
  destruct (Pop (packetNumberGenerator q)) as [num png].
  case_bool_decide as Hnum; [|done].
  intros [= <- <-]. cbn. by rewrite Hnum.
Qed.


Lemma composeNextPacket_streamFramer (p : packetPacker SF) maxFrameSize :
  streamFramer (composeNextPacket p maxFrameSize false).1 = streamFramer p.
Proof.
  unfold composeNextPacket.
  repeat (case_match; simplify_eq; cbn [fst streamFramer negb]); done.
Qed.

Lemma sendPayload_streamFramer (q : packetPacker SF) publicHeader encLevel
    sealer payload :
  streamFramer (sendPayload q publicHeader encLevel sealer payload).1
  = streamFramer q.
Proof.
  unfold sendPayload, writeAndSealPacket.
  repeat (case_match; simplify_eq; cbn [fst streamFramer]); done.
Qed.

(** The STOP_WAITING frame held is the first frame of the payload when it
    fits. *)
Lemma composeNextPacket_stopWaiting_first (p p' : packetPacker SF)
    maxFrameSize can payload swf minLength :
  composeNextPacket p maxFrameSize can = (p', Ok payload) ->
  stopWaiting p = Some swf ->
  MinLength (FStopWaiting swf) = Ok minLength ->
  wrap64 (0 + minLength) <= maxFrameSize ->
  exists rest, payload = FStopWaiting swf :: rest.
Proof.
  unfold composeNextPacket. intros Hc Hsw Hmin Hfit. rewrite Hsw in Hc.
  rewrite length_app, Nat.add_comm in Hc.
  cbn [length Nat.add controlFramesLoop] in Hc.
  rewrite last_snoc, Hmin in Hc.
  destruct (Z.ltb_spec maxFrameSize (wrap64 (0 + minLength))); [lia|].
  rewrite removelast_last in Hc.
  destruct (controlFramesLoop _ _ _ _ _) as [cf r] eqn:Hloop.
  destruct r as [[payload0 len]| |]; try done.
  apply controlFramesLoop_moves in Hloop as (moved & _ & ->).
  cbn [app] in Hc. destruct (maxFrameSize <? len); [done|].
  destruct can; cbn [negb] in Hc.
  - destruct (PopStreamFrames _ _) as [fs sf].
    destruct (PopBlockedFrames sf) as [bs sf'].
    injection Hc as <- <-. by eexists.
  - injection Hc as <- <-. by eexists.
Qed.

End PackerMoreFacts.

(** X20 (a packet number is used up exactly by a packet): when
    [packPacket] returns the nil packet, the packet number generator is as
    it was; when it returns a packet, the packet has the number peeked from
    the generator, this number has been popped from it, and the
    STOP_WAITING frame held is dropped. *)
Theorem packPacket_packet_number {SF Sealer : Type}
    `{!Packer.packerEnv SF Sealer}
    (p p' : Packer.packetPacker SF) (leastUnacked : Z)
    (handshakePacketToRetransmit : option Packer.RetransmitPacket)
    (r : option Packer.packedPacket) :
  Packer.packPacket p leastUnacked handshakePacketToRetransmit = (p', Ok r) ->
  match r with
  | None => Packer.packetNumberGenerator p' = Packer.packetNumberGenerator p
  | Some packet =>
      Packer.number packet = Packer.Peek (Packer.packetNumberGenerator p) /\
      Packer.Pop (Packer.packetNumberGenerator p)
      = (Packer.number packet, Packer.packetNumberGenerator p') /\
      Packer.stopWaiting p' = None
  end.
Proof.
  unfold Packer.packPacket.
  set (p1 := Packer.mkPacketPacker _ _ _ _ _).
  destruct (match handshakePacketToRetransmit with
            | Some hp => _ | None => _ end) as [[encLevel sealer]| |];
    try done.
  destruct (Packer.GetLength _ _) as [publicHeaderLength| |]; try done.
  assert (Hgen : forall q payload,
    Packer.packetNumberGenerator q = Packer.packetNumberGenerator p ->
    Packer.sendPayload q (Packer.getPublicHeader p leastUnacked) encLevel
      sealer payload = (p', Ok r) ->
    match r with
    | None => Packer.packetNumberGenerator p' = Packer.packetNumberGenerator p
    | Some packet =>
        Packer.number packet = Packer.Peek (Packer.packetNumberGenerator p) /\
        Packer.Pop (Packer.packetNumberGenerator p)
        = (Packer.number packet, Packer.packetNumberGenerator p') /\
        Packer.stopWaiting p' = None
    end).
  { intros q payload Hq Hsend.
    apply sendPayload_Ok in Hsend as (_ & _ & Hr). destruct r as [packet|].
    - destruct Hr as (Hnum & Hpop & Hsw & _). rewrite Hq in Hpop.
      by repeat split.
    - by subst. }
  destruct handshakePacketToRetransmit as [hp|].
  - destruct (Packer.stopWaiting p1) as [swf|]; [|done]. by apply Hgen.
  - destruct (Packer.HasCryptoStreamFrame (Packer.streamFramer p)).
    + destruct (Packer.PopCryptoStreamFrame _ _) as [f sf]. by apply Hgen.
    + pose proof (composeNextPacket_packetNumberGenerator p1
        (wrap64 (Packer.MaxFrameAndPublicHeaderSize - publicHeaderLength))
        (Packer.canSendData p1 encLevel)) as Hpng.
      destruct (Packer.composeNextPacket p1 _ _) as [p2 [payload| |]];
        try done.
      by apply Hgen.
Qed.

(** [packPacket_packet_number] on a packer with one control frame and a
    STOP_WAITING frame, whose generator is at the packet number 1. *)
Lemma packPacket_packet_number_witness :
  let p := Packer.mkPacketPacker Packer.PerspectiveServer 1 tt
             [Packer.FControl 7] (Some (Packer.mkStopWaitingFrame 10 0 0)) in
  exists p' packet,
    @Packer.packPacket unit unit exampleEnv p 5 None = (p', Ok (Some packet)) /\
    Packer.number packet = 1 /\
    Packer.packetNumberGenerator p' = 2 /\
    Packer.stopWaiting p' = None.
Proof.
  cbv zeta. eexists _, _. split; [vm_compute; reflexivity|].
  destruct (@packPacket_packet_number unit unit exampleEnv
              (Packer.mkPacketPacker Packer.PerspectiveServer 1 tt
                 [Packer.FControl 7] (Some (Packer.mkStopWaitingFrame 10 0 0)))
              _ 5 None _ ltac:(vm_compute; reflexivity))
    as (Hnum & Hpop & Hsw).
  split; [exact Hnum|]. split; [reflexivity|exact Hsw].
Defined.

(** X21 (no stream data before the keys allow it): when no crypto stream
    frame is waiting, the sealer's encryption level is below forward-secure
    on a server, or below secure on a client, and no stream frame has been
    queued as a control frame, [packPacket] takes nothing from the stream
    framer, whatever it returns, and a packet it returns holds no stream
    frame. *)
Theorem packPacket_no_stream_data {SF Sealer : Type}
    `{!Packer.packerEnv SF Sealer}
    (p p' : Packer.packetPacker SF) (leastUnacked : Z)
    (r : result (option Packer.packedPacket)) :
  Packer.HasCryptoStreamFrame (Packer.streamFramer p) = false ->
  Packer.levelRank Packer.GetSealer.1 < dataLevel (Packer.perspective p) ->
  Forall (fun f => isStream f = false) (Packer.controlFrames p) ->
  Packer.PackPacket p leastUnacked = (p', r) ->
  Packer.streamFramer p' = Packer.streamFramer p /\
  forall packet, r = Ok (Some packet) ->
    Forall (fun f => isStream f = false) (Packer.frames packet).
Proof.
  intros Hcrypto Hlevel Hcf. unfold Packer.PackPacket, Packer.packPacket.
  rewrite Hcrypto. destruct Packer.GetSealer as [encLevel sealer] eqn:Hseal.
  cbn [fst] in Hlevel.
  set (p1 := Packer.mkPacketPacker _ _ _ _ _).
  destruct (Packer.GetLength _ _) as [publicHeaderLength| |];
    try (intros [= <- <-]; by split).
  assert (Hcan : Packer.canSendData p1 encLevel = false).
  { unfold Packer.canSendData, dataLevel in *. subst p1. cbn.
    destruct (Packer.perspective p), encLevel; cbn in *; try done; lia. }
  rewrite Hcan.
  pose proof (composeNextPacket_streamFramer p1
    (wrap64 (Packer.MaxFrameAndPublicHeaderSize - publicHeaderLength)))
    as Hsf.
  destruct (Packer.composeNextPacket p1 _ false) as [p2 r2] eqn:Hcompose.
  cbn [fst] in Hsf.
  destruct r2 as [payload| |]; try (intros [= <- <-]; by split).
  intros Hsend.
  pose proof (sendPayload_streamFramer p2
    (Packer.getPublicHeader p leastUnacked) encLevel sealer payload) as Hsf2.
  rewrite Hsend in Hsf2. cbn [fst] in Hsf2. split; [by rewrite Hsf2, Hsf|].
  intros packet ->.
  apply sendPayload_Ok in Hsend as (_ & _ & _ & _ & _ & -> & _).
  apply composeNextPacket_parts in Hcompose
    as (moved & streams & blocked & left & Hq & -> & _ & Hno).
  destruct (Hno eq_refl) as (-> & _ & _). cbn. rewrite app_nil_r.
  assert (Hqueued : Forall (fun f => isStream f = false) (queuedFrames p1)).
  { unfold queuedFrames. subst p1. cbn.
    destruct (Packer.stopWaiting p); cbn; [|done].
    apply Forall_app. split; [done|]. by repeat constructor. }
  rewrite Hq in Hqueued. apply Forall_app in Hqueued as [_ Hmoved].
  by rewrite Forall_reverse in Hmoved.
Qed.

(** [packPacket_no_stream_data] on a server at the secure level with a
    stream frame waiting: the packet holds the control frame alone. *)
Lemma packPacket_no_stream_data_witness :
  let p := Packer.mkPacketPacker Packer.PerspectiveServer 1 tt
             [Packer.FControl 7] None in
  exists p' packet,
    @Packer.PackPacket unit unit handshakeEnv p 5 = (p', Ok (Some packet)) /\
    Packer.frames packet = [Packer.FControl 7] /\
    Forall (fun f => isStream f = false) (Packer.frames packet).
Proof.
  cbv zeta. eexists _, _. split; [vm_compute; reflexivity|].
  split; [reflexivity|].
  eapply (@packPacket_no_stream_data unit unit handshakeEnv
            (Packer.mkPacketPacker Packer.PerspectiveServer 1 tt
               [Packer.FControl 7] None) _ 5 _).
  - reflexivity.
  - cbn. lia.
  - by repeat constructor.
  - vm_compute. reflexivity.
  - reflexivity.
Defined.

(** X22 (the retransmission of a handshake packet): a packet that
    [RetransmitNonForwardSecurePacket] returns is sealed at the encryption
    level of the packet retransmitted, which is not forward-secure, and
    holds the STOP_WAITING frame held, with the number of the new packet,
    in front of the frames of the packet retransmitted, of which there is
    one at least; the control frames queued and the stream framer are as
    they were. *)
Theorem RetransmitNonForwardSecurePacket_frames {SF Sealer : Type}
    `{!Packer.packerEnv SF Sealer}
    (p p' : Packer.packetPacker SF) (hp : Packer.RetransmitPacket)
    (packet : Packer.packedPacket) :
  Packer.RetransmitNonForwardSecurePacket p hp = (p', Ok (Some packet)) ->
  Packer.rpEncryptionLevel hp <> Packer.EncryptionForwardSecure /\
  Packer.encryptionLevel packet = Packer.rpEncryptionLevel hp /\
  (exists swf,
     Packer.stopWaiting p = Some swf /\
     Packer.frames packet
     = Packer.FStopWaiting
         (Packer.mkStopWaitingFrame (Packer.LeastUnacked swf)
            (Packer.number packet)
            (Packer.GetPacketNumberLengthForPublicHeader
               (Packer.number packet) 0))
       :: Packer.rpFrames hp) /\
  Packer.rpFrames hp <> [] /\
  Packer.controlFrames p' = Packer.controlFrames p /\
  Packer.streamFramer p' = Packer.streamFramer p.
Proof.
  unfold Packer.RetransmitNonForwardSecurePacket.
  case_bool_decide as Hlevel; [done|]. unfold Packer.packPacket.
  destruct (Packer.GetSealerWithEncryptionLevel _) as [sealer| |];
    cbn [mbind result_bind]; try done.
  destruct (Packer.GetLength _ _) as [publicHeaderLength| |]; try done.
  cbn [Packer.stopWaiting].
  destruct (Packer.stopWaiting p) as [swf|] eqn:Hsw; cbn [fmap option_fmap
    option_map]; [|done].
  intros Hsend. pose proof Hsend as Hsend'.
  apply sendPayload_Ok in Hsend as (Hsf & Hcf & Hnum & _ & _ & Hfr & Hlvl).
  apply sendPayload_frames in Hsend' as (_ & _ & Hone).
  cbn in Hnum. split; [done|]. split; [done|]. split; [|split; [|done]].
  - exists swf. split; [done|]. by rewrite Hfr, Hnum.
  - intros Hnil. rewrite Hnil in Hone. by specialize (Hone eq_refl).
Qed.

(** [RetransmitNonForwardSecurePacket_frames] on a packet of the
    unencrypted level with one control frame. *)
Lemma RetransmitNonForwardSecurePacket_frames_witness :
  let p := Packer.mkPacketPacker Packer.PerspectiveServer 1 tt
             [] (Some (Packer.mkStopWaitingFrame 10 0 0)) in
  let hp := Packer.mkRetransmitPacket Packer.EncryptionUnencrypted
              [Packer.FControl 3] in
  exists p' packet,
    @Packer.RetransmitNonForwardSecurePacket unit unit exampleEnv p hp
    = (p', Ok (Some packet)) /\
    Packer.encryptionLevel packet = Packer.EncryptionUnencrypted /\
    Packer.frames packet
    = [Packer.FStopWaiting (Packer.mkStopWaitingFrame 10 1 2);
       Packer.FControl 3].
Proof.
  cbv zeta. eexists _, _. split; [vm_compute; reflexivity|].
  destruct (@RetransmitNonForwardSecurePacket_frames unit unit exampleEnv
              (Packer.mkPacketPacker Packer.PerspectiveServer 1 tt
                 [] (Some (Packer.mkStopWaitingFrame 10 0 0)))
              _ (Packer.mkRetransmitPacket Packer.EncryptionUnencrypted
                   [Packer.FControl 3]) _ ltac:(vm_compute; reflexivity))
    as (_ & Hlvl & (swf & Hsw & Hfr) & _).
  split; [exact Hlvl|]. cbn in Hsw. injection Hsw as <-. exact Hfr.
Defined.

(** X23 (the control frames go last in, first out, and none is lost): the
    payload that [composeNextPacket] returns starts with control frames
    taken from the end of the frames queued, the STOP_WAITING frame held
    being the last of these and so the first of the payload when it fits,
    and goes on with the stream frames; the control frames left are those
    not taken, followed by the BLOCKED frames of the stream framer.
    Without the right to send stream frames, the stream framer is not
    touched. *)
Theorem composeNextPacket_frames {SF Sealer : Type}
    `{!Packer.packerEnv SF Sealer}
    (p p' : Packer.packetPacker SF) (maxFrameSize : Z)
    (canSendStreamFrames : bool) (payload : list Packer.Frame) :
  Packer.composeNextPacket p maxFrameSize canSendStreamFrames
  = (p', Ok payload) ->
  (exists moved streams blocked left,
     queuedFrames p = left ++ reverse moved /\
     payload = moved ++ (Packer.FStream <$> streams) /\
     Packer.controlFrames p' = left ++ (Packer.FBlocked <$> blocked) /\
     (canSendStreamFrames = false ->
      streams = [] /\ blocked = [] /\
      Packer.streamFramer p' = Packer.streamFramer p)) /\
  (forall swf minLength,
     Packer.stopWaiting p = Some swf ->
     Packer.MinLength (Packer.FStopWaiting swf) = Ok minLength ->
     wrap64 (0 + minLength) <= maxFrameSize ->
     exists rest, payload = Packer.FStopWaiting swf :: rest).
Proof.
  intros Hc. split.
  - by eapply composeNextPacket_parts.
  - intros swf minLength. by eapply composeNextPacket_stopWaiting_first.
Qed.

(** [composeNextPacket_frames] on a packer with two control frames and a
    STOP_WAITING frame, and room for two of the three. *)
Lemma composeNextPacket_frames_witness :
  let p := Packer.mkPacketPacker Packer.PerspectiveServer 1 tt
             [Packer.FControl 7; Packer.FControl 8]
             (Some (Packer.mkStopWaitingFrame 10 1 2)) in
  exists p' payload rest,
    @Packer.composeNextPacket unit unit exampleEnv p 15 false
    = (p', Ok payload) /\
    Packer.controlFrames p' = [Packer.FControl 7] /\
    payload = Packer.FStopWaiting (Packer.mkStopWaitingFrame 10 1 2) :: rest.
Proof.
  cbv zeta. eexists _, _, _. split; [vm_compute; reflexivity|].
  split; [reflexivity|].
  destruct (@composeNextPacket_frames unit unit exampleEnv
              (Packer.mkPacketPacker Packer.PerspectiveServer 1 tt
                 [Packer.FControl 7; Packer.FControl 8]
                 (Some (Packer.mkStopWaitingFrame 10 1 2)))
              _ 15 false _ ltac:(vm_compute; reflexivity)) as [_ Hfirst].
  destruct (Hfirst (Packer.mkStopWaitingFrame 10 1 2) 4 eq_refl eq_refl
              ltac:(vm_compute; discriminate)) as [rest Hrest].
  injection Hrest as <-. reflexivity.
Defined.

(** ** More on the crypto setup *)

Section CryptoSetupMoreFacts.
Import Handshake.
Variable NullAEAD : AEAD.

Lemma runCalls_secure a fs cs : forall h,
  secureAEAD h = Some a -> receivedSecurePacket h = true ->
  forwardSecureAEAD h = fs -> cryptoInv h ->
  Forall2 (secureReply a fs) cs (runCalls NullAEAD h cs).
Proof.
  induction cs as [|c cs IH]; intros h Ha Hrecv Hfs Hinv; [constructor|].
  destruct c as [pn ad ct|pn ad pt]; cbn [runCalls].
  - destruct (Open NullAEAD h pn ad ct) as [h' r] eqn:Hopen.
    assert (Hstep : secureReply a fs (CallOpen pn ad ct) r /\
                    secureAEAD h' = Some a /\
                    receivedSecurePacket h' = true /\
                    forwardSecureAEAD h' = fs /\ cryptoInv h').
    { revert Hopen. unfold Open, cryptoInv in *. rewrite Ha, Hrecv.
      subst fs. destruct (forwardSecureAEAD h) as [f|] eqn:Hfs.
      all: try destruct (aeadOpen f pn ad ct) as [res|e|m] eqn:Hf.
      all: try destruct (receivedForwardSecurePacket h) eqn:Hrfs.
      all: try destruct (aeadOpen a pn ad ct) as [res'|e'|m'] eqn:Haopen.
      all: intros [= <- <-]; cbn; rewrite ?Hfs, ?Hrfs;
        repeat split; try done.
      all: first [ by left | right; by eexists | intros _; by eexists ]. }
    destruct Hstep as (Hr & Ha' & Hrecv' & Hfs' & Hinv').
    constructor; [done|]. by apply IH.
  - constructor; [|by apply IH].
    unfold Seal, cryptoInv in *. rewrite Ha.
    destruct (receivedForwardSecurePacket h); [|by left].
    destruct (Hinv eq_refl) as [f Hf]. rewrite Hf. right.
    exists f. split; [congruence|done].
Qed.

End CryptoSetupMoreFacts.

(** X24 (no way back below the secure level): once a packet has been
    received that the secure AEAD opened, every later call of [Open]
    returns what the secure AEAD or the forward-secure AEAD returns for the
    packet, and every later call of [Seal] what one of the two seals and
    never a panic: what only the null AEAD would open is refused. *)
Theorem Open_secure_is_final (NullAEAD : Handshake.AEAD)
    (h : Handshake.CryptoSetup) (a : Handshake.AEAD)
    (later : list Handshake.call) :
  Handshake.secureAEAD h = Some a ->
  Handshake.receivedSecurePacket h = true ->
  cryptoInv h ->
  Forall2 (secureReply a (Handshake.forwardSecureAEAD h)) later
    (Handshake.runCalls NullAEAD h later).
Proof. intros Ha Hrecv Hinv. by apply runCalls_secure. Qed.

(** [Open_secure_is_final] on a crypto setup with a secure AEAD alone,
    after a packet of the secure level: a packet that only the null AEAD
    opens is refused. *)
Lemma Open_secure_is_final_witness :
  let h := Handshake.mkCryptoSetup (Some (toyAEAD 1)) None false false in
  let h1 := (Handshake.Open (toyAEAD 0) h 7 [] [1; 5]).1 in
  Forall2 (secureReply (toyAEAD 1) None)
    [Handshake.CallOpen 8 [] [0; 5]; Handshake.CallSeal 9 [] [4]]
    [Err (errorsNew "message authentication failed"); Ok [1; 5]].
Proof.
  cbv zeta.
  apply (Open_secure_is_final (toyAEAD 0)
           (Handshake.Open (toyAEAD 0)
              (Handshake.mkCryptoSetup (Some (toyAEAD 1)) None false false)
              7 [] [1; 5]).1
           (toyAEAD 1)
           [Handshake.CallOpen 8 [] [0; 5]; Handshake.CallSeal 9 [] [4]]).
  - reflexivity.
  - reflexivity.
  - intros Hfs. vm_compute in Hfs. discriminate.
Defined.

(** ** More on the sent-packet handler *)

Section OutgoingMoreFacts.
Import AckHandler.
Context `{!EntropyAccumulatorOps}.

Lemma SentPackets_chain ps : forall h m E,
  lastSentPacketNumber h = m -> 0 <= m ->
  m + Z.of_nat (length ps) < 2 ^ 64 ->
  highestInOrderAckedPacketNumber h = 0 ->
  highestInOrderAckedEntropy h = 0 ->
  ((m = 0 /\ E = 0) \/
   (m <> 0 /\ exists q, sentPacketHistory h !! m = Some q /\ pEntropy q = E)) ->
  (forall n, m < n -> sentPacketHistory h !! n = None) ->
  PacketNumber <$> ps = seqZ (m + 1) (Z.of_nat (length ps)) ->
  exists h',
    SentPackets h ps = Some h' /\
    lastSentPacketNumber h' = m + Z.of_nat (length ps) /\
    (forall k p, ps !! k = Some p ->
       sentPacketHistory h' !! (m + 1 + Z.of_nat k)
       = Some (mkPacket (m + 1 + Z.of_nat k) (pEntropyBit p)
                 (entropyAfter E (take (S k) ps)))) /\
    (forall n, n <= m -> sentPacketHistory h' !! n = sentPacketHistory h !! n).
Proof.
  induction ps as [|p ps IH]; intros h m E Hlast H0 Hmax Hhio Hhioe HE Hnone Hnum.
  { exists h. cbn. split; [done|]. split; [lia|]. split; [|done].
    intros k p Hk. by rewrite lookup_nil in Hk. }
  cbn [length] in Hmax, Hnum.
  rewrite Nat2Z.inj_succ, seqZ_cons in Hnum by lia.
  cbn [fmap list_fmap] in Hnum. injection Hnum as Hp Hps.
  replace (Z.pred (Z.succ (Z.of_nat (length ps))))
    with (Z.of_nat (length ps)) in Hps by lia.
  replace (Z.succ (m + 1)) with (m + 1 + 1) in Hps by lia.
  set (h1 := mkOutgoingPacketAckHandler (m + 1) 0 0
               (<[m + 1 := mkPacket (m + 1) (pEntropyBit p)
                             (EntropyAdd E (m + 1) (pEntropyBit p))]>
                  (sentPacketHistory h))).
  assert (Hsent : SentPacket h p = (h1, Ok tt)).
  { unfold SentPacket.
    rewrite Hp, (Hnone (m + 1)) by lia.
    rewrite bool_decide_eq_false_2 by (by intros [? ?]).
    rewrite Hlast, (wrap64_small (m + 1)) by lia.
    rewrite bool_decide_eq_true_2 by done. cbn [negb].
    rewrite bool_decide_eq_false_2 by lia.
    replace (m + 1 - 1) with m by lia. rewrite (wrap64_small m) by lia.
    rewrite Hhio, Hhioe.
    assert (Hent : (if bool_decide (0 = m) then Ok 0
                    else match sentPacketHistory h !! m with
                         | Some prev => Ok (pEntropy prev)
                         | None => Panic "nil pointer dereference"
                         end) = Ok E).
    { destruct HE as [[-> ->]|(Hm & q & Hq & <-)].
      - by rewrite bool_decide_eq_true_2.
      - rewrite bool_decide_eq_false_2 by lia. by rewrite Hq. }
    rewrite Hent. reflexivity. }
  cbn [SentPackets]. rewrite Hsent.
  destruct (IH h1 (m + 1) (EntropyAdd E (m + 1) (pEntropyBit p)))
    as (h' & Hrun & Hlast' & Hchain & Hkeep); try done; try lia.
  { right. split; [lia|]. eexists. subst h1. cbn.
    rewrite lookup_insert_eq. done. }
  { intros n Hn. subst h1. cbn. rewrite lookup_insert_ne by lia.
    apply Hnone. lia. }
  exists h'. split; [done|]. split; [cbn [length]; lia|]. split.
  - intros [|k] p0 Hk; cbn in Hk.
    + simplify_eq. rewrite Z.add_0_r, Hkeep by lia. subst h1. cbn.
      rewrite lookup_insert_eq. rewrite take_0. cbn. by rewrite Hp.
    + rewrite Nat2Z.inj_succ.
      replace (m + 1 + Z.succ (Z.of_nat k)) with (m + 1 + 1 + Z.of_nat k)
        by lia.
      rewrite (Hchain k p0 Hk). do 2 f_equal. cbn. by rewrite Hp.
  - intros n Hn. rewrite Hkeep by lia. subst h1. cbn.
    by rewrite lookup_insert_ne by lia.
Qed.

End OutgoingMoreFacts.

(** X25 (the entropy of the packets sent): when a new handler is given the
    packets with the numbers 1, 2, 3, ... in this order, every
    [SentPacket] returns nil and none panics, and the history holds each
    packet under its number, with the entropy accumulated over the packets
    up to it. *)
Theorem SentPackets_entropy `{!AckHandler.EntropyAccumulatorOps}
    (ps : list AckHandler.Packet) :
  AckHandler.PacketNumber <$> ps = seqZ 1 (Z.of_nat (length ps)) ->
  Z.of_nat (length ps) < 2 ^ 64 - 1 ->
  exists h',
    AckHandler.SentPackets AckHandler.NewOutgoingPacketAckHandler ps = Some h' /\
    AckHandler.lastSentPacketNumber h' = Z.of_nat (length ps) /\
    forall k p, ps !! k = Some p ->
      AckHandler.sentPacketHistory h' !! (1 + Z.of_nat k)
      = Some (AckHandler.mkPacket (1 + Z.of_nat k) (AckHandler.pEntropyBit p)
                (entropyAfter 0 (take (S k) ps))).
Proof.
  intros Hnum Hlen.
  destruct (SentPackets_chain ps AckHandler.NewOutgoingPacketAckHandler 0 0
              eq_refl ltac:(lia) ltac:(lia) eq_refl eq_refl
              (or_introl (conj eq_refl eq_refl)))
    as (h' & Hrun & Hlast & Hchain & _); [done|done|].
  exists h'. split; [done|]. split; [lia|]. exact Hchain.
Qed.

(** [SentPackets_entropy] on three packets. *)
Lemma SentPackets_entropy_witness :
  exists h',
    @AckHandler.SentPackets xorEntropy AckHandler.NewOutgoingPacketAckHandler
      [AckHandler.mkPacket 1 true 0; AckHandler.mkPacket 2 false 0;
       AckHandler.mkPacket 3 true 0] = Some h' /\
    AckHandler.lastSentPacketNumber h' = 3 /\
    AckHandler.sentPacketHistory h' !! 3 = Some (AckHandler.mkPacket 3 true 10).
Proof.
  destruct (@SentPackets_entropy xorEntropy
              [AckHandler.mkPacket 1 true 0; AckHandler.mkPacket 2 false 0;
               AckHandler.mkPacket 3 true 0])
    as (h' & Hrun & Hlast & Hchain).
  - reflexivity.
  - cbn. lia.
  - exists h'. split; [exact Hrun|]. split; [exact Hlast|].
    exact (Hchain 2%nat (AckHandler.mkPacket 3 true 0) eq_refl).
Defined.

(** ** More on the stream *)

Section StreamMoreFacts.
Import Utils Stream.

Lemma toInt_small x : 0 <= x < 2 ^ 63 -> toInt x = x.
Proof.
  intros Hx. unfold toInt. change (2 ^ 63) with 9223372036854775808 in *.
  change (2 ^ 64) with 18446744073709551616.
  rewrite Z.mod_small; lia.
Qed.

End StreamMoreFacts.

(** X26 (a write that fits the send window): when the stream has no error
    and the data to write is not empty and not longer than what is left of
    the send window, [Write] queues the data once, in one frame at the
    write offset, without waiting for a window update, returns the length
    of the data and no error, and has moved the write offset and the bytes
    sent on by that length. *)
Theorem Write_within_window {Q S : Type} `{!Stream.streamFrameSorter Q}
    `{!Stream.streamHandler S}
    (s : Stream.stream Q) (ss ss' : S) (p : list Z)
    (evs : list Stream.event) :
  Stream.err s = None ->
  (0 < length p)%nat ->
  Z.of_nat (length p) <= Stream.SendWindowSize (Stream.flowCtrl s) < 2 ^ 63 ->
  Stream.queueStreamFrame ss
    (Stream.mkStreamFrame (Stream.streamID s) (Stream.writeOffset s) false p)
  = (ss', None) ->
  exists s',
    Stream.Write s ss p evs
    = (Stream.Returned (Z.of_nat (length p), None), s', ss') /\
    Stream.writeOffset s'
    = wrap64 (Stream.writeOffset s + Z.of_nat (length p)) /\
    Stream.flowCtrl s'
    = Stream.AddBytesSent (Stream.flowCtrl s) (Z.of_nat (length p)) /\
    Stream.err s' = None.
Proof.
  intros Herr Hlen Hwin Hqueue. unfold Stream.Write. rewrite Herr.
  destruct (length p) as [|fuel] eqn:Hl; [lia|].
  cbn [Stream.Write_loop]. rewrite <- !Hl.
  rewrite (proj2 (Z.ltb_lt 0 _)) by lia.
  assert (Hwait : Stream.waitForWindow s evs
                  = Some (Stream.SendWindowSize (Stream.flowCtrl s), s, evs)).
  { destruct evs; cbn [Stream.waitForWindow];
      rewrite (bool_decide_eq_false_2
                 (Stream.SendWindowSize (Stream.flowCtrl s) = 0)) by lia;
      done. }
  rewrite Hwait, bool_decide_eq_false_2 by lia.
  rewrite toInt_small by lia.
  assert (Hmin : Utils.Min (Z.of_nat (length p))
                   (Stream.SendWindowSize (Stream.flowCtrl s))
                 = Z.of_nat (length p)).
  { unfold Utils.Min. destruct (Z.ltb_spec (Z.of_nat (length p))
      (Stream.SendWindowSize (Stream.flowCtrl s))); lia. }
  rewrite Hmin, (proj2 (Z.ltb_ge _ 0)) by lia.
  rewrite Nat2Z.id, firstn_all, Hqueue.
  eexists. split.
  - destruct fuel; cbn [Stream.Write_loop];
      rewrite Z.add_0_l, Z.ltb_irrefl; reflexivity.
  - done.
Qed.

(** [Write_within_window] on a new stream with a send window of 10 bytes:
    the five bytes go out in one frame. *)
Lemma Write_within_window_witness :
  let s := Stream.newStream ([] : list Stream.StreamFrame) 5 10 10 in
  exists s',
    Stream.Write s ([] : list Stream.StreamFrame) [10; 11; 12; 13; 14] []
    = (Stream.Returned (5, None), s',
       [Stream.mkStreamFrame 5 0 false [10; 11; 12; 13; 14]]) /\
    Stream.writeOffset s' = 5.
Proof.
  cbv zeta.
  destruct (Write_within_window
              (Stream.newStream ([] : list Stream.StreamFrame) 5 10 10)
              ([] : list Stream.StreamFrame)
              [Stream.mkStreamFrame 5 0 false [10; 11; 12; 13; 14]]
              [10; 11; 12; 13; 14] [])
    as (s' & Hw & Hoff & _).
  - reflexivity.
  - cbn. lia.
  - vm_compute. split; [discriminate|reflexivity].
  - reflexivity.
  - exists s'. split; [exact Hw|exact Hoff].
Defined.

(** ** The cubic sender *)

Section CongestionFacts.
Import Utils Congestion.
Context {HSS PRR Cubic RTT : Type} `{!senderEnv HSS PRR Cubic RTT}.

Lemma onPacketLost_in_recovery (c : sender) pn lostBytes bytesInFlight :
  slowStartLargeReduction c = false ->
  pn <= largestSentAtLastCutback c ->
  congestionWindow (onPacketLost c pn lostBytes bytesInFlight)
  = congestionWindow c /\
  slowstartThreshold (onPacketLost c pn lostBytes bytesInFlight)
  = slowstartThreshold c.
Proof.
  intros Hlarge Hpn. unfold onPacketLost.
  rewrite (proj2 (Z.leb_le _ _)) by done. rewrite Hlarge.
  by destruct (lastCutbackExitedSlowstart c).
Qed.

Lemma onPacketLost_new_loss (c : sender) pn lostBytes bytesInFlight :
  largestSentAtLastCutback c < pn ->
  let c' := onPacketLost c pn lostBytes bytesInFlight in
  minCongestionWindow c <= congestionWindow c' /\
  slowstartThreshold c' = congestionWindow c' /\
  largestSentAtLastCutback c' = largestSentPacketNumber c /\
  congestionWindowCount c' = 0 /\
  slowStartLargeReduction c' = slowStartLargeReduction c /\
  InSlowStart c' = false.
Proof.
  intros Hpn. cbv zeta. unfold onPacketLost.
  rewrite (proj2 (Z.leb_gt _ _)) by done.
  destruct (if slowStartLargeReduction c && InSlowStart c then _ else _)
    as [cwnd cu].
  unfold InSlowStart, GetCongestionWindow, GetSlowStartThreshold. cbn.
  rewrite Z.ltb_irrefl. repeat split; try done.
  destruct (Z.ltb_spec cwnd (minCongestionWindow c)); lia.
Qed.

Local Ltac window_facts := cbn; repeat split; first [done | intros; lia].

Lemma maybeIncreaseCwnd_bounds (c : sender) acked bytes bytesInFlight :
  0 <= congestionWindow c <= maxTCPCongestionWindow c ->
  maxTCPCongestionWindow c < 2 ^ 64 ->
  let c' := maybeIncreaseCwnd c acked bytes bytesInFlight in
  congestionWindow c' <= maxTCPCongestionWindow c /\
  (reno c = true ->
   congestionWindow c <= congestionWindow c' <= congestionWindow c + 1) /\
  slowstartThreshold c' = slowstartThreshold c /\
  maxTCPCongestionWindow c' = maxTCPCongestionWindow c /\
  reno c' = reno c /\
  largestAckedPacketNumber c' = largestAckedPacketNumber c /\
  largestSentAtLastCutback c' = largestSentAtLastCutback c.
Proof.
  intros Hw Hmax. cbv zeta. unfold maybeIncreaseCwnd.
  destruct (isCwndLimited c bytesInFlight); cbn [negb]; [|window_facts].
  destruct (Z.leb_spec (maxTCPCongestionWindow c) (congestionWindow c));
    [window_facts|].
  assert (Hinc : wrap64 (congestionWindow c + 1) = congestionWindow c + 1)
    by (apply wrap64_small; lia).
  destruct (InSlowStart c); [cbn; rewrite Hinc; window_facts|].
  destruct (reno c) eqn:Hreno.
  - destruct (_ <=? _); cbn; rewrite ?Hinc; window_facts.
  - destruct (CongestionWindowAfterAck _ _ _) as [w cu]. cbn.
    unfold MinPacketNumber.
    destruct (Z.ltb_spec (maxTCPCongestionWindow c) w); window_facts.
Qed.

Lemma onPacketAcked_bounds (c : sender) acked bytes bytesInFlight :
  0 <= congestionWindow c <= maxTCPCongestionWindow c ->
  maxTCPCongestionWindow c < 2 ^ 64 ->
  let c' := onPacketAcked c acked bytes bytesInFlight in
  congestionWindow c' <= maxTCPCongestionWindow c /\
  (reno c = true ->
   congestionWindow c <= congestionWindow c' <= congestionWindow c + 1) /\
  slowstartThreshold c' = slowstartThreshold c /\
  maxTCPCongestionWindow c' = maxTCPCongestionWindow c /\
  reno c' = reno c.
Proof.
  intros Hw Hmax. cbv zeta. unfold onPacketAcked.
  set (c1 := mkCubicSender _ _ _ _ _ _ _ _ _ _ _ _ _ _ _ _ _).
  destruct (InRecovery c1); [window_facts|].
  destruct (maybeIncreaseCwnd_bounds c1 acked bytes bytesInFlight Hw Hmax)
    as (H1 & H2 & H3 & H4 & H5 & _).
  destruct (InSlowStart _); cbn; repeat split; try done; by apply H2.
Qed.

Lemma foldl_onPacketAcked_bounds acks bytesInFlight : forall c : sender,
  reno c = true ->
  0 <= congestionWindow c <= maxTCPCongestionWindow c ->
  maxTCPCongestionWindow c < 2 ^ 64 ->
  let c' := foldl (fun c i => onPacketAcked c i.1 i.2 bytesInFlight) c acks in
  congestionWindow c <= congestionWindow c'
  <= congestionWindow c + Z.of_nat (length acks) /\
  congestionWindow c' <= maxTCPCongestionWindow c /\
  slowstartThreshold c' = slowstartThreshold c.
Proof.
  induction acks as [|a acks IH]; intros c Hreno Hw Hmax; cbv zeta.
  { cbn. lia. }
  cbn [foldl length].
  destruct (onPacketAcked_bounds c a.1 a.2 bytesInFlight Hw Hmax)
    as (H1 & H2 & H3 & H4 & H5).
  specialize (H2 Hreno).
  destruct (IH (onPacketAcked c a.1 a.2 bytesInFlight))
    as (I1 & I2 & I3); [congruence|lia|lia|].
  rewrite H4 in I2. rewrite H3 in I3. repeat split; try done; lia.
Qed.

End CongestionFacts.

(** X27 (one cutback for the losses of a window): with the large reduction
    in slow start off, as it is in every sender [NewCubicSender] makes, the
    loss of a packet sent after the last cutback leaves a congestion window
    of at least the minimum, sets the slow start threshold to it, so that
    the sender is not in slow start, and makes the largest packet sent the
    new cutback point; the loss of any packet sent up to then, reported
    after it, changes neither the window nor the threshold. *)
Theorem onPacketLost_one_cutback {HSS PRR Cubic RTT : Type}
    `{!Congestion.senderEnv HSS PRR Cubic RTT}
    (c : Congestion.sender) (pn lostBytes bytesInFlight : Z)
    (pn2 lostBytes2 bytesInFlight2 : Z) :
  Congestion.slowStartLargeReduction c = false ->
  Congestion.largestSentAtLastCutback c < pn ->
  pn2 <= Congestion.largestSentPacketNumber c ->
  let c' := Congestion.onPacketLost c pn lostBytes bytesInFlight in
  let c'' := Congestion.onPacketLost c' pn2 lostBytes2 bytesInFlight2 in
  Congestion.minCongestionWindow c <= Congestion.congestionWindow c' /\
  Congestion.slowstartThreshold c' = Congestion.congestionWindow c' /\
  Congestion.InSlowStart c' = false /\
  Congestion.largestSentAtLastCutback c' = Congestion.largestSentPacketNumber c /\
  Congestion.congestionWindow c'' = Congestion.congestionWindow c' /\
  Congestion.slowstartThreshold c'' = Congestion.slowstartThreshold c'.
Proof.
  intros Hlarge Hpn Hpn2. cbv zeta.
  destruct (onPacketLost_new_loss c pn lostBytes bytesInFlight Hpn)
    as (Hmin & Hss & Hcut & _ & Hlarge' & Hslow).
  destruct (onPacketLost_in_recovery
              (Congestion.onPacketLost c pn lostBytes bytesInFlight)
              pn2 lostBytes2 bytesInFlight2) as [Hw Ht].
  { by rewrite Hlarge'. }
  { by rewrite Hcut. }
  by repeat split.
Qed.

(** [onPacketLost_one_cutback] on a Reno sender with a window of 100
    packets that has sent the packets up to 50: the loss of packet 10 cuts
    the window to 85, the loss of packet 20 leaves it. *)
Lemma onPacketLost_one_cutback_witness :
  let c := Congestion.mkCubicSender tt tt tt
             (Congestion.mkConnectionStats 0 0) tt 50 0 0 100 200 false false
             2 200 2 0 true in
  let c' := @Congestion.onPacketLost unit unit unit unit exampleSenderEnv
              c 10 1460 0 in
  let c'' := @Congestion.onPacketLost unit unit unit unit exampleSenderEnv
               c' 20 1460 0 in
  Congestion.congestionWindow c' = 85 /\
  Congestion.congestionWindow c'' = Congestion.congestionWindow c'.
Proof.
  cbv zeta. split; [reflexivity|].
  apply (@onPacketLost_one_cutback unit unit unit unit exampleSenderEnv
           (Congestion.mkCubicSender tt tt tt
              (Congestion.mkConnectionStats 0 0) tt 50 0 0 100 200 false
              false 2 200 2 0 true) 10 1460 0 20 1460 0).
  - reflexivity.
  - cbn. lia.
  - cbn. lia.
Defined.

(** X28 (the window grows by one packet per ACK at most): in Reno mode, on
    a congestion event without losses, the congestion window does not
    shrink, grows by no more than the number of packets acknowledged, and
    does not pass the maximal window. *)
Theorem OnCongestionEvent_acks {HSS PRR Cubic RTT : Type}
    `{!Congestion.senderEnv HSS PRR Cubic RTT}
    (c : Congestion.sender) (rttUpdated : bool) (bytesInFlight : Z)
    (ackedPackets : list (Z * Z)) :
  Congestion.reno c = true ->
  0 <= Congestion.congestionWindow c <= Congestion.maxTCPCongestionWindow c ->
  Congestion.maxTCPCongestionWindow c < 2 ^ 64 ->
  let c' := Congestion.OnCongestionEvent c rttUpdated bytesInFlight
              ackedPackets [] in
  Congestion.congestionWindow c <= Congestion.congestionWindow c'
  <= Congestion.congestionWindow c + Z.of_nat (length ackedPackets) /\
  Congestion.congestionWindow c' <= Congestion.maxTCPCongestionWindow c.
Proof.
  intros Hreno Hw Hmax. cbv zeta. unfold Congestion.OnCongestionEvent.
  cbn [foldl].
  set (c1 := if rttUpdated && Congestion.InSlowStart c then _ else c).
  assert (Hc1 : Congestion.congestionWindow c1 = Congestion.congestionWindow c
                /\ Congestion.maxTCPCongestionWindow c1
                   = Congestion.maxTCPCongestionWindow c
                /\ Congestion.reno c1 = Congestion.reno c).
  { subst c1. destruct (rttUpdated && Congestion.InSlowStart c); [|done].
    destruct (Congestion.hssShouldExitSlowStart _ _ _ _) as [[] h]; done. }
  destruct Hc1 as (Hcw & Hcm & Hcr).
  destruct (foldl_onPacketAcked_bounds ackedPackets bytesInFlight c1)
    as (H1 & H2 & _); [congruence|lia|lia|].
  rewrite Hcw in H1. rewrite Hcm in H2. by split.
Qed.

(** [OnCongestionEvent_acks] on a Reno sender in slow start with a window
    of 10 packets, all in flight, and three packets acknowledged. *)
Lemma OnCongestionEvent_acks_witness :
  let c := Congestion.mkCubicSender tt tt tt
             (Congestion.mkConnectionStats 0 0) tt 50 0 0 10 200 false false
             2 200 2 0 true in
  let c' := @Congestion.OnCongestionEvent unit unit unit unit
              exampleSenderEnv c true 14600
              [(1, 1460); (2, 1460); (3, 1460)] [] in
  10 <= Congestion.congestionWindow c' <= 13 /\
  Congestion.congestionWindow c' <= 200.
Proof.
  cbv zeta.
  apply (@OnCongestionEvent_acks unit unit unit unit exampleSenderEnv
           (Congestion.mkCubicSender tt tt tt
              (Congestion.mkConnectionStats 0 0) tt 50 0 0 10 200 false
              false 2 200 2 0 true) true 14600
           [(1, 1460); (2, 1460); (3, 1460)]).
  - reflexivity.
  - cbn. lia.
  - cbn. lia.
Defined.

(** ** Truncated handshake messages *)

Section HandshakeTruncatedFacts.
Import Utils Handshake.

Lemma ReadUint32_short r : (length r < 4)%nat -> ReadUint32 r = Err EOF.
Proof.
  intros Hlen. destruct r as [|a [|b [|c [|d r]]]]; try done.
  cbn in Hlen. lia.
Qed.

Lemma ReadFull_short r n :
  (length r < n)%nat ->
  endOfInput (ReadFull r n).
Proof.
  intros Hlen. destruct n as [|n]; [lia|].
  destruct r as [|x r]; [by left|]. right. unfold ReadFull.
  by rewrite (proj2 (Nat.leb_gt _ _)) by done.
Qed.

Lemma endOfInput_bind {A B} (r : result A) (k : A -> result B) :
  endOfInput r -> endOfInput (r ≫= k).
Proof. by intros [-> | ->]; [left|right]. Qed.

Lemma take_app_whole {A} (l1 l2 : list A) k :
  (length l1 <= k)%nat -> take k (l1 ++ l2) = l1 ++ take (k - length l1) l2.
Proof. intros Hk. by rewrite take_app, take_ge by done. Qed.

Lemma parsePairs_truncated data tags : forall fuel nPairs pre offset m k,
  Forall is_uint32 tags ->
  0 <= offset ->
  offset + Z.of_nat (length (valuesOf data tags)) < 2 ^ 32 ->
  nPairs * 8 = Z.of_nat (length pre) + 8 * Z.of_nat (length tags) ->
  (length tags <= fuel)%nat ->
  (k < length (valuesOf data tags))%nat ->
  endOfInput
    (parsePairs fuel nPairs (pre ++ indexOf data tags offset)
       (Z.of_nat (length pre)) offset m (take k (valuesOf data tags))).
Proof.
  induction tags as [|t tags IH];
    intros fuel nPairs pre offset m k Htags H0 Hsum Hn Hfuel Hk.
  - cbn in Hk. lia.
  - destruct fuel as [|fuel]; [cbn in Hfuel; lia|].
    apply Forall_cons in Htags as [Ht Htags].
    cbn [length] in Hn, Hfuel. cbn [parsePairs].
    rewrite (proj2 (Z.ltb_lt _ _)) by lia.
    cbn [indexOf valuesOf fmap list_fmap concat] in *.
    set (v := default [] (data !! t)) in *.
    rewrite length_app in Hsum, Hk.
    assert (Hoff : wrap32 (offset + wrap32 (Z.of_nat (length v)))
                   = offset + Z.of_nat (length v)).
    { unfold wrap32. rewrite (Z.mod_small (Z.of_nat _)) by lia.
      apply Z.mod_small. lia. }
    rewrite Hoff.
    pose proof (sliceOf_app pre (put32 t)
      (put32 (offset + Z.of_nat (length v))
       ++ indexOf data tags (offset + Z.of_nat (length v)))) as Hs1.
    rewrite put32_length in Hs1. change (Z.of_nat 4) with 4 in Hs1.
    rewrite Hs1. cbn [mbind option_bind].
    rewrite <- (app_nil_r (put32 t)) at 1. rewrite leUint32_put32 by done.
    pose proof (sliceOf_app (pre ++ put32 t)
      (put32 (offset + Z.of_nat (length v)))
      (indexOf data tags (offset + Z.of_nat (length v)))) as Hs2.
    rewrite length_app, !put32_length, <- app_assoc in Hs2.
    replace (Z.of_nat (length pre) + 4)
      with (Z.of_nat (length pre + 4)) by lia.
    replace (Z.of_nat (length pre) + 8)
      with (Z.of_nat (length pre + 4) + Z.of_nat 4) by lia.
    rewrite Hs2. cbn [mbind option_bind].
    rewrite <- (app_nil_r (put32 _)) at 1.
    rewrite leUint32_put32 by (unfold is_uint32; lia).
    rewrite (proj2 (Z.ltb_ge _ _)) by lia.
    replace (Z.to_nat (offset + Z.of_nat (length v) - offset))
      with (length v) by lia.
    destruct (decide (k < length v)%nat) as [Hshort|Hlong].
    + apply endOfInput_bind, ReadFull_short. rewrite length_take. lia.
    + rewrite take_app_whole by lia. rewrite ReadFull_app.
      cbn [mbind result_bind].
      replace (Z.of_nat (length pre + 4) + Z.of_nat 4)
        with (Z.of_nat (length ((pre ++ put32 t)
                ++ put32 (offset + Z.of_nat (length v)))))
        by (rewrite !length_app, !put32_length; lia).
      rewrite (app_assoc pre), (app_assoc (pre ++ put32 t)).
      apply IH; [done|lia|unfold valuesOf; lia| |lia|unfold valuesOf; lia].
      rewrite !length_app, !put32_length. lia.
Qed.

End HandshakeTruncatedFacts.

(** X29 (a truncated handshake message): of a message that
    [WriteHandshakeMessage] has written (tags of 32 bits, fewer than 2^16 of
    them, values of fewer than 2^32 bytes together), no proper prefix is
    accepted: on the first [k] bytes, for every [k] below the length of the
    message, [ParseHandshakeMessage] returns [io.EOF] or
    [io.ErrUnexpectedEOF]; it returns no message and does not panic. *)
Theorem ParseHandshakeMessage_truncated (messageTag : Z)
    (data : gmap Z (list Z)) (k : nat) :
  handshakeMessage_wf messageTag data ->
  (k < length (Handshake.WriteHandshakeMessage [] messageTag data))%nat ->
  endOfInput
    (Handshake.ParseHandshakeMessage
       (take k (Handshake.WriteHandshakeMessage [] messageTag data))).
Proof.
  intros (Htag & Hkeys & Hsize & Hlen).
  rewrite WriteHandshakeMessage_bytes by done. cbn [app].
  assert (Htag32 : wrap32 messageTag = messageTag)
    by (apply Z.mod_small; apply Htag).
  rewrite Htag32.
  assert (Hn16 : wrap16 (Z.of_nat (size data)) = Z.of_nat (size data)).
  { apply Z.mod_small. lia. }
  rewrite Hn16.
  assert (Hn : length (sortedTags data) = size data).
  { unfold sortedTags. rewrite merge_sort_Permutation.
    by rewrite !length_fmap, length_map_to_list. }
  rewrite (app_assoc (le16 _) (le16 0)), le16_le16_0
    by (unfold is_uint16; lia).
  set (index := indexOf data (sortedTags data) 0).
  set (values := valuesOf data (sortedTags data)).
  assert (Hindex : length index = (8 * size data)%nat)
    by (subst index; by rewrite indexOf_length, Hn).
  rewrite !length_app. change (length (le32 _)) with 4%nat.
  intros Hk. unfold Handshake.ParseHandshakeMessage.
  destruct (decide (k < 4)%nat) as [Hk4|Hk4].
  { rewrite ReadUint32_short; [by left|]. rewrite length_take. lia. }
  rewrite (take_app_whole (le32 messageTag)) by (cbn; lia).
  change (length (le32 messageTag)) with 4%nat.
  rewrite ReadUint32_le32 by done. cbn [mbind result_bind].
  destruct (decide (k - 4 < 4)%nat) as [Hk8|Hk8].
  { rewrite ReadUint32_short; [by left|]. rewrite length_take. lia. }
  rewrite (take_app_whole (le32 _)) by (cbn; lia).
  change (length (le32 (Z.of_nat (size data)))) with 4%nat.
  rewrite ReadUint32_le32 by (unfold is_uint32; lia). cbn [mbind result_bind].
  assert (Hidx : Z.to_nat (wrap32 (Z.of_nat (size data) * 8)) = length index).
  { rewrite Hindex. unfold wrap32. rewrite Z.mod_small by lia. lia. }
  rewrite Hidx.
  destruct (decide (k - 4 - 4 < length index)%nat) as [Hki|Hki].
  { apply endOfInput_bind, ReadFull_short. rewrite length_take. lia. }
  rewrite (take_app_whole index) by lia. rewrite ReadFull_app.
  cbn [mbind result_bind].
  pose proof (parsePairs_truncated data (sortedTags data)
    (Z.to_nat (Z.of_nat (size data))) (Z.of_nat (size data)) [] 0 ∅
    (k - 4 - 4 - length index)) as Hp.
  cbn [app length] in Hp. change (Z.of_nat 0) with 0 in Hp.
  fold index values in Hp.
  apply endOfInput_bind, Hp; try lia.
  - apply Forall_forall. intros t Ht.
    rewrite (sortedTags_keys data Hkeys) in Ht.
    apply list_elem_of_fmap in Ht as ([t' v] & -> & Hin).
    apply elem_of_map_to_list in Hin. by eapply Hkeys.
  - subst values. lia.
Qed.

(** [ParseHandshakeMessage_truncated] on a message with the tags 1 and 2,
    cut in the middle of the value of the tag 2. *)
Lemma ParseHandshakeMessage_truncated_witness :
  endOfInput
    (Handshake.ParseHandshakeMessage
       (take 26
          (Handshake.WriteHandshakeMessage [] 7 {[ 2 := [5; 6]; 1 := [9] ]}))).
Proof.
  apply (ParseHandshakeMessage_truncated 7 {[ 2 := [5; 6]; 1 := [9] ]} 26).
  - unfold handshakeMessage_wf. split; [unfold is_uint32; lia|].
    split.
    + intros t v Hv. unfold is_uint32.
      destruct (decide (t = 2)) as [->|]; [lia|].
      destruct (decide (t = 1)) as [->|]; [lia|].
      rewrite lookup_insert_ne in Hv by done.
      rewrite lookup_singleton_ne in Hv by done. discriminate.
    + split; vm_compute; reflexivity.
  - vm_compute. lia.
Defined.

(** ** The cubic sender in recovery *)

Section RecoveryFacts.
Import Utils Congestion.
Context {HSS PRR Cubic RTT : Type} `{!senderEnv HSS PRR Cubic RTT}.

Lemma onPacketAcked_in_recovery (c : sender) acked bytes bytesInFlight :
  0 < acked <= largestSentAtLastCutback c ->
  largestAckedPacketNumber c <= largestSentAtLastCutback c ->
  let c' := onPacketAcked c acked bytes bytesInFlight in
  congestionWindow c' = congestionWindow c /\
  slowstartThreshold c' = slowstartThreshold c /\
  largestSentAtLastCutback c' = largestSentAtLastCutback c /\
  largestAckedPacketNumber c' <= largestSentAtLastCutback c /\
  (InRecovery c' : Prop).
Proof.
  intros Hacked Hlargest. cbv zeta. unfold onPacketAcked.
  set (c1 := mkCubicSender _ _ _ _ _ _ _ _ _ _ _ _ _ _ _ _ _).
  assert (Hmax : 0 < largestAckedPacketNumber c1
                 <= largestSentAtLastCutback c).
  { subst c1. cbn. unfold MaxPacketNumber.
    destruct (Z.ltb_spec (largestAckedPacketNumber c) acked); lia. }
  assert (Hrec : InRecovery c1 = true).
  { unfold InRecovery. apply andb_true_intro. split.
    - apply Z.leb_le. subst c1. cbn in *. lia.
    - apply negb_true_iff, bool_decide_eq_false_2. lia. }
  rewrite Hrec. repeat split; try done.
  - change (largestAckedPacketNumber c1 <= largestSentAtLastCutback c). lia.
  - change (Is_true (InRecovery c1)). by rewrite Hrec.
Qed.

Lemma foldl_onPacketAcked_in_recovery acks bytesInFlight : forall c : sender,
  Forall (fun i : Z * Z => 0 < i.1 <= largestSentAtLastCutback c) acks ->
  largestAckedPacketNumber c <= largestSentAtLastCutback c ->
  let c' := foldl (fun c i => onPacketAcked c i.1 i.2 bytesInFlight) c acks in
  congestionWindow c' = congestionWindow c /\
  slowstartThreshold c' = slowstartThreshold c /\
  (acks <> [] -> InRecovery c').
Proof.
  induction acks as [|a acks IH]; intros c Hacks Hlargest; cbv zeta.
  { done. }
  apply Forall_cons in Hacks as [Ha Hacks]. cbn [foldl].
  destruct (onPacketAcked_in_recovery c a.1 a.2 bytesInFlight Ha Hlargest)
    as (Hw & Ht & Hcut & Hl & Hrec).
  destruct (IH (onPacketAcked c a.1 a.2 bytesInFlight))
    as (Iw & It & Irec).
  { by rewrite Hcut. }
  { by rewrite Hcut. }
  rewrite Iw, It. repeat split; try done.
  intros _. destruct acks as [|b acks]; [done|by apply Irec].
Qed.

End RecoveryFacts.

(** X30 (the window is frozen in recovery): in a congestion event without
    a new round trip time that reports the loss of a packet sent after the
    last cutback together with acknowledgements of packets sent so far
    (numbers from 1 to [largestSentPacketNumber]), the acknowledgements do
    not grow the window: window and threshold are those the loss alone
    leaves, and with at least one acknowledgement the sender is in
    recovery afterwards. *)
Theorem OnCongestionEvent_recovery {HSS PRR Cubic RTT : Type}
    `{!Congestion.senderEnv HSS PRR Cubic RTT}
    (c : Congestion.sender) (bytesInFlight pn lostBytes : Z)
    (ackedPackets : list (Z * Z)) :
  Congestion.largestSentAtLastCutback c < pn ->
  Congestion.largestAckedPacketNumber c
  <= Congestion.largestSentPacketNumber c ->
  Forall (fun i : Z * Z => 0 < i.1 <= Congestion.largestSentPacketNumber c)
    ackedPackets ->
  let c' := Congestion.onPacketLost c pn lostBytes bytesInFlight in
  let c'' := Congestion.OnCongestionEvent c false bytesInFlight ackedPackets
               [(pn, lostBytes)] in
  Congestion.congestionWindow c'' = Congestion.congestionWindow c' /\
  Congestion.slowstartThreshold c'' = Congestion.slowstartThreshold c' /\
  (ackedPackets <> [] -> Congestion.InRecovery c'').
Proof.
  intros Hpn Hlargest Hacks. cbv zeta. unfold Congestion.OnCongestionEvent.
  cbn [andb foldl fst snd].
  destruct (onPacketLost_new_loss c pn lostBytes bytesInFlight Hpn)
    as (_ & _ & Hcut & _).
  apply foldl_onPacketAcked_in_recovery.
  - by rewrite Hcut.
  - rewrite Hcut. unfold Congestion.onPacketLost.
    rewrite (proj2 (Z.leb_gt _ _)) by done.
    by destruct (if _ && _ then _ else _).
Qed.

(** [OnCongestionEvent_recovery] on a Reno sender with a window of 100
    packets that has sent the packets up to 50: packet 10 is lost, the
    packets 11 and 12 are acknowledged, and the window is 85 as after the
    loss alone. *)
Lemma OnCongestionEvent_recovery_witness :
  let c := Congestion.mkCubicSender tt tt tt
             (Congestion.mkConnectionStats 0 0) tt 50 9 0 100 200 false false
             2 200 2 0 true in
  let c'' := @Congestion.OnCongestionEvent unit unit unit unit
               exampleSenderEnv c false 14600 [(11, 1460); (12, 1460)]
               [(10, 1460)] in
  Congestion.congestionWindow c'' = 85 /\
  Congestion.slowstartThreshold c'' = 85 /\
  Congestion.InRecovery c''.
Proof.
  cbv zeta.
  destruct (@OnCongestionEvent_recovery unit unit unit unit exampleSenderEnv
           (Congestion.mkCubicSender tt tt tt
              (Congestion.mkConnectionStats 0 0) tt 50 9 0 100 200 false
              false 2 200 2 0 true) 14600 10 1460
           [(11, 1460); (12, 1460)]) as (Hw & Ht & Hrec).
  - cbn. lia.
  - cbn. lia.
  - repeat (apply Forall_cons; split; [cbn; lia|]). apply Forall_nil_2.
  - split; [exact Hw|]. split; [exact Ht|]. by apply Hrec.
Defined.

(** ** The Reno window after a loss *)

Section RenoWindowFacts.
Import Congestion.

(** The constant [renoBeta] is 7/10 rounded to a [float32]. *)
Lemma renoBeta_nearest :
  renoBeta = SpecFloat.SFdiv 24 128 (float32OfZ 7) (float32OfZ 10).
Proof. reflexivity. Qed.

Lemma renoWindowExact_spec n fuel : forall w0 w,
  renoWindowExact n fuel w0 = true ->
  w0 <= w < w0 + Z.of_nat fuel ->
  renoWindow n w = Some (exactRenoWindow n w).
Proof.
  induction fuel as [|fuel IH]; intros w0 w Hrun Hw; [lia|].
  cbn [renoWindowExact] in Hrun.
  destruct (bool_decide (renoWindow n w0 = Some (exactRenoWindow n w0)))
    eqn:Hhere; [|done].
  apply bool_decide_eq_true_1 in Hhere.
  destruct (decide (w = w0)) as [->|Hne]; [done|].
  apply (IH (w0 + 1)); [done|lia].
Qed.

(** With one connection and with two, the [float32] product is the exact
    product rounded down for every window below 2^14 packets. *)
Lemma renoWindowExact_1 : renoWindowExact 1 (Z.to_nat 16384) 0 = true.
Proof. vm_compute. reflexivity. Qed.

Lemma renoWindowExact_2 : renoWindowExact 2 (Z.to_nat 16384) 0 = true.
Proof. vm_compute. reflexivity. Qed.

Lemma renoWindow_exact n w :
  n = 1 \/ n = 2 -> 0 <= w < 2 ^ 14 ->
  renoWindow n w = Some (exactRenoWindow n w).
Proof.
  intros [-> | ->] Hw.
  - apply (renoWindowExact_spec 1 (Z.to_nat 16384) 0); [|lia].
    exact renoWindowExact_1.
  - apply (renoWindowExact_spec 2 (Z.to_nat 16384) 0); [|lia].
    exact renoWindowExact_2.
Qed.

Context {HSS PRR Cubic RTT : Type} `{!senderEnv HSS PRR Cubic RTT}.

Lemma onPacketLost_reno_window (c : sender) pn lostBytes bytesInFlight z :
  renoWindowAfterLoss_float32 ->
  reno c = true ->
  slowStartLargeReduction c = false ->
  largestSentAtLastCutback c < pn ->
  renoWindow (numConnections c) (congestionWindow c) = Some z ->
  congestionWindow (onPacketLost c pn lostBytes bytesInFlight)
  = Z.max z (minCongestionWindow c).
Proof.
  intros Hfloat Hreno Hlarge Hpn Hz. unfold onPacketLost.
  rewrite (proj2 (Z.leb_gt _ _)) by done.
  rewrite Hlarge, Hreno. cbn [andb]. rewrite (Hfloat _ _ _ Hz). cbn.
  destruct (Z.ltb_spec z (minCongestionWindow c)); lia.
Qed.

(** No method sets [slowStartLargeReduction]: a new sender has it off, and
    every call leaves it as it is. *)
Lemma NewCubicSender_slowStartLargeReduction h0 p0 rtt r initial maximal :
  slowStartLargeReduction (NewCubicSender h0 p0 rtt r initial maximal : sender)
  = false.
Proof. reflexivity. Qed.

Lemma onPacketLost_slowStartLargeReduction (c : sender) pn lostBytes bif :
  slowStartLargeReduction (onPacketLost c pn lostBytes bif)
  = slowStartLargeReduction c.
Proof.
  unfold onPacketLost. destruct (pn <=? largestSentAtLastCutback c).
  - destruct (lastCutbackExitedSlowstart c); [|done].
    by destruct (if slowStartLargeReduction c then _ else _).
  - by destruct (if slowStartLargeReduction c && InSlowStart c then _ else _).
Qed.

Lemma onPacketAcked_slowStartLargeReduction (c : sender) acked bytes bif :
  slowStartLargeReduction (onPacketAcked c acked bytes bif)
  = slowStartLargeReduction c.
Proof.
  unfold onPacketAcked.
  set (c1 := mkCubicSender _ _ _ _ _ _ _ _ _ _ _ _ _ _ _ _ _).
  destruct (InRecovery c1); [done|].
  assert (Hm : slowStartLargeReduction (maybeIncreaseCwnd c1 acked bytes bif)
               = slowStartLargeReduction c).
  { unfold maybeIncreaseCwnd.
    destruct (negb (isCwndLimited c1 bif)); [done|].
    destruct (maxTCPCongestionWindow c1 <=? congestionWindow c1); [done|].
    destruct (InSlowStart c1); [done|].
    destruct (reno c1).
    - by destruct (_ <=? _).
    - by destruct (CongestionWindowAfterAck _ _ _). }
  by destruct (InSlowStart _).
Qed.

Lemma slowStartLargeReduction_kept (c : sender) :
  (forall bif pn bytes r,
     slowStartLargeReduction (OnPacketSent c bif pn bytes r).1
     = slowStartLargeReduction c) /\
  (forall rttUpdated bif acked lost,
     slowStartLargeReduction (OnCongestionEvent c rttUpdated bif acked lost)
     = slowStartLargeReduction c) /\
  (forall n,
     slowStartLargeReduction (SetNumEmulatedConnections c n)
     = slowStartLargeReduction c) /\
  (forall retransmitted,
     slowStartLargeReduction (OnRetransmissionTimeout c retransmitted)
     = slowStartLargeReduction c) /\
  slowStartLargeReduction (ExitSlowstart c) = slowStartLargeReduction c.
Proof.
  split; [|split; [|split; [|split]]].
  - intros bif pn bytes r. unfold OnPacketSent. by destruct r.
  - intros rttUpdated bif acked lost. unfold OnCongestionEvent.
    set (c1 := if rttUpdated && InSlowStart c then _ else c).
    assert (H1 : slowStartLargeReduction c1 = slowStartLargeReduction c).
    { subst c1. destruct (rttUpdated && InSlowStart c); [|done].
      by destruct (hssShouldExitSlowStart _ _ _ _) as [[] h]. }
    rewrite <- H1. clear H1. generalize c1. clear c1.
    assert (Hlost : forall l (c0 : sender),
      slowStartLargeReduction
        (foldl (fun c i => onPacketLost c i.1 i.2 bif) c0 l)
      = slowStartLargeReduction c0).
    { induction l as [|i l IH]; intros c0; [done|]. cbn [foldl].
      by rewrite IH, onPacketLost_slowStartLargeReduction. }
    assert (Hacked : forall l (c0 : sender),
      slowStartLargeReduction
        (foldl (fun c i => onPacketAcked c i.1 i.2 bif) c0 l)
      = slowStartLargeReduction c0).
    { induction l as [|i l IH]; intros c0; [done|]. cbn [foldl].
      by rewrite IH, onPacketAcked_slowStartLargeReduction. }
    intros c1. by rewrite Hacked, Hlost.
  - done.
  - intros retransmitted. unfold OnRetransmissionTimeout.
    by destruct retransmitted.
  - done.
Qed.

End RenoWindowFacts.

(** C7, as the code has it (a loss in Reno mode): with the large reduction
    in slow start off, as it is in every sender [NewCubicSender] makes, the
    loss of a packet numbered above [largestSentAtLastCutback] sets the
    congestion window to the maximum of [minCongestionWindow] and the
    window [z] that [protocol.PacketNumber(float32(congestionWindow) *
    RenoBeta())] gives in [float32] arithmetic, sets the slow start
    threshold to the new window and [largestSentAtLastCutback] to
    [largestSentPacketNumber]; with one connection or two and a window
    below 2^14 packets, [z] is the window times [(n - 1 + 0.7) / n] rounded
    down; the loss of a packet numbered at or below
    [largestSentAtLastCutback] leaves the congestion window as it is. *)
Theorem onPacketLost_reno {HSS PRR Cubic RTT : Type}
    `{!Congestion.senderEnv HSS PRR Cubic RTT}
    (c : Congestion.sender) (pn lostBytes bytesInFlight z : Z) :
  Congestion.renoWindowAfterLoss_float32 ->
  Congestion.reno c = true ->
  Congestion.slowStartLargeReduction c = false ->
  Congestion.largestSentAtLastCutback c < pn ->
  Congestion.renoWindow (Congestion.numConnections c)
    (Congestion.congestionWindow c) = Some z ->
  let c' := Congestion.onPacketLost c pn lostBytes bytesInFlight in
  Congestion.congestionWindow c'
  = Z.max z (Congestion.minCongestionWindow c) /\
  Congestion.slowstartThreshold c' = Congestion.congestionWindow c' /\
  Congestion.largestSentAtLastCutback c'
  = Congestion.largestSentPacketNumber c /\
  (Congestion.numConnections c = 1 \/ Congestion.numConnections c = 2 ->
   0 <= Congestion.congestionWindow c < 2 ^ 14 ->
   z = exactRenoWindow (Congestion.numConnections c)
         (Congestion.congestionWindow c)) /\
  (forall pn2 lostBytes2 bytesInFlight2,
     pn2 <= Congestion.largestSentAtLastCutback c ->
     Congestion.congestionWindow
       (Congestion.onPacketLost c pn2 lostBytes2 bytesInFlight2)
     = Congestion.congestionWindow c).
Proof.
  intros Hfloat Hreno Hlarge Hpn Hz. cbv zeta.
  destruct (onPacketLost_new_loss c pn lostBytes bytesInFlight Hpn)
    as (_ & Hss & Hcut & _).
  split; [by apply onPacketLost_reno_window|].
  split; [done|]. split; [done|]. split.
  - intros Hn Hw. pose proof (renoWindow_exact _ _ Hn Hw) as Hexact.
    rewrite Hz in Hexact. by simplify_eq.
  - intros pn2 lostBytes2 bytesInFlight2 Hpn2.
    by destruct (onPacketLost_in_recovery c pn2 lostBytes2 bytesInFlight2
                   Hlarge Hpn2).
Qed.

(** [onPacketLost_reno] on a Reno sender with two connections and a window
    of 100 packets that has sent the packets up to 50: the loss of packet
    10 cuts the window to 85. *)
Lemma onPacketLost_reno_witness :
  let c := Congestion.mkCubicSender tt tt tt
             (Congestion.mkConnectionStats 0 0) tt 50 0 0 100 200 false false
             2 200 2 0 true in
  let c' := @Congestion.onPacketLost unit unit unit unit float32SenderEnv
              c 10 1460 0 in
  Congestion.congestionWindow c' = 85 /\
  Congestion.slowstartThreshold c' = 85 /\
  Congestion.largestSentAtLastCutback c' = 50.
Proof.
  cbv zeta.
  destruct (@onPacketLost_reno unit unit unit unit float32SenderEnv
              (Congestion.mkCubicSender tt tt tt
                 (Congestion.mkConnectionStats 0 0) tt 50 0 0 100 200 false
                 false 2 200 2 0 true) 10 1460 0 85)
    as (Hw & Ht & Hcut & _).
  - intros n w z Hz. cbn. by rewrite Hz.
  - reflexivity.
  - reflexivity.
  - cbn. lia.
  - vm_compute. reflexivity.
  - split; [exact Hw|]. split; [|exact Hcut].
    rewrite Ht. exact Hw.
Defined.

(** C7, as the spec states it, fails: [RenoBeta] for two connections is the
    [float32] 14260634 * 2^-24, a little above 0.85, and the product is
    rounded to 24 bits.  A window of 786447 packets is cut to 668480, which
    is above 786447 * 0.85 = 668479.95, and a window of 2^30 packets to
    912680576, more than 25 packets above 2^30 * 0.85. *)
Lemma onPacketLost_reno_rounding :
  let sender w :=
    Congestion.mkCubicSender tt tt tt (Congestion.mkConnectionStats 0 0) tt
      50 0 0 w (2 ^ 31) false false 2 (2 ^ 31) 2 0 true in
  let lost w :=
    @Congestion.onPacketLost unit unit unit unit float32SenderEnv
      (sender w) 10 1460 0 in
  @Congestion.renoWindowAfterLoss_float32 unit unit unit unit
    float32SenderEnv /\
  Congestion.RenoBeta 2 = SpecFloat.S754_finite false 14260634 (-24) /\
  Congestion.congestionWindow (lost 786447) = 668480 /\
  Congestion.congestionWindow (lost 786447)
  <> Z.max (exactRenoWindow 2 786447) 2 /\
  786447 * 17 < Congestion.congestionWindow (lost 786447) * 20 /\
  Congestion.congestionWindow (lost (2 ^ 30)) = 912680576 /\
  (2 ^ 30) * 17 + 25 * 20 < Congestion.congestionWindow (lost (2 ^ 30)) * 20.
Proof.
  cbv zeta. split.
  { intros n w z Hz. cbn. by rewrite Hz. }
  repeat split; try (vm_compute; reflexivity).
  vm_compute. discriminate.
Qed.
